(** * M-Dash Detector: the content script and the dev server's reload gate

    A shallow embedding of [src/content.ts] (the scanner, the banner, the
    mutation watcher and the teardown routine), of the reload notifier of
    the development server and of the script that builds the installation
    guide, followed by the properties of the specification that were settled
    against them and by further properties of the code.

    The DOM is a forest of trees whose nodes carry an identity ([nid]); a
    JavaScript reference to a node is its identity.  The document body is one
    tree of the forest, nodes that left the document (a replaced text node, a
    removed banner) live on as detached trees.  The script's module-level
    variables and the parts of the host they act on (timers, listeners, the
    mutation subscriptions, the history entry points, the root style) are the
    fields of one record that every operation takes and returns. *)

From Stdlib Require Import List String Ascii Bool Arith NArith ZArith QArith Lia.
From Stdlib Require Import Qpower Qround DecimalString Permutation Lqa.
Import ListNotations.

Set Implicit Arguments.

#[local] Open Scope string_scope.
#[local] Open Scope nat_scope.
#[local] Open Scope list_scope.

(** ** JavaScript strings *)

Module JS.

(** A JavaScript string is a sequence of UTF-16 code units. *)
Definition char16 := N.
Definition jsstring := list char16.

(** [const EM_DASH = "—"]: one code unit. *)
Definition EM_DASH : char16 := 8212%N.

(** A literal of ASCII characters. *)
Definition lit (s : string) : jsstring :=
  map N_of_ascii (list_ascii_of_string s).

(** [s.includes(c)] for a separator of one code unit. *)
Fixpoint includes (c : char16) (s : jsstring) : bool :=
  match s with
  | [] => false
  | x :: r => (x =? c)%N || includes c r
  end.

(** [s.split(c)] for a separator of one code unit: the pieces between the
    occurrences of [c]; the empty string gives one empty piece. *)
Fixpoint split (c : char16) (s : jsstring) : list jsstring :=
  match s with
  | [] => [[]]
  | x :: r =>
      if (x =? c)%N then [] :: split c r
      else match split c r with
           | [] => [[x]]
           | p :: ps => (x :: p) :: ps
           end
  end.

(** Number of occurrences of a code unit. *)
Fixpoint occurrences (c : char16) (s : jsstring) : nat :=
  match s with
  | [] => 0
  | x :: r => (if (x =? c)%N then 1 else 0) + occurrences c r
  end.

(** [parts.join(c)]. *)
Fixpoint join (c : char16) (parts : list jsstring) : jsstring :=
  match parts with
  | [] => []
  | [p] => p
  | p :: ps => p ++ c :: join c ps
  end.

(** [String(n)] for a non-negative integer. *)
Definition String_of_nat (n : nat) : jsstring :=
  lit (NilZero.string_of_uint (Nat.to_uint n)).

(** A part of a split is truthy when it is not the empty string. *)
Definition truthy (s : jsstring) : bool :=
  match s with [] => false | _ => true end.

End JS.

Import JS.

(** ** JavaScript Numbers

    A Number is a binary64 floating-point number; a finite one is kept as
    the rational it stands for.  The product of two Numbers is the Number
    nearest to their exact product, ties to the even significand. *)

Module Number.

(** [2^k] for an integer [k]. *)
Definition pow2 (k : Z) : Q := (2 ^ k)%Q.

(** For [0 < q], the [e] with [2^e <= q < 2^(e+1)]. *)
Definition exponent (q : Q) : Z :=
  let k := (Z.log2 (Qnum q) - Z.log2 (Zpos (Qden q)))%Z in
  if Qle_bool (pow2 k) q then k else (k - 1)%Z.

(** The integer nearest to [q], the even one of the two at a tie. *)
Definition nearestEven (q : Q) : Z :=
  let f := Qfloor q in
  match (q - inject_Z f ?= 1 # 2)%Q with
  | Lt => f
  | Gt => (f + 1)%Z
  | Eq => if Z.even f then f else (f + 1)%Z
  end.

(** The Number nearest to a rational [0 <= q < 2^1024]: 53 significant
    bits, and below [2^-1022] the multiples of [2^-1074]. *)
Definition round (q : Q) : Q :=
  if Qle_bool q 0 then 0%Q
  else
    let p := Z.max (exponent q - 52) (-1074) in
    (inject_Z (nearestEven (q / pow2 p)) * pow2 p)%Q.

(** [x * y] on Numbers that are not negative. *)
Definition mul (x y : Q) : Q := round (x * y)%Q.

(** [x.toFixed(2)] for [0 <= x < 10^21], as a count of hundredths: the
    integer [n] with [n / 100] nearest to [x], the larger one at a tie. *)
Definition toFixed2 (x : Q) : Z := Qfloor (x * 100 + (1 # 2))%Q.

(** [Math.floor(x)]. *)
Definition floor (x : Q) : Z := Qfloor x.

(** A rational [0 <= q < 2^1024] is a Number when rounding leaves it as it
    is. *)
Definition isNumber (q : Q) : bool := Qeq_bool (round q) q.

End Number.

(** ** The DOM *)

Module Dom.

(** The identity of a node. *)
Abbreviation nid := nat (only parsing).

(** The two inline style properties the script sets on a highlight:
    [animationDelay] in hundredths of a second, [backgroundPositionX] in
    pixels. *)
Record inlineStyle := {
  animationDelay : Z;
  backgroundPositionX : Z
}.

Record attrs := {
  tagName : string;            (* upper case, as [Element.tagName] gives it *)
  classList : list string;
  title : option jsstring;
  style : option inlineStyle
}.

#[local] Unset Elimination Schemes.
Inductive node :=
| Text (id : nid) (data : jsstring)
| Element (id : nid) (a : attrs) (childNodes : list node)
| Comment (id : nid) (data : jsstring).
#[local] Set Elimination Schemes.

Definition nodeId (n : node) : nid :=
  match n with
  | Text i _ | Element i _ _ | Comment i _ => i
  end.

Definition childNodesOf (n : node) : list node :=
  match n with
  | Element _ _ cs => cs
  | _ => []
  end.

Definition isElement (n : node) : bool :=
  match n with Element _ _ _ => true | _ => false end.

Definition isText (n : node) : bool :=
  match n with Text _ _ => true | _ => false end.

(** [classList.contains(c)] *)
Definition contains (c : string) (l : list string) : bool :=
  existsb (String.eqb c) l.

Definition hasClass (c : string) (n : node) : bool :=
  match n with
  | Element _ a _ => contains c (classList a)
  | _ => false
  end.

Definition HIGHLIGHT : string := "mdash-highlight".
Definition BANNER : string := "mdash-warning-banner".
Definition COUNT : string := "mdash-warning-count".

(** The parent test of the tree walker's filter: the element is one of the
    script's own. *)
Definition ours (a : attrs) : bool :=
  contains HIGHLIGHT (classList a) || contains BANNER (classList a).

(** [node.textContent]: the data of a text or comment node, the text of the
    descendants of an element (comments left out). *)
Fixpoint descendantText (n : node) : jsstring :=
  match n with
  | Text _ d => d
  | Element _ _ cs => flat_map descendantText cs
  | Comment _ _ => []
  end.

Definition textContent (n : node) : jsstring :=
  match n with
  | Comment _ d => d
  | _ => descendantText n
  end.

(** The nodes of a tree, in document order, and their identities. *)
Fixpoint subnodes (n : node) : list node :=
  n :: match n with
       | Element _ _ cs => flat_map subnodes cs
       | _ => []
       end.

Definition ids (n : node) : list nid := map nodeId (subnodes n).

(** The identities of the nodes strictly below the root. *)
Definition childIds (n : node) : list nid :=
  flat_map ids (childNodesOf n).

(** First result of a search along a list. *)
Fixpoint firstSome (A B : Type) (f : A -> option B) (l : list A) : option B :=
  match l with
  | [] => None
  | x :: r => match f x with
              | Some y => Some y
              | None => firstSome f r
              end
  end.

(** The node a reference designates: the node with that identity. *)
Fixpoint findNode (i : nid) (n : node) : option node :=
  if nodeId n =? i then Some n
  else match n with
       | Element _ _ cs => firstSome (findNode i) cs
       | _ => None
       end.

Definition findInForest (i : nid) (f : list node) : option node :=
  firstSome (findNode i) f.

(** [node.parentNode]: the element one of whose children is the node. *)
Fixpoint parentIn (i : nid) (n : node) : option nid :=
  match n with
  | Element p _ cs =>
      if existsb (fun c => nodeId c =? i) cs then Some p
      else firstSome (parentIn i) cs
  | _ => None
  end.

Definition parentNode (i : nid) (f : list node) : option nid :=
  firstSome (parentIn i) f.

(** [old.parentNode.replaceChild(fragment, old)] inside a tree: in the
    child list that holds [old], the children of the fragment take its
    place. *)
Fixpoint replaceChild (old : nid) (frag : list node) (n : node) : node :=
  match n with
  | Element i a cs =>
      Element i a
        (flat_map (fun c => if nodeId c =? old then frag
                            else [replaceChild old frag c]) cs)
  | _ => n
  end.

(** [root.appendChild(c)] on the root of a tree. *)
Definition appendChild (c : node) (n : node) : node :=
  match n with
  | Element i a cs => Element i a (cs ++ [c])
  | _ => n
  end.

(** [old.remove()] inside a tree: the node leaves its parent's children. *)
Fixpoint removeNode (old : nid) (n : node) : node :=
  match n with
  | Element i a cs =>
      Element i a (filter (fun c => negb (nodeId c =? old))
                          (map (removeNode old) cs))
  | _ => n
  end.

(** [el.textContent = s] for a non-empty [s]: one new text node replaces
    the children of [el]. *)
Fixpoint setTextContent (el : nid) (fresh : nid) (s : jsstring) (n : node) : node :=
  match n with
  | Element i a cs =>
      if i =? el then Element i a [Text fresh s]
      else Element i a (map (setTextContent el fresh s) cs)
  | _ => n
  end.

(** [el.querySelectorAll("." ++ c)]: the descendants of [el] that are
    elements of class [c], in document order. *)
Fixpoint selfOrDescendants (c : string) (n : node) : list node :=
  match n with
  | Element _ a cs =>
      (if contains c (classList a) then [n] else [])
        ++ flat_map (selfOrDescendants c) cs
  | _ => []
  end.

Definition querySelectorAll (c : string) (n : node) : list node :=
  match n with
  | Element _ _ cs => flat_map (selfOrDescendants c) cs
  | _ => []
  end.

Definition querySelector (c : string) (n : node) : option node :=
  hd_error (querySelectorAll c n).

(** The tree walker of [walkTextNodes]: [SHOW_TEXT] presents text nodes
    only, so every element below the root is passed through whatever its
    tag; the filter accepts a text node unless its parent element is a
    highlight or the banner, or its text has no em-dash.  [acceptNode]
    takes the attributes of the parent element. *)
Definition acceptNode (parent : attrs) (data : jsstring) : bool :=
  if ours parent then false
  else if negb (includes EM_DASH data) then false
  else true.

Fixpoint treeWalker (n : node) : list nid :=
  match n with
  | Element _ a cs =>
      flat_map (fun c => match c with
                         | Text i d => if acceptNode a d then [i] else []
                         | _ => treeWalker c
                         end) cs
  | _ => []
  end.

End Dom.

(** ** The page: the script's variables and the host state they act on *)

Module Page.

Import Dom.

(** The functions a window listener can be. *)
Inductive handler := DebouncedRescan | Cleanup.

Record listener := {
  evType : string;
  callback : handler;
  once : bool
}.

(** What a history entry point currently is: the browser's own function,
    the bound copy the script took of it at start-up, or the script's
    wrapper. *)
Inductive historyImpl := Native | BoundOriginal | Wrapper.

(** The value the script stores in the root style: the data URL of the
    sparkle pattern. *)
Inductive cssValue := SparkleDataUrl.

Record State := mkState {
  svgInjected : bool;                     (* [let svgInjected] *)
  emDashCount : nat;                      (* [let emDashCount] *)
  warningBanner : option nid;             (* [let warningBanner] *)
  mutationObserver : option nat;          (* [let mutationObserver] *)
  debounceTimeout : option nat;           (* [let debounceTimeout] *)
  historyPatched : bool;                  (* [let historyPatched] *)
  body : node;                            (* [document.body] *)
  detached : list node;                   (* trees outside the document *)
  nextId : nid;                           (* identity of the next node *)
  rootStyle : option cssValue;            (* [--mdash-sparkle-bg] on :root *)
  random : nat -> Q;                      (* what [Math.random()] gives *)
  randomCalls : nat;                      (* calls of [Math.random()] so far *)
  timers : list nat;                      (* pending timers of [setTimeout] *)
  nextTimer : nat;                        (* handle of the next timer *)
  observing : list nat;                   (* observers subscribed to the body *)
  nextObserver : nat;                     (* identity of the next observer *)
  listeners : list listener;              (* listeners on [window] *)
  pushState : historyImpl;                (* [history.pushState] *)
  replaceState : historyImpl;             (* [history.replaceState] *)
  entries : list jsstring;                (* the session history *)
  scans : nat;                            (* ghost: runs of [scanPage] *)
  styleWrites : nat                       (* ghost: calls of [setProperty] *)
}.

Definition set_svgInjected (v : bool) (s : State) : State :=
  mkState v (emDashCount s) (warningBanner s) (mutationObserver s)
    (debounceTimeout s) (historyPatched s) (body s) (detached s) (nextId
    s) (rootStyle s) (random s) (randomCalls s) (timers s) (nextTimer s)
    (observing s) (nextObserver s) (listeners s) (pushState s)
    (replaceState s) (entries s) (scans s) (styleWrites s).
Definition set_emDashCount (v : nat) (s : State) : State :=
  mkState (svgInjected s) v (warningBanner s) (mutationObserver s)
    (debounceTimeout s) (historyPatched s) (body s) (detached s) (nextId
    s) (rootStyle s) (random s) (randomCalls s) (timers s) (nextTimer s)
    (observing s) (nextObserver s) (listeners s) (pushState s)
    (replaceState s) (entries s) (scans s) (styleWrites s).
Definition set_warningBanner (v : option nid) (s : State) : State :=
  mkState (svgInjected s) (emDashCount s) v (mutationObserver s)
    (debounceTimeout s) (historyPatched s) (body s) (detached s) (nextId
    s) (rootStyle s) (random s) (randomCalls s) (timers s) (nextTimer s)
    (observing s) (nextObserver s) (listeners s) (pushState s)
    (replaceState s) (entries s) (scans s) (styleWrites s).
Definition set_mutationObserver (v : option nat) (s : State) : State :=
  mkState (svgInjected s) (emDashCount s) (warningBanner s) v
    (debounceTimeout s) (historyPatched s) (body s) (detached s) (nextId
    s) (rootStyle s) (random s) (randomCalls s) (timers s) (nextTimer s)
    (observing s) (nextObserver s) (listeners s) (pushState s)
    (replaceState s) (entries s) (scans s) (styleWrites s).
Definition set_debounceTimeout (v : option nat) (s : State) : State :=
  mkState (svgInjected s) (emDashCount s) (warningBanner s)
    (mutationObserver s) v (historyPatched s) (body s) (detached s)
    (nextId s) (rootStyle s) (random s) (randomCalls s) (timers s)
    (nextTimer s) (observing s) (nextObserver s) (listeners s)
    (pushState s) (replaceState s) (entries s) (scans s) (styleWrites s).
Definition set_historyPatched (v : bool) (s : State) : State :=
  mkState (svgInjected s) (emDashCount s) (warningBanner s)
    (mutationObserver s) (debounceTimeout s) v (body s) (detached s)
    (nextId s) (rootStyle s) (random s) (randomCalls s) (timers s)
    (nextTimer s) (observing s) (nextObserver s) (listeners s)
    (pushState s) (replaceState s) (entries s) (scans s) (styleWrites s).
Definition set_body (v : node) (s : State) : State :=
  mkState (svgInjected s) (emDashCount s) (warningBanner s)
    (mutationObserver s) (debounceTimeout s) (historyPatched s) v
    (detached s) (nextId s) (rootStyle s) (random s) (randomCalls s)
    (timers s) (nextTimer s) (observing s) (nextObserver s) (listeners
    s) (pushState s) (replaceState s) (entries s) (scans s) (styleWrites
    s).
Definition set_detached (v : list node) (s : State) : State :=
  mkState (svgInjected s) (emDashCount s) (warningBanner s)
    (mutationObserver s) (debounceTimeout s) (historyPatched s) (body s)
    v (nextId s) (rootStyle s) (random s) (randomCalls s) (timers s)
    (nextTimer s) (observing s) (nextObserver s) (listeners s)
    (pushState s) (replaceState s) (entries s) (scans s) (styleWrites s).
Definition set_nextId (v : nid) (s : State) : State :=
  mkState (svgInjected s) (emDashCount s) (warningBanner s)
    (mutationObserver s) (debounceTimeout s) (historyPatched s) (body s)
    (detached s) v (rootStyle s) (random s) (randomCalls s) (timers s)
    (nextTimer s) (observing s) (nextObserver s) (listeners s)
    (pushState s) (replaceState s) (entries s) (scans s) (styleWrites s).
Definition set_rootStyle (v : option cssValue) (s : State) : State :=
  mkState (svgInjected s) (emDashCount s) (warningBanner s)
    (mutationObserver s) (debounceTimeout s) (historyPatched s) (body s)
    (detached s) (nextId s) v (random s) (randomCalls s) (timers s)
    (nextTimer s) (observing s) (nextObserver s) (listeners s)
    (pushState s) (replaceState s) (entries s) (scans s) (styleWrites s).
Definition set_random (v : nat -> Q) (s : State) : State :=
  mkState (svgInjected s) (emDashCount s) (warningBanner s)
    (mutationObserver s) (debounceTimeout s) (historyPatched s) (body s)
    (detached s) (nextId s) (rootStyle s) v (randomCalls s) (timers s)
    (nextTimer s) (observing s) (nextObserver s) (listeners s)
    (pushState s) (replaceState s) (entries s) (scans s) (styleWrites s).
Definition set_randomCalls (v : nat) (s : State) : State :=
  mkState (svgInjected s) (emDashCount s) (warningBanner s)
    (mutationObserver s) (debounceTimeout s) (historyPatched s) (body s)
    (detached s) (nextId s) (rootStyle s) (random s) v (timers s)
    (nextTimer s) (observing s) (nextObserver s) (listeners s)
    (pushState s) (replaceState s) (entries s) (scans s) (styleWrites s).
Definition set_timers (v : list nat) (s : State) : State :=
  mkState (svgInjected s) (emDashCount s) (warningBanner s)
    (mutationObserver s) (debounceTimeout s) (historyPatched s) (body s)
    (detached s) (nextId s) (rootStyle s) (random s) (randomCalls s) v
    (nextTimer s) (observing s) (nextObserver s) (listeners s)
    (pushState s) (replaceState s) (entries s) (scans s) (styleWrites s).
Definition set_nextTimer (v : nat) (s : State) : State :=
  mkState (svgInjected s) (emDashCount s) (warningBanner s)
    (mutationObserver s) (debounceTimeout s) (historyPatched s) (body s)
    (detached s) (nextId s) (rootStyle s) (random s) (randomCalls s)
    (timers s) v (observing s) (nextObserver s) (listeners s) (pushState
    s) (replaceState s) (entries s) (scans s) (styleWrites s).
Definition set_observing (v : list nat) (s : State) : State :=
  mkState (svgInjected s) (emDashCount s) (warningBanner s)
    (mutationObserver s) (debounceTimeout s) (historyPatched s) (body s)
    (detached s) (nextId s) (rootStyle s) (random s) (randomCalls s)
    (timers s) (nextTimer s) v (nextObserver s) (listeners s) (pushState
    s) (replaceState s) (entries s) (scans s) (styleWrites s).
Definition set_nextObserver (v : nat) (s : State) : State :=
  mkState (svgInjected s) (emDashCount s) (warningBanner s)
    (mutationObserver s) (debounceTimeout s) (historyPatched s) (body s)
    (detached s) (nextId s) (rootStyle s) (random s) (randomCalls s)
    (timers s) (nextTimer s) (observing s) v (listeners s) (pushState s)
    (replaceState s) (entries s) (scans s) (styleWrites s).
Definition set_listeners (v : list listener) (s : State) : State :=
  mkState (svgInjected s) (emDashCount s) (warningBanner s)
    (mutationObserver s) (debounceTimeout s) (historyPatched s) (body s)
    (detached s) (nextId s) (rootStyle s) (random s) (randomCalls s)
    (timers s) (nextTimer s) (observing s) (nextObserver s) v (pushState
    s) (replaceState s) (entries s) (scans s) (styleWrites s).
Definition set_pushState (v : historyImpl) (s : State) : State :=
  mkState (svgInjected s) (emDashCount s) (warningBanner s)
    (mutationObserver s) (debounceTimeout s) (historyPatched s) (body s)
    (detached s) (nextId s) (rootStyle s) (random s) (randomCalls s)
    (timers s) (nextTimer s) (observing s) (nextObserver s) (listeners
    s) v (replaceState s) (entries s) (scans s) (styleWrites s).
Definition set_replaceState (v : historyImpl) (s : State) : State :=
  mkState (svgInjected s) (emDashCount s) (warningBanner s)
    (mutationObserver s) (debounceTimeout s) (historyPatched s) (body s)
    (detached s) (nextId s) (rootStyle s) (random s) (randomCalls s)
    (timers s) (nextTimer s) (observing s) (nextObserver s) (listeners
    s) (pushState s) v (entries s) (scans s) (styleWrites s).
Definition set_entries (v : list jsstring) (s : State) : State :=
  mkState (svgInjected s) (emDashCount s) (warningBanner s)
    (mutationObserver s) (debounceTimeout s) (historyPatched s) (body s)
    (detached s) (nextId s) (rootStyle s) (random s) (randomCalls s)
    (timers s) (nextTimer s) (observing s) (nextObserver s) (listeners
    s) (pushState s) (replaceState s) v (scans s) (styleWrites s).
Definition set_scans (v : nat) (s : State) : State :=
  mkState (svgInjected s) (emDashCount s) (warningBanner s)
    (mutationObserver s) (debounceTimeout s) (historyPatched s) (body s)
    (detached s) (nextId s) (rootStyle s) (random s) (randomCalls s)
    (timers s) (nextTimer s) (observing s) (nextObserver s) (listeners
    s) (pushState s) (replaceState s) (entries s) v (styleWrites s).
Definition set_styleWrites (v : nat) (s : State) : State :=
  mkState (svgInjected s) (emDashCount s) (warningBanner s)
    (mutationObserver s) (debounceTimeout s) (historyPatched s) (body s)
    (detached s) (nextId s) (rootStyle s) (random s) (randomCalls s)
    (timers s) (nextTimer s) (observing s) (nextObserver s) (listeners
    s) (pushState s) (replaceState s) (entries s) (scans s) v.

(** *** Host operations *)

(** All trees: the document body first. *)
Definition forest (s : State) : list node := body s :: detached s.

(** [arr.forEach(f)] for an [f] that acts on the state. *)
Definition forEach (A : Type) (f : A -> State -> State) (l : list A)
  (s : State) : State :=
  fold_left (fun st x => f x st) l s.

(** [document.createTextNode(d)] *)
Definition createTextNode (d : jsstring) (s : State) : node * State :=
  (Text (nextId s) d, set_nextId (S (nextId s)) s).

(** [clearTimeout(t)] *)
Definition clearTimeout (t : nat) (s : State) : State :=
  set_timers (filter (fun x => negb (x =? t)) (timers s)) s.

(** [setTimeout(cb, ms)]: the handle of the new pending timer. *)
Definition setTimeout (s : State) : nat * State :=
  (nextTimer s,
   set_timers (timers s ++ [nextTimer s]) (set_nextTimer (S (nextTimer s)) s)).

Definition sameListener (ty : string) (h : handler) (l : listener) : bool :=
  String.eqb (evType l) ty &&
  match callback l, h with
  | DebouncedRescan, DebouncedRescan | Cleanup, Cleanup => true
  | _, _ => false
  end.

(** [window.addEventListener(ty, h, { once })]: a listener already
    registered for the same type and function is not added again. *)
Definition addEventListener (ty : string) (h : handler) (o : bool)
  (s : State) : State :=
  if existsb (sameListener ty h) (listeners s) then s
  else set_listeners
         (listeners s ++ [{| evType := ty; callback := h; once := o |}]) s.

(** [window.removeEventListener(ty, h)] *)
Definition removeEventListener (ty : string) (h : handler) (s : State) : State :=
  set_listeners (filter (fun l => negb (sameListener ty h l)) (listeners s)) s.

(** [observer.disconnect()] *)
Definition disconnect (o : nat) (s : State) : State :=
  set_observing (filter (fun x => negb (x =? o)) (observing s)) s.

(** The browser's own [pushState] and [replaceState]. *)
Definition nativePushState (url : jsstring) (s : State) : State :=
  set_entries (entries s ++ [url]) s.

Definition nativeReplaceState (url : jsstring) (s : State) : State :=
  set_entries (removelast (entries s) ++ [url]) s.

(** [n.remove()]: a node that has a parent leaves it and lives on as a
    detached tree. *)
Definition remove (i : nid) (s : State) : State :=
  match parentNode i (forest s), findInForest i (forest s) with
  | Some _, Some n =>
      set_detached (map (removeNode i) (detached s) ++ [n])
        (set_body (removeNode i (body s)) s)
  | _, _ => s
  end.

(** [el.textContent = v] for a non-empty [v]. *)
Definition assignTextContent (el : nid) (v : jsstring) (s : State) : State :=
  match findInForest el (forest s) with
  | Some n =>
      set_nextId (S (nextId s))
        (set_detached
           (map (setTextContent el (nextId s) v) (detached s)
              ++ childNodesOf n)
           (set_body (setTextContent el (nextId s) v (body s)) s))
  | None => s
  end.

(** *** The content script *)

(** [injectSparkleSvg] *)
Definition injectSparkleSvg (s : State) : State :=
  if svgInjected s then s
  else set_styleWrites (S (styleWrites s))
         (set_rootStyle (Some SparkleDataUrl) (set_svgInjected true s)).

(** [debounce(scanPage, 100)]: the debounced function itself ... *)
Definition debouncedRescan (s : State) : State :=
  let s1 := match debounceTimeout s with
            | Some t => clearTimeout t s
            | None => s
            end in
  let '(t, s2) := setTimeout s1 in
  set_debounceTimeout (Some t) s2.

(** ... and its [cancel]. *)
Definition cancel (s : State) : State :=
  match debounceTimeout s with
  | Some t => set_debounceTimeout None (clearTimeout t s)
  | None => s
  end.

(** The highlight span of one em-dash: [createElement("span")], the class,
    the text, the title, and the two random style values:
    [-(Math.random() * 3).toFixed(2)] seconds, kept in hundredths, and
    [Math.floor(Math.random() * 40)] pixels.  Both products are Numbers:
    the draw times 3, or times 40, is rounded before [toFixed] and
    [Math.floor] see it. *)
Definition createHighlight (s : State) : node * State :=
  let i := nextId s in
  let delay :=
    (- Number.toFixed2 (Number.mul (random s (randomCalls s)) 3))%Z in
  let offset :=
    Number.floor (Number.mul (random s (S (randomCalls s))) 40) in
  (Element i
     {| tagName := "SPAN";
        classList := [HIGHLIGHT];
        title := Some (lit "Em-dash (" ++ [EM_DASH] ++ lit ") detected");
        style := Some {| animationDelay := delay;
                         backgroundPositionX := offset |} |}
     [Text (S i) [EM_DASH]],
   set_randomCalls (2 + randomCalls s) (set_nextId (2 + i) s)).

(** The [parts.forEach] of [highlightTextNode]: the children of the
    fragment.  A part that is not empty becomes a text node; every part
    but the last is followed by a highlight. *)
Fixpoint buildFragment (parts : list jsstring) (s : State) : list node * State :=
  match parts with
  | [] => ([], s)
  | part :: rest =>
      let '(t, s1) :=
        if truthy part
        then let '(n, s') := createTextNode part s in ([n], s')
        else ([], s) in
      let '(h, s2) :=
        match rest with
        | [] => ([], s1)
        | _ :: _ => let '(n, s') := createHighlight s1 in ([n], s')
        end in
      let '(f, s3) := buildFragment rest s2 in
      (t ++ h ++ f, s3)
  end.

(** [highlightTextNode] *)
Definition highlightTextNode (textNode : nid) (s : State) : State :=
  match findInForest textNode (forest s) with
  | Some (Text _ text) =>
      if negb (includes EM_DASH text) then s
      else
        let matches := List.length (split EM_DASH text) - 1 in
        let s1 := set_emDashCount (emDashCount s + matches) s in
        let parts := split EM_DASH text in
        let '(fragment, s2) := buildFragment parts s1 in
        match parentNode textNode (forest s2) with
        | Some _ =>
            set_detached
              (map (replaceChild textNode fragment) (detached s2)
                 ++ [Text textNode text])
              (set_body (replaceChild textNode fragment (body s2)) s2)
        | None => s2
        end
  | _ => s
  end.

Definition skipTags : list string :=
  ["SCRIPT"; "STYLE"; "NOSCRIPT"; "IFRAME"; "TEXTAREA"; "INPUT"].

(** [walkTextNodes] *)
Definition walkTextNodes (element : nid) (s : State) : State :=
  match findInForest element (forest s) with
  | Some (Element _ a _ as el) =>
      if existsb (String.eqb (tagName a)) skipTags then s
      else forEach highlightTextNode (treeWalker el) s
  | _ => s
  end.

(** [removeBanner] *)
Definition removeBanner (s : State) : State :=
  match warningBanner s with
  | Some b => set_warningBanner None (remove b s)
  | None => s
  end.

(** The white space between the tags of the banner's [innerHTML]. *)
Definition indent (n : nat) : jsstring := 10%N :: repeat 32%N n.

Definition plain (tag : string) (cls : list string) : attrs :=
  {| tagName := tag; classList := cls; title := None; style := None |}.

(** The banner as [createElement("div")] and the [innerHTML] assignment
    build it, identities from [i] on. *)
Definition bannerElement (i : nid) (count : nat) : node :=
  Element i (plain "DIV" [BANNER])
    [ Text (1 + i) (indent 8);
      Element (2 + i) (plain "SPAN" ["mdash-warning-text"])
        [Text (3 + i) (lit "Em Dashes")];
      Text (4 + i) (indent 8);
      Element (5 + i) (plain "SPAN" [COUNT])
        [Text (6 + i) (String_of_nat count)];
      Text (7 + i) (indent 6) ].

(** [updateWarningBanner] *)
Definition updateWarningBanner (s : State) : State :=
  if emDashCount s =? 0 then removeBanner s
  else
    match warningBanner s with
    | None =>
        let i := nextId s in
        set_body (appendChild (bannerElement i (emDashCount s)) (body s))
          (set_warningBanner (Some i) (set_nextId (8 + i) s))
    | Some b =>
        match findInForest b (forest s) with
        | Some bn =>
            match querySelector COUNT bn with
            | Some countEl =>
                assignTextContent (nodeId countEl)
                  (String_of_nat (emDashCount s)) s
            | None => s
            end
        | None => s
        end
    end.

(** [scanPage] *)
Definition scanPage (s : State) : State :=
  let s := set_scans (S (scans s)) s in
  let s := set_emDashCount 0 s in
  let s := walkTextNodes (nodeId (body s)) s in
  let s := if 0 <? emDashCount s then injectSparkleSvg s else s in
  updateWarningBanner s.

(** The callback of the timer that [debouncedRescan] sets. *)
Definition debounceFire (s : State) : State :=
  scanPage (set_debounceTimeout None s).

(** [containsHighlights] *)
Definition containsHighlights (n : node) : bool :=
  if negb (isElement n) then false
  else if hasClass HIGHLIGHT n then true
  else match querySelector HIGHLIGHT n with
       | Some _ => true
       | None => false
       end.

(** [cleanup] *)
Definition cleanup (s : State) : State :=
  let s := cancel s in
  let s := match mutationObserver s with
           | Some o => set_mutationObserver None (disconnect o s)
           | None => s
           end in
  let s := removeEventListener "popstate" DebouncedRescan s in
  let s := removeEventListener "hashchange" DebouncedRescan s in
  let s := if historyPatched s
           then set_historyPatched false
                  (set_replaceState BoundOriginal
                     (set_pushState BoundOriginal s))
           else s in
  removeBanner s.

(** One batch of the mutation observer. *)
Record MutationRecord := {
  addedNodes : list nid;
  removedNodes : list nid
}.

(** The two flags of the observer's callback, with the state. *)
Record Flags := {
  needsUpdate : bool;
  needsFullRescan : bool
}.

Definition onRemoved (i : nid) (acc : Flags * State) : Flags * State :=
  let '(f, s) := acc in
  match findInForest i (forest s) with
  | Some (Element _ _ _ as el) =>
      if hasClass BANNER el then acc
      else if containsHighlights el
           then ({| needsUpdate := needsUpdate f; needsFullRescan := true |}, s)
           else acc
  | _ => acc
  end.

Definition onAdded (i : nid) (acc : Flags * State) : Flags * State :=
  let '(f, s) := acc in
  match findInForest i (forest s) with
  | Some (Element _ _ _ as el) =>
      if hasClass HIGHLIGHT el then acc
      else if hasClass BANNER el then acc
      else ({| needsUpdate := true; needsFullRescan := needsFullRescan f |},
            walkTextNodes i s)
  | Some (Text _ d) =>
      if includes EM_DASH d
      then ({| needsUpdate := true; needsFullRescan := needsFullRescan f |},
            highlightTextNode i s)
      else acc
  | _ => acc
  end.

Definition onMutation (m : MutationRecord) (acc : Flags * State) : Flags * State :=
  let acc := fold_left (fun a i => onRemoved i a) (removedNodes m) acc in
  fold_left (fun a i => onAdded i a) (addedNodes m) acc.

(** The callback given to [new MutationObserver]. *)
Definition mutationCallback (mutations : list MutationRecord) (s : State) : State :=
  let '(f, s) :=
    fold_left (fun a m => onMutation m a) mutations
      ({| needsUpdate := false; needsFullRescan := false |}, s) in
  if needsFullRescan f then debouncedRescan s
  else if needsUpdate f then updateWarningBanner s
  else s.

(** [observeChanges] *)
Definition observeChanges (s : State) : State :=
  let s := match mutationObserver s with
           | Some o => disconnect o s
           | None => s
           end in
  let o := nextObserver s in
  let s := set_mutationObserver (Some o) (set_nextObserver (S o) s) in
  let s := set_observing (observing s ++ [o]) s in
  let s := addEventListener "popstate" DebouncedRescan false s in
  let s := addEventListener "hashchange" DebouncedRescan false s in
  let s := if negb (historyPatched s)
           then set_historyPatched true
                  (set_replaceState Wrapper (set_pushState Wrapper s))
           else s in
  addEventListener "pagehide" Cleanup true s.

(** The script's body once the DOM is ready. *)
Definition start (s : State) : State := observeChanges (scanPage s).

(** *** What the host does with the script's registrations *)

Definition runHandler (h : handler) (s : State) : State :=
  match h with
  | DebouncedRescan => debouncedRescan s
  | Cleanup => cleanup s
  end.

(** A call of [history.pushState] and [history.replaceState] by the page:
    the wrapper calls the original, then the debounced rescan. *)
Definition callPushState (url : jsstring) (s : State) : State :=
  match pushState s with
  | Native | BoundOriginal => nativePushState url s
  | Wrapper => debouncedRescan (nativePushState url s)
  end.

Definition callReplaceState (url : jsstring) (s : State) : State :=
  match replaceState s with
  | Native | BoundOriginal => nativeReplaceState url s
  | Wrapper => debouncedRescan (nativeReplaceState url s)
  end.

(** One listener's turn in the dispatch of a window event: a listener
    removed meanwhile is passed over, a [once] listener is removed before
    it runs. *)
Definition invoke (l : listener) (s : State) : State :=
  if existsb (sameListener (evType l) (callback l)) (listeners s)
  then runHandler (callback l)
         (if once l then removeEventListener (evType l) (callback l) s else s)
  else s.

Inductive event :=
| Mutations (o : nat) (records : list MutationRecord)
    (* a batch delivered to observer [o] *)
| WindowEvent (ty : string)
    (* popstate, hashchange, pagehide *)
| PushState (url : jsstring)
| ReplaceState (url : jsstring)
| TimerFires (t : nat)
| PageEdit (b : node) (d : list node) (n : nid).
    (* the page rebuilds its DOM *)

Definition dispatch (e : event) (s : State) : State :=
  match e with
  | Mutations o records =>
      if existsb (Nat.eqb o) (observing s) then mutationCallback records s
      else s
  | WindowEvent ty =>
      forEach invoke
        (filter (fun l => String.eqb (evType l) ty) (listeners s)) s
  | PushState url => callPushState url s
  | ReplaceState url => callReplaceState url s
  | TimerFires t =>
      if existsb (Nat.eqb t) (timers s)
      then debounceFire (clearTimeout t s)
      else s
  | PageEdit b d n => set_nextId n (set_detached d (set_body b s))
  end.

Definition run (es : list event) (s : State) : State := forEach dispatch es s.

(** A page that has just loaded: the document given, nothing installed. *)
Definition initial (b : node) (n : nid) (rnd : nat -> Q) : State :=
  {| svgInjected := false; emDashCount := 0; warningBanner := None;
     mutationObserver := None; debounceTimeout := None;
     historyPatched := false;
     body := b; detached := []; nextId := n; rootStyle := None;
     random := rnd; randomCalls := 0;
     timers := []; nextTimer := 1; observing := []; nextObserver := 0;
     listeners := []; pushState := Native; replaceState := Native;
     entries := []; scans := 0; styleWrites := 0 |}.

End Page.

(** ** The development server: the start-up grace period of the reload
    notifier *)

Module DevServer.

(** What a pending timer will run. *)
Inductive task :=
| EndGrace   (* [() => { startupGrace = false; }] *)
| Notify.    (* the body of [notifyClients] *)

Record timer := {
  handle : nat;
  due : nat;       (* milliseconds since start-up *)
  job : task
}.

(** A stream controller of the [clients] set: [enqueue] throws once it is
    closed. *)
Record client := {
  closed : bool;
  reloads : nat    (* chunks enqueued so far *)
}.

Record Server := {
  startupGrace : bool;          (* [let startupGrace] *)
  clients : list client;        (* [const clients] *)
  notifyTimeout : option nat;   (* [let timeout] of the debounced notifier *)
  now : nat;
  pending : list timer;
  nextHandle : nat
}.

(** Start-up: [let startupGrace = true; setTimeout(..., 1000)]. *)
Definition boot : Server :=
  {| startupGrace := true; clients := []; notifyTimeout := None; now := 0;
     pending := [{| handle := 1; due := 1000; job := EndGrace |}];
     nextHandle := 2 |}.

(** The function wrapped by [debounce(..., 300)]: nothing during the
    grace period; afterwards every client gets the reload chunk, and a
    client whose [enqueue] throws is deleted. *)
Definition notifyBody (srv : Server) : Server :=
  if startupGrace srv then srv
  else
    {| startupGrace := startupGrace srv;
       clients :=
         flat_map (fun c => if closed c then []
                            else [{| closed := false; reloads := S (reloads c) |}])
                  (clients srv);
       notifyTimeout := notifyTimeout srv; now := now srv;
       pending := pending srv; nextHandle := nextHandle srv |}.

(** [notifyClients()]: the debounced function. *)
Definition notifyClients (srv : Server) : Server :=
  let kept :=
    match notifyTimeout srv with
    | Some h => filter (fun tm => negb (handle tm =? h)) (pending srv)
    | None => pending srv
    end in
  {| startupGrace := startupGrace srv; clients := clients srv;
     notifyTimeout := Some (nextHandle srv); now := now srv;
     pending := kept ++ [{| handle := nextHandle srv;
                            due := now srv + 300; job := Notify |}];
     nextHandle := S (nextHandle srv) |}.

Definition fire (tm : timer) (srv : Server) : Server :=
  match job tm with
  | EndGrace =>
      {| startupGrace := false; clients := clients srv;
         notifyTimeout := notifyTimeout srv; now := now srv;
         pending := pending srv; nextHandle := nextHandle srv |}
  | Notify => notifyBody srv
  end.

(** Timers run in the order of their due times, earlier handles first
    among equal ones. *)
Fixpoint insertByDue (tm : timer) (l : list timer) : list timer :=
  match l with
  | [] => [tm]
  | x :: r => if due tm <? due x then tm :: l else x :: insertByDue tm r
  end.

Definition byDue (l : list timer) : list timer :=
  fold_left (fun acc tm => insertByDue tm acc) l [].

(** The clock reaches [t]: the timers due by then run. *)
Definition advance (t : nat) (srv : Server) : Server :=
  let ready := byDue (filter (fun tm => due tm <=? t) (pending srv)) in
  let srv' :=
    {| startupGrace := startupGrace srv; clients := clients srv;
       notifyTimeout := notifyTimeout srv; now := t;
       pending := filter (fun tm => negb (due tm <=? t)) (pending srv);
       nextHandle := nextHandle srv |} in
  fold_left (fun st tm => fire tm st) ready srv'.

Inductive event :=
| FileChanged            (* a watched .js, .css or .html file changed *)
| Connect                (* a page opens [/__reload] *)
| Close (i : nat)        (* the i-th client goes away *)
| Elapse (ms : nat).

Fixpoint closeAt (i : nat) (l : list client) : list client :=
  match l, i with
  | [], _ => []
  | c :: r, 0 => {| closed := true; reloads := reloads c |} :: r
  | c :: r, S j => c :: closeAt j r
  end.

Definition step (e : event) (srv : Server) : Server :=
  match e with
  | FileChanged => notifyClients srv
  | Connect =>
      {| startupGrace := startupGrace srv;
         clients := clients srv ++ [{| closed := false; reloads := 0 |}];
         notifyTimeout := notifyTimeout srv; now := now srv;
         pending := pending srv; nextHandle := nextHandle srv |}
  | Close i =>
      {| startupGrace := startupGrace srv;
         clients := closeAt i (clients srv);
         notifyTimeout := notifyTimeout srv; now := now srv;
         pending := pending srv; nextHandle := nextHandle srv |}
  | Elapse ms => advance (now srv + ms) srv
  end.

Definition run (es : list event) (srv : Server) : Server :=
  fold_left (fun st e => step e st) es srv.

(** While the grace period lasts: the flag is set, the timer that ends it
    is due at 1000 ms, and no client has been sent a reload. *)
Record inGrace (srv : Server) : Prop := {
  g_flag : startupGrace srv = true;
  g_due : forall tm, In tm (pending srv) -> job tm = EndGrace ->
                     due tm = 1000;
  g_clients : Forall (fun c => reloads c = 0) (clients srv)
}.

End DevServer.

(** ** The notions the properties are stated with *)

Module Props.

Import Dom Page.

(** The text of the page: the text content with the text of banner
    elements left out. *)
Fixpoint pageText (n : node) : jsstring :=
  match n with
  | Text _ d => d
  | Element _ a cs =>
      if contains BANNER (classList a) then [] else flat_map pageText cs
  | Comment _ _ => []
  end.

(** The em-dashes of the text outside highlight and banner elements. *)
Fixpoint dashesOutside (n : node) : nat :=
  match n with
  | Text _ d => occurrences EM_DASH d
  | Element _ a cs =>
      if ours a then 0 else list_sum (map dashesOutside cs)
  | Comment _ _ => 0
  end.

(** The highlight elements of a tree, in document order. *)
Definition highlights (n : node) : list node :=
  querySelectorAll HIGHLIGHT n.

(** The text nodes the tree walker accepts, with their text. *)
Fixpoint walkerNodes (n : node) : list (nid * jsstring) :=
  match n with
  | Element _ a cs =>
      flat_map (fun c => match c with
                         | Text i d => if acceptNode a d then [(i, d)] else []
                         | _ => walkerNodes c
                         end) cs
  | _ => []
  end.

(** The walker's turn at one child of an element with attributes [a]. *)
Definition walkChild (a : attrs) (c : node) : list (nid * jsstring) :=
  match c with
  | Text i x => if acceptNode a x then [(i, x)] else []
  | _ => walkerNodes c
  end.

(** The em-dashes in the text nodes the tree walker accepts. *)
Definition scannable (n : node) : nat :=
  list_sum (map (fun p => occurrences EM_DASH (snd p)) (walkerNodes n)).

(** The script's own elements are as the script builds them: a highlight
    holds text nodes only; a banner is no highlight and holds neither an
    em-dash nor a highlight. *)
Fixpoint shaped (n : node) : bool :=
  match n with
  | Element _ a cs =>
      (if contains HIGHLIGHT (classList a) then forallb isText cs else true)
      && (if contains BANNER (classList a)
          then negb (contains HIGHLIGHT (classList a))
               && negb (includes EM_DASH (flat_map descendantText cs))
               && forallb (fun c => match selfOrDescendants HIGHLIGHT c with
                                    | [] => true
                                    | _ => false
                                    end) cs
          else true)
      && forallb shaped cs
  | _ => true
  end.

(** The children of the fragments [highlightTextNode] builds: text without
    em-dash, and highlights that hold one text node. *)
Definition inert (n : node) : bool :=
  match n with
  | Text _ d => negb (includes EM_DASH d)
  | Element _ a [Text _ _] =>
      contains HIGHLIGHT (classList a) && negb (contains BANNER (classList a))
  | _ => false
  end.

(** A node without what it holds. *)
Definition rootOf (n : node) : node :=
  match n with
  | Element i a _ => Element i a []
  | _ => n
  end.

(** The node is a highlight or a banner element. *)
Definition own (n : node) : bool :=
  match n with
  | Element _ a _ => ours a
  | _ => false
  end.

(** Every node of the tree that bears the identity [t] is the text node of
    text [d]. *)
Definition leafAt (t : nid) (d : jsstring) (n : node) : Prop :=
  forall x, In x (subnodes n) -> nodeId x = t -> x = Text t d.

(** What [replaceChild] makes of a list of children. *)
Definition replaceChildren (old : nid) (frag cs : list node) : list node :=
  flat_map (fun c => if nodeId c =? old then frag
                     else [replaceChild old frag c]) cs.

(** The highlight elements of a tree, the root included. *)
Definition allHighlights (n : node) : list node :=
  selfOrDescendants HIGHLIGHT n.

(** The identities of the nodes that lie in no banner element. *)
Fixpoint visibleIds (n : node) : list nid :=
  match n with
  | Element i a cs =>
      if contains BANNER (classList a) then []
      else i :: flat_map visibleIds cs
  | Text i _ | Comment i _ => [i]
  end.

(** [document.body] is a [<body>] element. *)
Definition isBody (n : node) : Prop :=
  match n with
  | Element _ a _ => tagName a = "BODY"
  | _ => False
  end.

(** Identities are identities: no two nodes share one, and the next
    identity is new. *)
Definition uniqueIds (s : State) : Prop :=
  NoDup (flat_map ids (forest s))
  /\ Forall (fun i => i < nextId s) (flat_map ids (forest s)).

(** The banner reference designates an element of class banner. *)
Definition bannerRef (s : State) : Prop :=
  forall b, warningBanner s = Some b ->
    exists a cs, findInForest b (forest s) = Some (Element b a cs)
                 /\ contains BANNER (classList a) = true.

(** The states the properties of the scanner are stated for. *)
Record wellFormed (s : State) : Prop := {
  wf_ids : uniqueIds s;
  wf_body : isBody (body s);
  wf_shaped : forallb shaped (forest s) = true;
  wf_banner : bannerRef s
}.

(** What [buildFragment] leaves of the state: only the two allocation
    marks move. *)
Definition sameBut (s s' : State) : Prop :=
  s' = set_randomCalls (randomCalls s') (set_nextId (nextId s') s).

(** What the scanner leaves of the state: all but the counter, the trees and
    the two allocation marks. *)
Definition sameScan (s s' : State) : Prop :=
  s' = set_emDashCount (emDashCount s')
         (set_body (body s')
            (set_detached (detached s')
               (set_nextId (nextId s')
                  (set_randomCalls (randomCalls s') s)))).

(** The part of the state the watcher's registrations live in. *)
Definition hostOf (s : State) :=
  (timers s, debounceTimeout s, observing s, mutationObserver s,
   listeners s, (historyPatched s, pushState s, replaceState s)).

(** Every pending timer is the one [debounceTimeout] holds, every
    subscribed observer the one [mutationObserver] holds, the debounced
    rescan listens to the two navigation events only, and the history
    entry points are wrapped only when the flag says so. *)
Record tracked (s : State) : Prop := {
  tr_timers : forall t, In t (timers s) -> debounceTimeout s = Some t;
  tr_observing : forall o, In o (observing s) -> mutationObserver s = Some o;
  tr_listeners : forall l, In l (listeners s) ->
                 callback l = DebouncedRescan ->
                 evType l = "popstate" \/ evType l = "hashchange";
  tr_push : historyPatched s = false -> pushState s <> Wrapper;
  tr_replace : historyPatched s = false -> replaceState s <> Wrapper
}.

(** Nothing is left that could start a rescan. *)
Record quiet (s : State) : Prop := {
  q_timers : timers s = [];
  q_observing : observing s = [];
  q_listeners : forall l, In l (listeners s) -> callback l = Cleanup;
  q_push : pushState s <> Wrapper;
  q_replace : replaceState s <> Wrapper
}.

(** The listeners after [cleanup]: the two navigation listeners are gone. *)
Definition keptListeners (l : list listener) : list listener :=
  filter (fun x => negb (sameListener "hashchange" DebouncedRescan x))
         (filter (fun x => negb (sameListener "popstate" DebouncedRescan x)) l).

(** The state before the banner goes, in [cleanup]. *)
Definition unhooked (s : State) : State :=
  let s := cancel s in
  let s := match mutationObserver s with
           | Some o => set_mutationObserver None (disconnect o s)
           | None => s
           end in
  let s := removeEventListener "popstate" DebouncedRescan s in
  let s := removeEventListener "hashchange" DebouncedRescan s in
  if historyPatched s
  then set_historyPatched false
         (set_replaceState BoundOriginal (set_pushState BoundOriginal s))
  else s.

(** The banner the script holds is a child of the body. *)
Definition bannerShown (s : State) : bool :=
  match warningBanner s with
  | Some b => existsb (fun c => nodeId c =? b) (childNodesOf (body s))
  | None => false
  end.

(** The two conditions as tests, to run them on a given state. *)
Fixpoint distinct (l : list nat) : bool :=
  match l with
  | [] => true
  | x :: r => negb (existsb (Nat.eqb x) r) && distinct r
  end.

Definition wellFormedb (s : State) : bool :=
  distinct (flat_map ids (forest s))
  && forallb (fun i => i <? nextId s) (flat_map ids (forest s))
  && match body s with
     | Element _ a _ => String.eqb (tagName a) "BODY"
     | _ => false
     end
  && forallb shaped (forest s)
  && match warningBanner s with
     | Some b =>
         match findInForest b (forest s) with
         | Some (Element i a _) => (i =? b) && contains BANNER (classList a)
         | _ => false
         end
     | None => true
     end.

Definition trackedb (s : State) : bool :=
  forallb (fun t => match debounceTimeout s with
                    | Some t' => t' =? t
                    | None => false
                    end) (timers s)
  && forallb (fun o => match mutationObserver s with
                       | Some o' => o' =? o
                       | None => false
                       end) (observing s)
  && forallb (fun l => match callback l with
                       | DebouncedRescan =>
                           String.eqb (evType l) "popstate"
                           || String.eqb (evType l) "hashchange"
                       | Cleanup => true
                       end) (listeners s)
  && (historyPatched s
      || (match pushState s with Wrapper => false | _ => true end
          && match replaceState s with Wrapper => false | _ => true end)).

End Props.

(** ** Pages used as concrete inputs *)

Module Examples.

Import Dom Page Props.

(** ["a—b—c"] and ["x—y"]. *)
Definition text_abc : jsstring := [97; 8212; 98; 8212; 99]%N.
Definition text_xy : jsstring := [120; 8212; 121]%N.

Definition bodyOf (cs : list node) : node := Element 0 (plain "BODY" []) cs.

Definition noRandom : nat -> Q := fun _ => 0%Q.

(** [<body>a—b—c</body>], just loaded. *)
Definition page_abc : State := initial (bodyOf [Text 1 text_abc]) 2 noRandom.

(** [<body><script>x—y</script></body>], just loaded. *)
Definition page_script : State :=
  initial (bodyOf [Element 1 (plain "SCRIPT" []) [Text 2 text_xy]]) 3 noRandom.

(** An empty page on which the script has started. *)
Definition page_empty : State := start (initial (bodyOf []) 1 noRandom).

(** The page appends [<p>x—y</p>] to the body; the observer is told. *)
Definition adds_paragraph : list event :=
  [ PageEdit (bodyOf [Element 1 (plain "P" []) [Text 2 text_xy]]) [] 3;
    Mutations 0 [{| addedNodes := [1]; removedNodes := [] |}] ].

(** A page that holds a text node ["x—y"] outside the document. *)
Definition page_detached : State :=
  dispatch (PageEdit (bodyOf []) [Text 5 text_xy] 6)
           (initial (bodyOf []) 1 noRandom).

(** [<body>a—b—c</body>] with the script started, and the same page after
    a call of [history.pushState]. *)
Definition page_started : State := start page_abc.
Definition page_navigated : State := dispatch (PushState []) page_started.

(** The page takes a node out of the document. *)
Definition pageRemoves (i : nid) (s : State) : event :=
  PageEdit (removeNode i (body s))
           (detached s ++ match findInForest i (forest s) with
                          | Some n => [n]
                          | None => []
                          end)
           (nextId s).

(** The page removes the first highlight of [page_started]; the observer is
    told, and the timer of the debounced rescan fires. *)
Definition removes_highlight : list event :=
  [ pageRemoves 3 page_started;
    Mutations 0 [{| addedNodes := []; removedNodes := [3] |}];
    TimerFires 1 ].

(** The page appends an empty [<div>] to the body and then puts the text
    ["x—y"] into it; the observer is told of both. *)
Definition adds_div_then_text : list event :=
  [ PageEdit (bodyOf [Element 1 (plain "DIV" []) [Text 2 text_xy]]) [] 3;
    Mutations 0 [{| addedNodes := [1]; removedNodes := [] |};
                 {| addedNodes := [2]; removedNodes := [] |}] ].

(** [page_started] after the page has appended [<p>x—y</p>] to the body. *)
Definition page_grown : State :=
  dispatch
    (PageEdit (appendChild (Element 17 (plain "P" []) [Text 18 text_xy])
                           (body page_started))
              (detached page_started) 19)
    page_started.

(** The batch that tells the observer of one added node. *)
Definition added (el : nid) : list MutationRecord :=
  [{| addedNodes := [el]; removedNodes := [] |}].

(** A client connects, a file changes 700 ms after start-up, and the
    debounce delay of 300 ms all but elapses. *)
Definition early_change : list DevServer.event :=
  [DevServer.Connect; DevServer.Elapse 700; DevServer.FileChanged;
   DevServer.Elapse 299].

(** [page_grown] once the new paragraph has been walked: the counter is 3,
    the banner still shows 2. *)
Definition page_counted : State := walkTextNodes 17 page_grown.

End Examples.

(** ** A page that takes the banner out of the document *)

Module BannerExamples.

Import Dom Page Props Examples.

(** The node is in the document. *)
Definition inDocument (i : nid) (s : State) : bool :=
  existsb (Nat.eqb i) (ids (body s)).

(** The page takes the banner of [page_started] out of the body; the
    observer is told. *)
Definition loses_banner : list event :=
  [ pageRemoves 9 page_started;
    Mutations 0 [{| addedNodes := []; removedNodes := [9] |}] ].

Definition page_bannerless : State := run loses_banner page_started.

(** The page then appends [<p>x—y</p>] to the body; the observer is told. *)
Definition page_regrown : State :=
  run [ PageEdit (appendChild (Element 17 (plain "P" []) [Text 18 text_xy])
                              (body page_bannerless))
                 (detached page_bannerless) 19;
        Mutations 0 (added 17) ]
      page_bannerless.

End BannerExamples.

(** ** The notions the properties of the watcher are stated with *)

Module Watch.

Import Dom Page Props.

(** The part of the state the sparkle pattern lives in. *)
Definition styleOf (s : State) := (svgInjected s, rootStyle s, styleWrites s).

(** The pattern is installed exactly when the flag says so, by one write. *)
Definition styled (s : State) : Prop :=
  styleOf s = (true, Some SparkleDataUrl, 1) \/ styleOf s = (false, None, 0).

(** What the scanner and the banner leave alone: the registrations with the
    host, the sparkle pattern, the session history and the marks of the
    host's allocators. *)
Definition restOf (s : State) :=
  (hostOf s, styleOf s, entries s, scans s, (nextTimer s, nextObserver s)).

(** A burst of [k] calls of the debounced rescan. *)
Definition burst (k : nat) (s : State) : State :=
  Nat.iter k debouncedRescan s.

(** A node the observer's callback passes over when it is reported as
    added: one of the script's own elements, a text node without em-dash, a
    comment, or a reference that designates nothing. *)
Definition passedOverAdded (s : State) (i : nid) : bool :=
  match findInForest i (forest s) with
  | Some (Element _ a _) =>
      contains HIGHLIGHT (classList a) || contains BANNER (classList a)
  | Some (Text _ d) => negb (includes EM_DASH d)
  | _ => true
  end.

(** A node the callback passes over when it is reported as removed: no
    element, the banner, or an element that holds no highlight. *)
Definition passedOverRemoved (s : State) (i : nid) : bool :=
  match findInForest i (forest s) with
  | Some (Element _ _ _ as el) =>
      hasClass BANNER el || negb (containsHighlights el)
  | _ => true
  end.

(** The state of [observeChanges] once the observer is subscribed. *)
Definition subscribed (s : State) : State :=
  let s := match mutationObserver s with
           | Some o => disconnect o s
           | None => s
           end in
  let o := nextObserver s in
  let s := set_mutationObserver (Some o) (set_nextObserver (S o) s) in
  set_observing (observing s ++ [o]) s.

(** The three listeners of [observeChanges]. *)
Definition hooked (s : State) : Prop :=
  existsb (sameListener "popstate" DebouncedRescan) (listeners s) = true
  /\ existsb (sameListener "hashchange" DebouncedRescan) (listeners s) = true
  /\ existsb (sameListener "pagehide" Cleanup) (listeners s) = true.

(** The inline style of a highlight. *)
Definition styleOfNode (n : node) : option inlineStyle :=
  match n with
  | Element _ a _ => style a
  | _ => None
  end.

(** What the observer is told after [highlightTextNode] has replaced the
    text node [t] by the nodes [frag]. *)
Definition replaced (t : nid) (frag : list node) : MutationRecord :=
  {| addedNodes := map nodeId frag; removedNodes := [t] |}.

Definition passedOver (s : State) (m : MutationRecord) : bool :=
  forallb (passedOverAdded s) (addedNodes m)
  && forallb (passedOverRemoved s) (removedNodes m).

End Watch.

Module WatchExamples.

Import Dom Page Props Examples.

(** The largest Number below 1, and a page whose draws of [Math.random] all
    give it. *)
Definition belowOne : Q := 9007199254740991 # 9007199254740992.
Definition page_edge : State := initial (bodyOf []) 1 (fun _ => belowOne).

(** The Numbers written [0.3] and [0.005]. *)
Definition number_0_3 : Q := 5404319552844595 # 18014398509481984.
Definition number_0_005 : Q := 5764607523034235 # 1152921504606846976.

End WatchExamples.

(** ** The notions the properties of repeated scans are stated with *)

Module Rescan.

Import Dom Page Props.

(** A well-formed page whose body is not itself marked as a highlight. *)
Record sound (s : State) : Prop := {
  sd_wf : wellFormed s;
  sd_body : hasClass HIGHLIGHT (body s) = false
}.

Definition soundb (s : State) : bool :=
  wellFormedb s && negb (hasClass HIGHLIGHT (body s)).

(** The nodes [highlightTextNode] puts in place of a text node: text that is
    not empty and holds no em-dash, and highlight spans that hold the one
    text node ["—"] and bear the title. *)
Definition piece (n : node) : bool :=
  match n with
  | Text _ x => truthy x && negb (includes EM_DASH x)
  | Element _ a [Text _ x] =>
      String.eqb (tagName a) "SPAN"
      && match classList a with [c] => String.eqb c HIGHLIGHT | _ => false end
      && match x with [c] => (c =? EM_DASH)%N | _ => false end
      && match title a with Some _ => true | None => false end
  | _ => false
  end.

End Rescan.

Module ScanExamples.

Import Dom Page Props Examples.

(** [<body><p>——x</p></body>]: a text that starts with two em-dashes. *)
Definition text_dashes : jsstring := [8212; 8212; 120]%N.
Definition page_dashes : State :=
  initial (bodyOf [Element 1 (plain "P" []) [Text 2 text_dashes]]) 3 noRandom.

End ScanExamples.

(** ** The notions the properties of the reload notifier are stated with *)

Module Reload.

Import DevServer.

(** The timer set at start-up. *)
Definition graceTimer : timer :=
  {| handle := 1; due := 1000; job := EndGrace |}.

(** What holds of the server at all times: during the grace period the
    timer that ends it is pending and the clock is below 1000 ms, no such
    timer is left afterwards, and a pending notification is the one the
    debounce holds. *)
Record steady (srv : Server) : Prop := {
  st_grace : startupGrace srv = true ->
             In graceTimer (pending srv) /\ now srv < 1000;
  st_end : forall tm, In tm (pending srv) -> job tm = EndGrace ->
                      startupGrace srv = true /\ due tm = 1000;
  st_notify : forall tm, In tm (pending srv) -> job tm = Notify ->
                         notifyTimeout srv = Some (handle tm);
  st_handle : forall h, notifyTimeout srv = Some h -> 2 <= h;
  st_next : 2 <= nextHandle srv
}.

(** After the grace period: every pending timer is the notification the
    debounce holds. *)
Record settled (srv : Server) : Prop := {
  se_grace : startupGrace srv = false;
  se_pending : forall tm, In tm (pending srv) ->
                          job tm = Notify
                          /\ notifyTimeout srv = Some (handle tm)
}.

(** The clients after one notification: the closed ones are gone, the others
    have been sent one more reload. *)
Definition reloaded (l : list client) : list client :=
  map (fun c => {| closed := false; reloads := S (reloads c) |})
      (filter (fun c => negb (closed c)) l).

(** File changes, each followed by a pause. *)
Definition changes (pauses : list nat) : list event :=
  flat_map (fun ms => [FileChanged; Elapse ms]) pauses.

(** A timer that does not end the grace period. *)
Definition notifies (tm : timer) : bool :=
  match job tm with
  | EndGrace => false
  | Notify => true
  end.

End Reload.

Module ServerExamples.

Import DevServer.

(** Two pages connect, the first goes away, and the first second passes. *)
Definition after_grace : list event :=
  [Connect; Connect; Close 0; Elapse 1000].

End ServerExamples.

(** ** The installation guide: [buildInstallReadme] *)

Module Readme.

(** [h.startsWith(n)] *)
Fixpoint startsWith (n h : jsstring) : bool :=
  match n, h with
  | [], _ => true
  | _ :: _, [] => false
  | x :: n', y :: h' => (x =? y)%N && startsWith n' h'
  end.

(** [h.indexOf(n)]: the position of the first occurrence of [n] in [h];
    [None] stands for -1. *)
Fixpoint indexOf (n h : jsstring) : option nat :=
  if startsWith n h then Some 0
  else match h with
       | [] => None
       | _ :: r => option_map S (indexOf n r)
       end.

(** [s.slice(a, b)] for indices that are not negative: both are clamped to
    the length, and nothing is left when the end is not after the start. *)
Definition slice (a b : nat) (s : jsstring) : jsstring :=
  let from := Nat.min a (List.length s) in
  let to := Nat.min b (List.length s) in
  firstn (to - from) (skipn from s).

(** The white space and the line terminators that [trim] removes. *)
Definition isWhiteSpace (c : char16) : bool :=
  existsb (N.eqb c)
    [9; 10; 11; 12; 13; 32; 160; 5760; 8192; 8193; 8194; 8195; 8196; 8197;
     8198; 8199; 8200; 8201; 8202; 8232; 8233; 8239; 8287; 12288; 65279]%N.

Fixpoint trimStart (s : jsstring) : jsstring :=
  match s with
  | [] => []
  | c :: r => if isWhiteSpace c then trimStart r else s
  end.

Definition trimEnd (s : jsstring) : jsstring := rev (trimStart (rev s)).

(** [s.trim()] *)
Definition trim (s : jsstring) : jsstring := trimEnd (trimStart s).

Definition nl : jsstring := [10%N].

Definition HEADER : jsstring :=
  lit "# M-Dash Detector - Installation Guide" ++ nl ++ nl
  ++ lit "Thanks for downloading M-Dash Detector! Follow the steps below to install the extension."
  ++ nl ++ nl.

Definition FOOTER : jsstring :=
  nl ++ lit "---" ++ nl ++ nl
  ++ lit "For more information, visit the [GitHub repository](https://github.com/mofalkmusic/chrome_extension_mdash)."
  ++ nl.

Definition startMarker : jsstring := lit "<!-- INSTALL_START -->".
Definition endMarker : jsstring := lit "<!-- INSTALL_END -->".

(** How the script ends: [process.exit(code)], or the file it wrote. *)
Inductive outcome :=
| Exit (code : nat)
| Wrote (file : string) (content : jsstring).

(** [buildInstallReadme], as a function of the text of README.md; the
    messages on the console are left out. *)
Definition buildInstallReadme (readme : jsstring) : outcome :=
  let startIndex := indexOf startMarker readme in
  let endIndex := indexOf endMarker readme in
  match startIndex, endIndex with
  | Some startIndex, Some endIndex =>
      let installSection :=
        trim (slice (startIndex + List.length startMarker) endIndex readme) in
      let installReadme := HEADER ++ trim installSection ++ FOOTER in
      Wrote "INSTALLATION_HELP.txt" installReadme
  | _, _ => Exit 1
  end.

(** [n] occurs in [h]. *)
Definition occurs (n h : jsstring) : Prop :=
  exists pre post, h = pre ++ n ++ post.

(** A string that neither begins nor ends with white space. *)
Definition headOk (s : jsstring) : Prop :=
  match s with
  | c :: _ => isWhiteSpace c = false
  | [] => True
  end.

Definition trimmed (s : jsstring) : Prop := headOk s /\ headOk (rev s).

End Readme.

Module ReadmeExamples.

Import Readme.

(** A README with a title, the marked section, and a closing line. *)
Definition readme_pre : jsstring := lit "# Title" ++ nl.
Definition readme_section : jsstring :=
  nl ++ lit "1. Unzip the archive" ++ nl ++ lit "2. Load it" ++ nl.
Definition readme_post : jsstring := nl ++ lit "Licence: MIT" ++ nl.

End ReadmeExamples.

(** ** Facts on strings *)

Unset Implicit Arguments.

Module JSFacts.

Lemma split_not_nil c s : split c s <> [].
Proof.
  destruct s as [|x r]; simpl; [discriminate|].
  destruct (x =? c)%N; [discriminate|].
  destruct (split c r); discriminate.
Qed.

Lemma split_length c s : List.length (split c s) = S (occurrences c s).
Proof.
  induction s as [|x r IH]; simpl; [reflexivity|].
  destruct (x =? c)%N; simpl; [now rewrite IH|].
  destruct (split c r) eqn:E; simpl in *; [discriminate|exact IH].
Qed.

Lemma includes_occurrences c s :
  includes c s = negb (occurrences c s =? 0).
Proof.
  induction s as [|x r IH]; simpl; [reflexivity|].
  destruct (x =? c)%N; simpl; [reflexivity|exact IH].
Qed.

Lemma includes_false_occurrences c s :
  includes c s = false -> occurrences c s = 0.
Proof.
  rewrite includes_occurrences.
  destruct (occurrences c s); simpl; [reflexivity|discriminate].
Qed.

Lemma includes_app c s1 s2 :
  includes c (s1 ++ s2) = includes c s1 || includes c s2.
Proof.
  induction s1 as [|x r IH]; simpl; [reflexivity|].
  now rewrite IH, orb_assoc.
Qed.

Lemma occurrences_app c s1 s2 :
  occurrences c (s1 ++ s2) = occurrences c s1 + occurrences c s2.
Proof.
  induction s1 as [|x r IH]; simpl; [reflexivity|]. rewrite IH. lia.
Qed.

(** No piece of a split holds the separator. *)
Lemma split_pieces c s : Forall (fun p => includes c p = false) (split c s).
Proof.
  induction s as [|x r IH]; simpl.
  - repeat constructor.
  - destruct (x =? c)%N eqn:E.
    + constructor; [reflexivity|exact IH].
    + destruct (split c r) as [|p ps]; [repeat constructor; simpl; now rewrite E|].
      inversion IH; subst. constructor; [simpl; now rewrite E|assumption].
Qed.

(** Joining the pieces with the separator gives the string back. *)
Lemma join_split c s : join c (split c s) = s.
Proof.
  induction s as [|x r IH]; simpl; [reflexivity|].
  destruct (x =? c)%N eqn:E.
  - apply N.eqb_eq in E. subst x.
    destruct (split c r) as [|p ps] eqn:S; [now apply split_not_nil in S|].
    simpl. f_equal. exact IH.
  - destruct (split c r) as [|p ps] eqn:S; [now apply split_not_nil in S|].
    destruct ps; simpl in *; now rewrite <- IH.
Qed.

(** A literal of ASCII characters holds no em-dash. *)
Lemma lit_plain s : includes EM_DASH (lit s) = false.
Proof.
  unfold lit. induction (list_ascii_of_string s) as [|a l IH]; simpl;
    [reflexivity|].
  rewrite IH, orb_false_r. apply N.eqb_neq.
  pose proof (N_ascii_bounded a). unfold EM_DASH. lia.
Qed.

Lemma String_of_nat_plain n : includes EM_DASH (String_of_nat n) = false.
Proof. apply lit_plain. Qed.

End JSFacts.

(** ** Numbers *)

Module NumberFacts.

Import Number.

#[local] Open Scope Q_scope.

Lemma pow2_pos k : 0 < pow2 k.
Proof. apply Qpower_0_lt. reflexivity. Qed.

Lemma pow2_add a b : pow2 (a + b) == pow2 a * pow2 b.
Proof. apply Qpower_plus. discriminate. Qed.

Lemma pow2_le a b : (a <= b)%Z -> pow2 a <= pow2 b.
Proof. intros H. apply Qpower_le_compat_l; [exact H|discriminate]. Qed.

Lemma pow2_lt a b : (a < b)%Z -> pow2 a < pow2 b.
Proof. intros H. apply Qpower_lt_compat_l; [exact H|reflexivity]. Qed.

Lemma pow2_Z k : (0 <= k)%Z -> pow2 k == inject_Z (2 ^ k).
Proof. intros H. symmetry. apply (Zpower_Qpower 2 k H). Qed.

Lemma pow2_back a b : pow2 (a - b) * pow2 b == pow2 a.
Proof.
  rewrite <- pow2_add. replace (a - b + b)%Z with a by lia. reflexivity.
Qed.

(** Cancelling a positive factor. *)
Lemma Qmult_lt_cancel (x y z : Q) : 0 < z -> x * z < y * z -> x < y.
Proof. intros Hz H. nra. Qed.

Lemma Qmult_le_cancel (x y z : Q) : 0 < z -> x * z <= y * z -> x <= y.
Proof. intros Hz H. nra. Qed.

Lemma log2_below (q : Q) :
  0 < q ->
  pow2 (Z.log2 (Qnum q) - Z.log2 (Zpos (Qden q)) - 1) <= q.
Proof.
  intros Hq. destruct q as [n d]. cbn [Qnum Qden].
  assert (Hn : (0 < n)%Z) by (unfold Qlt in Hq; simpl in Hq; lia).
  pose proof (Z.log2_spec n Hn) as [Ha _].
  pose proof (Z.log2_spec (Zpos d) eq_refl) as [_ Hb].
  pose proof (Z.log2_nonneg n) as Ha0.
  pose proof (Z.log2_nonneg (Zpos d)) as Hb0.
  set (a := Z.log2 n) in *. set (b := Z.log2 (Zpos d)) in *.
  apply (Qmult_le_cancel _ _ (pow2 (b + 1))); [apply pow2_pos|].
  replace (a - b - 1)%Z with (a - (b + 1))%Z by lia.
  rewrite pow2_back.
  rewrite (pow2_Z a Ha0), (pow2_Z (b + 1)) by lia.
  apply Qle_trans with (inject_Z n); [now rewrite <- Zle_Qle|].
  apply Qle_trans with ((n # d) * inject_Z (Zpos d)).
  - rewrite (Qmake_Qdiv n d). apply Qle_lteq. right.
    field. discriminate.
  - assert (H : inject_Z (Zpos d) <= inject_Z (2 ^ (b + 1)))
      by (rewrite <- Zle_Qle; unfold Z.succ in Hb; lia).
    nra.
Qed.

Lemma log2_above (q : Q) :
  0 < q ->
  q < pow2 (Z.log2 (Qnum q) - Z.log2 (Zpos (Qden q)) + 1).
Proof.
  intros Hq. destruct q as [n d]. cbn [Qnum Qden].
  assert (Hn : (0 < n)%Z) by (unfold Qlt in Hq; simpl in Hq; lia).
  pose proof (Z.log2_spec n Hn) as [_ Ha].
  pose proof (Z.log2_spec (Zpos d) eq_refl) as [Hb _].
  pose proof (Z.log2_nonneg n) as Ha0.
  pose proof (Z.log2_nonneg (Zpos d)) as Hb0.
  set (a := Z.log2 n) in *. set (b := Z.log2 (Zpos d)) in *.
  apply (Qmult_lt_cancel _ _ (pow2 b)); [apply pow2_pos|].
  replace (a - b + 1)%Z with (a + 1 - b)%Z by lia.
  rewrite pow2_back.
  rewrite (pow2_Z b Hb0), (pow2_Z (a + 1)) by lia.
  apply Qle_lt_trans with (inject_Z n);
    [|rewrite <- Zlt_Qlt; unfold Z.succ in Ha; lia].
  apply Qle_trans with ((n # d) * inject_Z (Zpos d)).
  - assert (H : inject_Z (2 ^ b) <= inject_Z (Zpos d))
      by now rewrite <- Zle_Qle.
    nra.
  - rewrite (Qmake_Qdiv n d). apply Qle_lteq. right.
    field. discriminate.
Qed.

(** The binade of a positive rational. *)
Lemma exponent_below (q : Q) : 0 < q -> pow2 (exponent q) <= q.
Proof.
  intros Hq. unfold exponent.
  destruct (Qle_bool _ q) eqn:E.
  - now apply Qle_bool_iff.
  - now apply log2_below.
Qed.

Lemma exponent_above (q : Q) : 0 < q -> q < pow2 (exponent q + 1).
Proof.
  intros Hq. unfold exponent.
  destruct (Qle_bool _ q) eqn:E.
  - now apply log2_above.
  - replace (_ - 1 + 1)%Z
      with (Z.log2 (Qnum q) - Z.log2 (Zpos (Qden q)))%Z by lia.
    apply Qnot_le_lt. intros H. apply Qle_bool_iff in H. congruence.
Qed.

(** The nearest integer. *)
Lemma nearestEven_nonneg x : 0 <= x -> (0 <= nearestEven x)%Z.
Proof.
  intros H. unfold nearestEven.
  assert (H0 : (0 <= Qfloor x)%Z)
    by (change 0%Z with (Qfloor 0); now apply Qfloor_resp_le).
  destruct (_ ?= _); [destruct (Z.even _)|..]; lia.
Qed.

Lemma nearestEven_le x N : x <= inject_Z N -> (nearestEven x <= N)%Z.
Proof.
  intros H. unfold nearestEven.
  pose proof (Qfloor_le x) as Hf.
  assert (Hle : (Qfloor x <= N)%Z)
    by (rewrite Zle_Qle; eapply Qle_trans; eauto).
  destruct (Z.eq_dec (Qfloor x) N) as [E|E].
  - destruct (Qcompare_spec (x - inject_Z (Qfloor x)) (1 # 2));
      rewrite E in *; [lra|lia|lra].
  - destruct (_ ?= _); [destruct (Z.even _)|..]; lia.
Qed.

Lemma nearestEven_gap x N :
  x <= inject_Z N - (5 # 8) -> (nearestEven x <= N - 1)%Z.
Proof.
  intros H. unfold nearestEven.
  pose proof (Qfloor_le x) as Hf.
  assert (Hle : (Qfloor x < N)%Z) by (rewrite Zlt_Qlt; lra).
  destruct (Z.eq_dec (Qfloor x) (N - 1)) as [E|E].
  - assert (Hlt : x - inject_Z (Qfloor x) < 1 # 2).
    { rewrite E. unfold Z.sub. rewrite inject_Z_plus, inject_Z_opp.
      change (inject_Z 1) with 1. lra. }
    destruct (Qcompare_spec (x - inject_Z (Qfloor x)) (1 # 2));
      [lra|lia|lra].
  - destruct (_ ?= _); [destruct (Z.even _)|..]; lia.
Qed.

(** Rounding to a Number. *)
Lemma round_positive q :
  0 < q ->
  round q
  = inject_Z (nearestEven (q / pow2 (Z.max (exponent q - 52) (-1074))))
    * pow2 (Z.max (exponent q - 52) (-1074)).
Proof.
  intros H. unfold round. destruct (Qle_bool q 0) eqn:E; [|reflexivity].
  apply Qle_bool_iff in E. lra.
Qed.

Lemma round_nonpositive q : q <= 0 -> round q = 0.
Proof.
  intros H. unfold round. apply Qle_bool_iff in H. now rewrite H.
Qed.

Lemma round_nonneg q : 0 <= round q.
Proof.
  destruct (Qlt_le_dec 0 q) as [H|H].
  - rewrite (round_positive q H).
    set (p := Z.max _ _). pose proof (pow2_pos p) as Hp.
    assert (Hx : 0 <= q / pow2 p).
    { apply Qle_shift_div_l; [exact Hp|]. lra. }
    apply nearestEven_nonneg in Hx. rewrite Zle_Qle in Hx.
    change (inject_Z 0) with 0 in Hx. nra.
  - rewrite (round_nonpositive q H). lra.
Qed.

Lemma exponent_lt q k : 0 < q -> q < pow2 k -> (exponent q < k)%Z.
Proof.
  intros Hq Hk. pose proof (exponent_below q Hq) as He.
  destruct (Z_lt_le_dec (exponent q) k) as [H|H]; [exact H|].
  apply pow2_le in H. lra.
Qed.

(** A whole number below [2^53] bounds the Numbers that round from rationals
    not above it. *)
Lemma round_le q N :
  (0 <= N < 2 ^ 53)%Z -> q <= inject_Z N -> round q <= inject_Z N.
Proof.
  intros [HN0 HN] Hq. destruct (Qlt_le_dec 0 q) as [H|H].
  - rewrite (round_positive q H).
    assert (HE : (exponent q < 53)%Z).
    { apply exponent_lt; [exact H|]. rewrite (pow2_Z 53) by lia.
      rewrite Zlt_Qlt in HN. lra. }
    set (p := Z.max _ _).
    assert (Hp0 : (p <= 0)%Z) by (unfold p; lia).
    pose proof (pow2_pos p) as Hp.
    pose proof (pow2_back 0 p) as Hinv. rewrite Z.sub_0_l in Hinv.
    change (pow2 0) with 1 in Hinv.
    rewrite (pow2_Z (- p)) in Hinv by lia.
    assert (Hx : q / pow2 p <= inject_Z (N * 2 ^ (- p))).
    { apply Qle_shift_div_r; [exact Hp|]. rewrite inject_Z_mult.
      rewrite <- Qmult_assoc, Hinv. lra. }
    apply nearestEven_le in Hx. rewrite Zle_Qle, inject_Z_mult in Hx.
    apply Qle_trans
      with (inject_Z N * inject_Z (2 ^ (- p)) * pow2 p).
    + apply Qmult_le_compat_r; [exact Hx|lra].
    + rewrite <- Qmult_assoc, Hinv. lra.
  - rewrite (round_nonpositive q H). rewrite Zle_Qle in HN0. exact HN0.
Qed.

(** The Numbers below 1 end at [1 - 2^-53]. *)
Lemma number_below_one r :
  0 <= r -> r < 1 -> round r == r -> r <= 1 - pow2 (-53).
Proof.
  intros H0 H1 Hr. destruct (Qlt_le_dec 0 r) as [H|H].
  - rewrite (round_positive r H) in Hr.
    assert (HE : (exponent r < 0)%Z) by now apply exponent_lt.
    pose proof (exponent_above r H) as Ha.
    set (E := exponent r) in *. set (p := Z.max _ _) in *.
    set (m := nearestEven _) in *.
    destruct (Z.max_spec (E - 52) (-1074)) as [[Hc Hm]|[Hc Hm]];
      fold p in Hm.
    + assert (Hs : pow2 (E + 1) <= pow2 (-1)) by (apply pow2_le; lia).
      assert (Hn : pow2 (-1) <= 1 - pow2 (-53)) by (vm_compute; discriminate).
      lra.
    + pose proof (pow2_pos p) as Hp.
      pose proof (pow2_back (E + 1) p) as Hb.
      replace (E + 1 - p)%Z with 53%Z in Hb by lia.
      rewrite (pow2_Z 53) in Hb by lia.
      assert (Hm53 : (m < 2 ^ 53)%Z).
      { rewrite Zlt_Qlt. apply (Qmult_lt_cancel _ _ (pow2 p) Hp).
        rewrite Hb, Hr. exact Ha. }
      assert (Hm' : inject_Z m <= inject_Z (2 ^ 53) - 1).
      { change 1 with (inject_Z 1). unfold Qminus.
        rewrite <- inject_Z_opp, <- inject_Z_plus, <- Zle_Qle. lia. }
      assert (Hs : pow2 (E + 1) <= 1)
        by (change 1 with (pow2 0); apply pow2_le; lia).
      pose proof (pow2_back (E + 1) 53) as Hb'.
      replace (E + 1 - 53)%Z with p in Hb' by lia.
      rewrite (pow2_Z 53) in Hb' by lia.
      assert (Hq : pow2 (-53) * inject_Z (2 ^ 53) == 1)
        by (vm_compute; reflexivity).
      assert (Hp' : pow2 p == pow2 (E + 1) * pow2 (-53)).
      { rewrite <- pow2_add. replace (E + 1 + -53)%Z with p by lia.
        reflexivity. }
      assert (H53 : 0 < pow2 (-53)) by apply pow2_pos.
      assert (Hle : pow2 (-53) <= 1) by (vm_compute; discriminate).
      rewrite <- Hr. rewrite Hp' in *.
      set (A := pow2 (E + 1)) in *. set (B := pow2 (-53)) in *.
      set (K := inject_Z (2 ^ 53)) in *. set (M := inject_Z m) in *.
      assert (HA : 0 < A) by apply pow2_pos.
      assert (Hstep : M * (A * B) <= (K - 1) * (A * B)).
      { apply Qmult_le_compat_r; [exact Hm'|]. nra. }
      assert (Heq : (K - 1) * (A * B) == A * (1 - B)).
      { setoid_replace ((K - 1) * (A * B)) with (A * (B * K) - A * B) by ring.
        rewrite Hq. ring. }
      rewrite Heq in Hstep.
      assert (Hfin : A * (1 - B) <= 1 * (1 - B)).
      { apply Qmult_le_compat_r; [exact Hs|lra]. }
      lra.
  - assert (Hn : 0 <= 1 - pow2 (-53)) by (vm_compute; discriminate). lra.
Qed.

(** Forty times a Number below 1 rounds to a Number below 40. *)
Lemma round_below_40 q :
  q <= 40 * (1 - pow2 (-53)) -> round q < 40.
Proof.
  intros Hq. destruct (Qlt_le_dec 0 q) as [H|H].
  - rewrite (round_positive q H).
    assert (HE : (exponent q < 6)%Z).
    { apply exponent_lt; [exact H|].
      assert (Hn : 40 * (1 - pow2 (-53)) < pow2 6) by (vm_compute; reflexivity).
      lra. }
    set (p := Z.max _ _).
    assert (Hp0 : (p <= -47)%Z) by (unfold p; lia).
    pose proof (pow2_pos p) as Hp.
    pose proof (pow2_back 0 p) as Hinv. rewrite Z.sub_0_l in Hinv.
    change (pow2 0) with 1 in Hinv.
    assert (Hz : pow2 (- p) == inject_Z (2 ^ (- p))) by (apply pow2_Z; lia).
    assert (Hg : pow2 (-6) <= pow2 (-53 - p)) by (apply pow2_le; lia).
    assert (H6 : pow2 (-6) == 1 # 64) by (vm_compute; reflexivity).
    assert (Hs : pow2 (-53 - p) == pow2 (-53) * pow2 (- p)).
    { rewrite <- pow2_add. replace (-53 + - p)%Z with (-53 - p)%Z by lia.
      reflexivity. }
    assert (Hx : q / pow2 p <= inject_Z (40 * 2 ^ (- p)) - (5 # 8)).
    { apply Qle_shift_div_r; [exact Hp|]. rewrite inject_Z_mult, <- Hz.
      change (inject_Z 40) with 40.
      set (P := pow2 p) in *. set (I := pow2 (- p)) in *.
      set (B := pow2 (-53)) in *. set (G := pow2 (-53 - p)) in *.
      assert (Hi : 0 < I) by apply pow2_pos.
      assert (Hexp : (40 * I - (5 # 8)) * P == 40 - (5 # 8) * P).
      { setoid_replace ((40 * I - (5 # 8)) * P)
          with (40 * (I * P) - (5 # 8) * P) by ring.
        rewrite Hinv. ring. }
      rewrite Hexp.
      assert (HB : B == G * P).
      { rewrite Hs. setoid_replace (B * I * P) with (B * (I * P)) by ring.
        rewrite Hinv. ring. }
      rewrite HB in Hq. rewrite H6 in Hg. nra. }
    apply nearestEven_gap in Hx. rewrite Zle_Qle in Hx.
    unfold Z.sub in Hx.
    rewrite inject_Z_plus, inject_Z_opp, inject_Z_mult, <- Hz in Hx.
    change (inject_Z 40) with 40 in Hx. change (inject_Z 1) with 1 in Hx.
    set (P := pow2 p) in *. set (I := pow2 (- p)) in *.
    apply Qle_lt_trans with ((40 * I + - 1) * P).
    + apply Qmult_le_compat_r; [exact Hx|lra].
    + setoid_replace ((40 * I + - 1) * P) with (40 * (I * P) - P) by ring.
      rewrite Hinv. lra.
  - rewrite (round_nonpositive q H). reflexivity.
Qed.

(** The two style values. *)
Lemma delay_range r :
  0 <= r -> r < 1 -> (-300 <= - toFixed2 (mul r 3) <= 0)%Z.
Proof.
  intros H0 H1. unfold mul, toFixed2.
  pose proof (round_nonneg (r * 3)) as Hl.
  assert (Hu : round (r * 3) <= inject_Z 3)
    by (apply round_le; [lia|change (inject_Z 3) with 3; lra]).
  change (inject_Z 3) with 3 in Hu.
  assert (L : (Qfloor 0 <= Qfloor (round (r * 3) * 100 + (1 # 2)))%Z)
    by (apply Qfloor_resp_le; lra).
  assert (U : (Qfloor (round (r * 3) * 100 + (1 # 2))
               <= Qfloor (inject_Z 300 + (1 # 2)))%Z)
    by (apply Qfloor_resp_le; change (inject_Z 300) with 300; lra).
  change (Qfloor 0) with 0%Z in L.
  change (Qfloor (inject_Z 300 + (1 # 2))) with 300%Z in U. lia.
Qed.

Lemma offset_range r :
  isNumber r = true -> 0 <= r -> r < 1 -> (0 <= floor (mul r 40) <= 39)%Z.
Proof.
  intros Hn H0 H1. unfold mul, floor.
  apply Qeq_bool_iff in Hn.
  pose proof (number_below_one r H0 H1 Hn) as Hr.
  pose proof (round_nonneg (r * 40)) as Hl.
  assert (Hu : round (r * 40) < 40) by (apply round_below_40; lra).
  assert (L : (Qfloor 0 <= Qfloor (round (r * 40)))%Z)
    by now apply Qfloor_resp_le.
  change (Qfloor 0) with 0%Z in L. split; [exact L|].
  assert (U : inject_Z (Qfloor (round (r * 40))) < inject_Z 40).
  { eapply Qle_lt_trans; [apply Qfloor_le|]. exact Hu. }
  rewrite <- Zlt_Qlt in U. lia.
Qed.

(** Where the rounding of the product shows: in exact arithmetic 40 times
    the Number [0.3] is below 12, and 3 times the Number [0.005] is above
    0.015.  The largest Number below 1 gives the ends of both ranges. *)
Lemma rounded_products :
  floor (mul WatchExamples.number_0_3 40) = 12%Z
  /\ Qfloor (WatchExamples.number_0_3 * 40) = 11%Z
  /\ toFixed2 (mul WatchExamples.number_0_005 3) = 1%Z
  /\ toFixed2 (WatchExamples.number_0_005 * 3) = 2%Z
  /\ toFixed2 (mul WatchExamples.belowOne 3) = 300%Z
  /\ floor (mul WatchExamples.belowOne 40) = 39%Z
  /\ isNumber WatchExamples.number_0_3 = true
  /\ isNumber WatchExamples.number_0_005 = true
  /\ isNumber WatchExamples.belowOne = true
  /\ isNumber (3 # 10) = false.
Proof. vm_compute. repeat split. Qed.

End NumberFacts.

(** ** Facts on trees *)

Module DomFacts.

Import Dom Props.

(** Induction on trees, with the property for the children of an element. *)
Lemma node_ind' (P : node -> Prop)
  (HT : forall i d, P (Text i d))
  (HE : forall i a cs, Forall P cs -> P (Element i a cs))
  (HC : forall i d, P (Comment i d)) :
  forall n, P n.
Proof.
  fix IH 1. intros [i d|i a cs|i d].
  - apply HT.
  - apply HE. induction cs as [|c r IHr]; constructor; [apply IH|exact IHr].
  - apply HC.
Qed.

Lemma map_flat_map (A B C : Type) (f : B -> C) (g : A -> list B) l :
  map f (flat_map g l) = flat_map (fun x => map f (g x)) l.
Proof.
  induction l as [|x r IH]; simpl; [reflexivity|].
  now rewrite map_app, IH.
Qed.

Lemma ids_Element i a cs : ids (Element i a cs) = i :: flat_map ids cs.
Proof. unfold ids. simpl. f_equal. apply map_flat_map. Qed.

Lemma ids_forest f : flat_map ids f = map nodeId (flat_map subnodes f).
Proof. unfold ids. symmetry. apply map_flat_map. Qed.

Lemma ids_cons n : ids n = nodeId n :: childIds n.
Proof.
  destruct n as [i d|i a cs|i d]; try reflexivity.
  apply ids_Element.
Qed.

Lemma subnodes_self n : In n (subnodes n).
Proof. destruct n; simpl; auto. Qed.

Lemma subnodes_child i a cs c x :
  In c cs -> In x (subnodes c) -> In x (subnodes (Element i a cs)).
Proof.
  intros Hc Hx. simpl. right. apply in_flat_map. eauto.
Qed.

Lemma subnodes_inv n x :
  In x (subnodes n) ->
  x = n \/ exists c, In c (childNodesOf n) /\ In x (subnodes c).
Proof.
  destruct n as [i d|i a cs|i d]; simpl; intros [H|H]; auto;
    try contradiction.
  right. apply in_flat_map in H. exact H.
Qed.

Lemma subnodes_trans n : forall x y,
  In y (subnodes n) -> In x (subnodes y) -> In x (subnodes n).
Proof.
  induction n as [i d|i a cs IH|i d] using node_ind'; intros x y Hy Hx.
  - destruct Hy as [<-|[]]. exact Hx.
  - destruct Hy as [<-|Hy]; [exact Hx|].
    apply in_flat_map in Hy. destruct Hy as (c & Hc & Hy).
    rewrite Forall_forall in IH.
    eapply subnodes_child; [exact Hc|]. eapply IH; eauto.
  - destruct Hy as [<-|[]]. exact Hx.
Qed.

Lemma in_ids n x : In x (subnodes n) -> In (nodeId x) (ids n).
Proof. intros H. unfold ids. now apply in_map. Qed.

Lemma in_childIds n c x :
  In c (childNodesOf n) -> In x (subnodes c) -> In (nodeId x) (childIds n).
Proof.
  intros Hc Hx. unfold childIds. apply in_flat_map. exists c. split; auto.
  now apply in_ids.
Qed.

(** Among nodes with distinct identities, the identity tells the node. *)
Lemma NoDup_map_eq (A B : Type) (f : A -> B) (l : list A) x y :
  NoDup (map f l) -> In x l -> In y l -> f x = f y -> x = y.
Proof.
  induction l as [|z r IH]; simpl; [contradiction|].
  intros Hnd Hx Hy E. inversion Hnd as [|? ? Hz Hr]; subst.
  destruct Hx as [<-|Hx], Hy as [<-|Hy]; auto.
  - exfalso. apply Hz. rewrite E. now apply in_map.
  - exfalso. apply Hz. rewrite <- E. now apply in_map.
Qed.

Lemma NoDup_app_disjoint (A : Type) (l1 l2 : list A) a :
  NoDup (l1 ++ l2) -> In a l1 -> ~ In a l2.
Proof.
  induction l1 as [|x r IH]; simpl; [contradiction|].
  intros Hnd [<-|Ha] H2; inversion Hnd; subst.
  - match goal with H : ~ In _ _ |- _ => apply H end.
    apply in_or_app. now right.
  - now apply IH.
Qed.

Lemma NoDup_flat_map_same (A B : Type) (f : A -> list B) (l : list A) x y z :
  NoDup (flat_map f l) -> In x l -> In y l -> In z (f x) -> In z (f y) ->
  x = y.
Proof.
  induction l as [|w r IH]; simpl; [contradiction|].
  intros Hnd Hx Hy Zx Zy.
  apply NoDup_app_remove_l in Hnd as Hr.
  destruct Hx as [<-|Hx], Hy as [<-|Hy]; auto.
  - exfalso. apply (NoDup_app_disjoint _ _ _ z Hnd Zx).
    apply in_flat_map. eauto.
  - exfalso. apply (NoDup_app_disjoint _ _ _ z Hnd Zy).
    apply in_flat_map. eauto.
Qed.

Lemma NoDup_flat_map_part (A B : Type) (f : A -> list B) (l : list A) x :
  NoDup (flat_map f l) -> In x l -> NoDup (f x).
Proof.
  induction l as [|w r IH]; simpl; [contradiction|].
  intros Hnd [<-|Hx].
  - now apply NoDup_app_remove_r in Hnd.
  - apply IH; auto. now apply NoDup_app_remove_l in Hnd.
Qed.

Lemma firstSome_Some (A B : Type) (f : A -> option B) l y :
  firstSome f l = Some y -> exists x, In x l /\ f x = Some y.
Proof.
  induction l as [|x r IH]; simpl; [discriminate|].
  destruct (f x) eqn:E.
  - intros [= <-]. eauto.
  - intros H. destruct (IH H) as (x' & ? & ?). eauto.
Qed.

Lemma firstSome_None (A B : Type) (f : A -> option B) l :
  firstSome f l = None <-> forall x, In x l -> f x = None.
Proof.
  induction l as [|x r IH]; simpl.
  - split; [intros _ ? []|reflexivity].
  - destruct (f x) eqn:E.
    + split; [discriminate|]. intros H. rewrite <- E. apply H. now left.
    + rewrite IH. split.
      * intros H y [<-|Hy]; auto.
      * intros H y Hy. apply H. now right.
Qed.

Lemma firstSome_ex (A B : Type) (f : A -> option B) l x y :
  In x l -> f x = Some y -> exists z, firstSome f l = Some z.
Proof.
  intros Hx E. destruct (firstSome f l) eqn:F; [eauto|].
  rewrite firstSome_None in F. rewrite (F x Hx) in E. discriminate.
Qed.

Lemma findNode_Some i n x :
  findNode i n = Some x -> In x (subnodes n) /\ nodeId x = i.
Proof.
  revert x. induction n as [j d|j a cs IH|j d] using node_ind'; intros x;
    simpl; destruct (Nat.eqb_spec j i) as [->|Hne];
    try (intros [= <-]; simpl; auto); try discriminate.
  intros H. apply firstSome_Some in H. destruct H as (c & Hc & H).
  rewrite Forall_forall in IH. destruct (IH c Hc x H) as [Hx Hi].
  split; [|exact Hi]. right. apply in_flat_map. eauto.
Qed.

Lemma findNode_None i n : findNode i n = None <-> ~ In i (ids n).
Proof.
  induction n as [j d|j a cs IH|j d] using node_ind'.
  - simpl. destruct (Nat.eqb_spec j i) as [->|Hne].
    + split; [discriminate|]. intros H. exfalso. apply H. now left.
    + split; [|reflexivity]. intros _ [H|[]]. contradiction.
  - rewrite ids_Element. cbn [findNode nodeId].
    destruct (Nat.eqb_spec j i) as [->|Hne].
    + split; [discriminate|]. intros H. exfalso. apply H. now left.
    + rewrite firstSome_None. rewrite Forall_forall in IH. split.
      * intros H [E|Hin]; [contradiction|].
        apply in_flat_map in Hin. destruct Hin as (c & Hc & Hin).
        apply (IH c Hc) in Hin; auto.
      * intros H c Hc. apply IH; auto. intros Hin. apply H. right.
        apply in_flat_map. eauto.
  - simpl. destruct (Nat.eqb_spec j i) as [->|Hne].
    + split; [discriminate|]. intros H. exfalso. apply H. now left.
    + split; [|reflexivity]. intros _ [H|[]]. contradiction.
Qed.

Lemma findInForest_Some i f x :
  findInForest i f = Some x -> In x (flat_map subnodes f) /\ nodeId x = i.
Proof.
  intros H. apply firstSome_Some in H. destruct H as (t & Ht & H).
  apply findNode_Some in H. destruct H. split; auto.
  apply in_flat_map. eauto.
Qed.

Lemma findInForest_None i f :
  findInForest i f = None <-> ~ In i (flat_map ids f).
Proof.
  unfold findInForest. rewrite firstSome_None. split.
  - intros H Hin. apply in_flat_map in Hin. destruct Hin as (t & Ht & Hin).
    apply (findNode_None i t); auto.
  - intros H t Ht. apply findNode_None. intros Hin. apply H.
    apply in_flat_map. eauto.
Qed.

(** With distinct identities, a reference finds the node that bears it. *)
Lemma findInForest_unique f x :
  NoDup (flat_map ids f) -> In x (flat_map subnodes f) ->
  findInForest (nodeId x) f = Some x.
Proof.
  intros Hnd Hx. destruct (findInForest (nodeId x) f) as [y|] eqn:E.
  - apply findInForest_Some in E. destruct E as [Hy Hi].
    rewrite ids_forest in Hnd. f_equal.
    eapply NoDup_map_eq; eauto.
  - apply findInForest_None in E. exfalso. apply E.
    rewrite ids_forest. now apply in_map.
Qed.

Lemma parentIn_Some i n :
  In i (childIds n) <-> exists p, parentIn i n = Some p.
Proof.
  induction n as [j d|j a cs IH|j d] using node_ind'; simpl;
    try (split; [contradiction|intros [? ?]; discriminate]).
  unfold childIds. simpl. rewrite Forall_forall in IH.
  destruct (existsb (fun c => nodeId c =? i) cs) eqn:E.
  - split; [eauto|]. intros _. apply existsb_exists in E.
    destruct E as (c & Hc & E). apply Nat.eqb_eq in E. subst i.
    apply in_flat_map. exists c. split; auto. apply in_ids, subnodes_self.
  - split.
    + intros Hin. apply in_flat_map in Hin. destruct Hin as (c & Hc & Hin).
      rewrite ids_cons in Hin. destruct Hin as [Hi|Hin].
      * exfalso. assert (existsb (fun c => nodeId c =? i) cs = true).
        { apply existsb_exists. exists c. split; auto. now apply Nat.eqb_eq. }
        congruence.
      * apply (IH c Hc) in Hin. destruct Hin as [p Hp].
        destruct (firstSome_ex _ _ (parentIn i) cs c p Hc Hp) as [z Hz]. eauto.
    + intros [p Hp]. apply firstSome_Some in Hp.
      destruct Hp as (c & Hc & Hp). apply in_flat_map. exists c.
      split; auto. rewrite ids_cons. right. apply (IH c Hc). eauto.
Qed.

Lemma parentNode_Some i f :
  In i (flat_map childIds f) <-> exists p, parentNode i f = Some p.
Proof.
  unfold parentNode. split.
  - intros Hin. apply in_flat_map in Hin. destruct Hin as (t & Ht & Hin).
    apply parentIn_Some in Hin. destruct Hin as [p Hp].
    eapply firstSome_ex; eauto.
  - intros [p Hp]. apply firstSome_Some in Hp. destruct Hp as (t & Ht & Hp).
    apply in_flat_map. exists t. split; auto. apply parentIn_Some. eauto.
Qed.

(** *** Replacing a text node by a fragment *)

Lemma nodeId_replaceChild t frag n : nodeId (replaceChild t frag n) = nodeId n.
Proof. destruct n; reflexivity. Qed.

Lemma leafAt_child t d i a cs c :
  leafAt t d (Element i a cs) -> In c cs -> leafAt t d c.
Proof.
  intros H Hc x Hx. apply H. eapply subnodes_child; eauto.
Qed.

Lemma leafAt_children t d i a cs :
  leafAt t d (Element i a cs) -> Forall (leafAt t d) cs.
Proof.
  intros H. apply Forall_forall. intros c Hc. eapply leafAt_child; eauto.
Qed.

Lemma leafAt_root t d n : leafAt t d n -> nodeId n = t -> n = Text t d.
Proof. intros H. apply H, subnodes_self. Qed.

(** A tree that does not hold the node below its root is left as it is. *)
Lemma replaceChild_absent t frag n :
  ~ In t (childIds n) -> replaceChild t frag n = n.
Proof.
  induction n as [i d|i a cs IH|i d] using node_ind'; try reflexivity.
  unfold childIds. simpl. intros H. f_equal.
  induction cs as [|c r IHr]; [reflexivity|].
  inversion IH as [|? ? Hc Hr]; subst. simpl in *.
  rewrite in_app_iff in H. rewrite ids_cons in H. simpl in H.
  destruct (Nat.eqb_spec (nodeId c) t) as [E|E]; [tauto|].
  simpl. rewrite Hc by tauto. f_equal. apply IHr; auto.
Qed.

Section Replace.

Variables (t : nid) (d : jsstring) (frag : list node).

Let r := replaceChild t frag.
Let rs := replaceChildren t frag.

Lemma replaceChild_Element i a cs :
  replaceChild t frag (Element i a cs) = Element i a (rs cs).
Proof. reflexivity. Qed.

Lemma replaceChildren_cons c cs :
  rs (c :: cs) = (if nodeId c =? t then frag else [r c]) ++ rs cs.
Proof. reflexivity. Qed.

(** A measure of trees that adds up over children is kept when the fragment
    measures what the text node did. *)
Lemma replace_measure (B : Type) (m : node -> list B) :
  flat_map m frag = m (Text t d) ->
  forall cs, Forall (leafAt t d) cs ->
  Forall (fun c => leafAt t d c -> m (r c) = m c) cs ->
  flat_map m (rs cs) = flat_map m cs.
Proof.
  intros Hf cs Hl IH. induction cs as [|c l IHl]; [reflexivity|].
  inversion Hl; inversion IH; subst.
  rewrite replaceChildren_cons, flat_map_app. simpl. rewrite IHl by auto.
  f_equal. destruct (Nat.eqb_spec (nodeId c) t) as [E|E].
  - rewrite Hf. f_equal. symmetry. now apply leafAt_root.
  - simpl. rewrite app_nil_r. auto.
Qed.

Lemma replace_descendantText n :
  flat_map descendantText frag = d -> leafAt t d n ->
  descendantText (r n) = descendantText n.
Proof.
  intros Hf. induction n as [i x|i a cs IH|i x] using node_ind'; intros Hl;
    try reflexivity.
  simpl. apply replace_measure; auto. now apply leafAt_children in Hl.
Qed.

Lemma replace_pageText n :
  flat_map pageText frag = d -> leafAt t d n -> pageText (r n) = pageText n.
Proof.
  intros Hf. induction n as [i x|i a cs IH|i x] using node_ind'; intros Hl;
    try reflexivity.
  simpl. destruct (contains BANNER (classList a)); [reflexivity|].
  apply replace_measure; auto. now apply leafAt_children in Hl.
Qed.

Lemma filter_flat_map (A B : Type) (p : B -> bool) (f : A -> list B) l :
  filter p (flat_map f l) = flat_map (fun x => filter p (f x)) l.
Proof.
  induction l as [|x l IH]; simpl; [reflexivity|].
  now rewrite filter_app, IH.
Qed.

Lemma filter_none (A : Type) (p : A -> bool) l :
  (forall x, In x l -> p x = false) -> filter p l = [].
Proof.
  induction l as [|x l IH]; simpl; intros H; [reflexivity|].
  rewrite (H x) by auto. apply IH. auto.
Qed.

Lemma flat_map_nil (A B : Type) (f : A -> list B) l :
  (forall x, In x l -> f x = []) -> flat_map f l = [].
Proof.
  induction l as [|x l IH]; simpl; intros H; [reflexivity|].
  rewrite (H x), IH by auto. reflexivity.
Qed.

Lemma walkerNodes_Element i a cs :
  walkerNodes (Element i a cs) = flat_map (walkChild a) cs.
Proof. reflexivity. Qed.

Lemma inert_walkChild a c : inert c = true -> walkChild a c = [].
Proof.
  destruct c as [i x|i b cs|i x]; simpl; try discriminate.
  - intros H. unfold acceptNode. rewrite H.
    now destruct (ours a).
  - destruct cs as [|[j y| |] [|]]; try discriminate.
    intros H. apply andb_prop in H. destruct H as [H _]. simpl.
    unfold acceptNode, ours. now rewrite H.
Qed.

Lemma replace_walkerNodes n :
  forallb inert frag = true -> leafAt t d n ->
  walkerNodes (r n) = filter (fun p => negb (fst p =? t)) (walkerNodes n).
Proof.
  intros Hf. rewrite forallb_forall in Hf.
  induction n as [i x|i a cs IH|i x] using node_ind'; intros Hl;
    try reflexivity.
  rewrite replaceChild_Element, !walkerNodes_Element, filter_flat_map.
  apply leafAt_children in Hl.
  induction cs as [|c l IHl]; [reflexivity|].
  apply Forall_cons_iff in Hl, IH. destruct Hl as [Hc Hl], IH as [IHc IH].
  rewrite replaceChildren_cons, flat_map_app. simpl. rewrite IHl by auto.
  f_equal. destruct (Nat.eqb_spec (nodeId c) t) as [E|E].
  - rewrite (leafAt_root t d c Hc E). simpl.
    rewrite flat_map_nil by (intros; apply inert_walkChild; auto).
    destruct (acceptNode a d); simpl; [|reflexivity].
    now rewrite Nat.eqb_refl.
  - simpl. rewrite app_nil_r. destruct c as [j y|j b ds|j y]; simpl in *.
    + destruct (acceptNode a y); simpl; [|reflexivity].
      destruct (Nat.eqb_spec j t); [contradiction|reflexivity].
    + auto.
    + reflexivity.
Qed.

(** The highlight elements of a tree are among its nodes. *)
Lemma allHighlights_subnodes n x :
  In x (allHighlights n) -> In x (subnodes n) /\ hasClass HIGHLIGHT x = true.
Proof.
  revert x. induction n as [i y|i a cs IH|i y] using node_ind'; intros x;
    try contradiction.
  unfold allHighlights. simpl. rewrite in_app_iff. intros [H|H].
  - destruct (contains HIGHLIGHT (classList a)) eqn:E; [|contradiction].
    destruct H as [<-|[]]. simpl. auto.
  - apply in_flat_map in H. destruct H as (c & Hc & H).
    rewrite Forall_forall in IH. destruct (IH c Hc x H). split; auto.
    right. apply in_flat_map. eauto.
Qed.

Lemma inert_highlights c :
  inert c = true -> List.length (allHighlights c) <= 1.
Proof.
  destruct c as [i x|i b cs|i x]; simpl; try discriminate; auto.
  destruct cs as [|[j y| |] [|]]; try discriminate.
  intros _. unfold allHighlights. simpl. destruct (contains _ _); simpl; auto.
Qed.

(** The number of highlight elements grows by those of the fragment, once
    for every place the text node had. *)
Lemma replace_highlights_length n :
  leafAt t d n ->
  List.length (allHighlights (r n))
  = List.length (allHighlights n)
    + count_occ Nat.eq_dec (childIds n) t
      * List.length (flat_map allHighlights frag).
Proof.
  remember (List.length (flat_map allHighlights frag)) as k eqn:Ek.
  induction n as [i x|i a cs IH|i x] using node_ind'; intros Hl;
    try (simpl; lia).
  rewrite replaceChild_Element. unfold allHighlights, childIds in *. simpl.
  rewrite !length_app. apply leafAt_children in Hl.
  assert (List.length (flat_map (selfOrDescendants HIGHLIGHT) (rs cs))
          = List.length (flat_map (selfOrDescendants HIGHLIGHT) cs)
            + count_occ Nat.eq_dec (flat_map ids cs) t * k) as ->.
  2:{ destruct (contains HIGHLIGHT (classList a)); simpl; lia. }
  induction cs as [|c l IHl]; [reflexivity|].
  apply Forall_cons_iff in Hl, IH. destruct Hl as [Hc Hl], IH as [IHc IH].
  rewrite replaceChildren_cons, flat_map_app. simpl.
  rewrite !length_app, count_occ_app, IHl by auto.
  rewrite ids_cons. simpl.
  destruct (Nat.eqb_spec (nodeId c) t) as [E|E].
  - rewrite (leafAt_root t d c Hc E). simpl.
    destruct (Nat.eq_dec t t); [|contradiction].
    replace (List.length (flat_map (selfOrDescendants HIGHLIGHT) frag))
      with k by (rewrite Ek; reflexivity).
    lia.
  - destruct (Nat.eq_dec (nodeId c) t); [contradiction|]. simpl.
    rewrite app_nil_r. specialize (IHc Hc). rewrite IHc.
    unfold childIds. lia.
Qed.

(** The highlight elements the tree had are the ones with an old identity
    among those it has now, as long as the text node was no child of one. *)
Lemma replace_highlights_old N n :
  leafAt t d n ->
  (forall i, In i (ids n) -> i < N) ->
  (forall i, In i (flat_map ids frag) -> N <= i) ->
  (forall h, In h (subnodes n) -> hasClass HIGHLIGHT h = true ->
             ~ In t (childIds h)) ->
  filter (fun h => nodeId h <? N) (allHighlights (r n)) = allHighlights n.
Proof.
  intros Hl Hold Hnew.
  induction n as [i x|i a cs IH|i x] using node_ind'; intros Hh;
    try reflexivity.
  destruct (contains HIGHLIGHT (classList a)) eqn:Ea.
  - unfold r. rewrite replaceChild_absent
      by (apply Hh; [apply subnodes_self|exact Ea]).
    apply forallb_filter_id. apply forallb_forall. intros h Hin.
    apply allHighlights_subnodes in Hin. destruct Hin as [Hin _].
    apply Nat.ltb_lt, Hold. now apply in_ids.
  - rewrite replaceChild_Element. unfold allHighlights. simpl. rewrite Ea.
    simpl. rewrite filter_flat_map.
    assert (Hlt : forall c, In c cs -> forall j, In j (ids c) -> j < N).
    { intros c Hc j Hj. apply Hold. rewrite ids_Element. right.
      apply in_flat_map. eauto. }
    assert (Hh' : forall c, In c cs -> forall h, In h (subnodes c) ->
              hasClass HIGHLIGHT h = true -> ~ In t (childIds h)).
    { intros c Hc h Hin. apply Hh. eapply subnodes_child; eauto. }
    apply leafAt_children in Hl. clear Hold Hh.
    induction cs as [|c l IHl]; [reflexivity|].
    apply Forall_cons_iff in Hl, IH. destruct Hl as [Hlc Hl], IH as [IHc IH].
    rewrite replaceChildren_cons, flat_map_app. simpl.
    rewrite IHl
      by (assumption
          || (intros c0 H0; first [apply Hlt | apply Hh']; now right)).
    f_equal. destruct (Nat.eqb_spec (nodeId c) t) as [E|E].
    + rewrite (leafAt_root t d c Hlc E). simpl.
      apply flat_map_nil. intros f Hf.
      apply filter_none. intros h Hin.
      apply allHighlights_subnodes in Hin. destruct Hin as [Hin _].
      apply Nat.ltb_ge, Hnew. apply in_flat_map. exists f. split; auto.
      now apply in_ids.
    + simpl. rewrite app_nil_r. apply IHc; auto.
      * intros; eapply Hlt; eauto. now left.
      * intros; eapply Hh'; eauto. now left.
Qed.

Lemma replaceChildren_absent cs :
  ~ In t (flat_map ids cs) -> rs cs = cs.
Proof.
  induction cs as [|c l IH]; [reflexivity|]. intros H.
  simpl in H. rewrite in_app_iff, ids_cons in H. simpl in H.
  rewrite replaceChildren_cons.
  destruct (Nat.eqb_spec (nodeId c) t) as [E|E]; [tauto|].
  unfold r. rewrite replaceChild_absent by tauto. simpl. f_equal.
  apply IH. tauto.
Qed.

(** The identities after the replacement: those of the fragment take the
    place of the text node's. *)
Lemma replace_ids_children cs :
  Forall (fun c => NoDup (ids c) -> In t (childIds c) -> leafAt t d c ->
                   Permutation (t :: ids (r c)) (ids c ++ flat_map ids frag)) cs ->
  NoDup (flat_map ids cs) -> In t (flat_map ids cs) ->
  Forall (leafAt t d) cs ->
  Permutation (t :: flat_map ids (rs cs)) (flat_map ids cs ++ flat_map ids frag).
Proof.
  induction cs as [|c l IHl]; intros IH Hnd Hin Hl; [contradiction|].
  apply Forall_cons_iff in Hl, IH. destruct Hl as [Hc Hl], IH as [IHc IH].
  simpl in Hnd, Hin. rewrite in_app_iff in Hin.
  rewrite replaceChildren_cons, flat_map_app. simpl.
  destruct (in_dec Nat.eq_dec t (ids c)) as [Hic|Hic].
  - rewrite (replaceChildren_absent l)
      by (intros H; apply (NoDup_app_disjoint _ _ _ t Hnd Hic H)).
    destruct (Nat.eqb_spec (nodeId c) t) as [E|E].
    + rewrite (leafAt_root t d c Hc E). simpl.
      apply perm_skip. apply Permutation_app_comm.
    + simpl. rewrite app_nil_r. rewrite ids_cons in Hic.
      destruct Hic as [Hic|Hic]; [contradiction|].
      specialize (IHc (NoDup_app_remove_r _ _ Hnd) Hic Hc).
      change (Permutation ((t :: ids (r c)) ++ flat_map ids l)
                ((ids c ++ flat_map ids l) ++ flat_map ids frag)).
      rewrite IHc, <- !app_assoc. apply Permutation_app_head.
      apply Permutation_app_comm.
  - destruct Hin as [Hin|Hin]; [contradiction|].
    assert (E : nodeId c <> t).
    { intros E. apply Hic. rewrite ids_cons. now left. }
    destruct (Nat.eqb_spec (nodeId c) t); [contradiction|].
    unfold r at 1. rewrite replaceChild_absent
      by (intros H; apply Hic; rewrite ids_cons; now right).
    simpl. rewrite app_nil_r.
    specialize (IHl IH (NoDup_app_remove_l _ _ Hnd) Hin Hl).
    rewrite <- app_assoc. rewrite <- IHl.
    apply Permutation_middle.
Qed.

Lemma replace_ids n :
  NoDup (ids n) -> In t (childIds n) -> leafAt t d n ->
  Permutation (t :: ids (r n)) (ids n ++ flat_map ids frag).
Proof.
  induction n as [i x|i a cs IH|i x] using node_ind'; try contradiction.
  intros Hnd Hin Hl. rewrite replaceChild_Element, !ids_Element.
  rewrite ids_Element in Hnd. apply NoDup_cons_iff in Hnd.
  simpl. rewrite perm_swap. apply perm_skip.
  apply replace_ids_children; auto; [tauto|].
  now apply leafAt_children in Hl.
Qed.

Lemma firstSome_app (A B : Type) (f : A -> option B) l1 l2 :
  firstSome f (l1 ++ l2)
  = match firstSome f l1 with
    | Some y => Some y
    | None => firstSome f l2
    end.
Proof.
  induction l1 as [|x l IH]; simpl; [reflexivity|].
  destruct (f x); [reflexivity|exact IH].
Qed.

(** A reference to another node finds it where it was. *)
Lemma replace_findNode e n :
  e <> t -> ~ In e (flat_map ids frag) -> leafAt t d n ->
  findNode e (r n) = option_map r (findNode e n).
Proof.
  intros Het Hef.
  induction n as [i x|i a cs IH|i x] using node_ind'; intros Hl;
    try (simpl; destruct (i =? e); reflexivity).
  rewrite replaceChild_Element. cbn [findNode nodeId].
  destruct (Nat.eqb_spec i e) as [E|E]; [reflexivity|].
  apply leafAt_children in Hl.
  induction cs as [|c l IHl]; [reflexivity|].
  apply Forall_cons_iff in Hl, IH. destruct Hl as [Hc Hl], IH as [IHc IH].
  rewrite replaceChildren_cons, firstSome_app, IHl by auto. simpl.
  destruct (Nat.eqb_spec (nodeId c) t) as [Ec|Ec].
  - rewrite (leafAt_root t d c Hc Ec). simpl.
    destruct (Nat.eqb_spec t e); [congruence|].
    assert (firstSome (findNode e) frag = None) as ->; [|reflexivity].
    apply firstSome_None. intros f Hf. apply findNode_None.
    intros H. apply Hef. apply in_flat_map. eauto.
  - simpl. rewrite (IHc Hc). destruct (findNode e c); reflexivity.
Qed.

Lemma inert_shaped c : inert c = true -> shaped c = true.
Proof.
  destruct c as [i x|i b cs|i x]; simpl; try discriminate; auto.
  destruct cs as [|[j y| |] [|]]; try discriminate.
  intros H. apply andb_prop in H. destruct H as [H1 H2].
  rewrite H1. apply negb_true_iff in H2. rewrite H2. reflexivity.
Qed.

(** The script's own elements keep their shape when the text node is a
    child of none of them. *)
Lemma replace_shaped n :
  forallb inert frag = true -> leafAt t d n ->
  (forall h, In h (subnodes n) -> own h = true -> ~ In t (childIds h)) ->
  shaped n = true -> shaped (r n) = true.
Proof.
  intros Hf. rewrite forallb_forall in Hf.
  induction n as [i x|i a cs IH|i x] using node_ind'; intros Hl Hh Hs;
    try reflexivity.
  destruct (ours a) eqn:Ea.
  - unfold r. rewrite replaceChild_absent; auto.
    apply Hh; [apply subnodes_self|exact Ea].
  - rewrite replaceChild_Element. simpl in *. unfold ours in Ea.
    apply orb_false_elim in Ea. destruct Ea as [E1 E2].
    rewrite E1, E2 in *. simpl in *.
    assert (Hh' : forall c, In c cs -> forall h, In h (subnodes c) ->
              own h = true -> ~ In t (childIds h)).
    { intros c Hc h Hin. apply Hh. right. apply in_flat_map. eauto. }
    apply leafAt_children in Hl. clear Hh.
    induction cs as [|c l IHl]; [reflexivity|].
    apply Forall_cons_iff in Hl, IH. destruct Hl as [Hc Hl], IH as [IHc IH].
    simpl in Hs. apply andb_prop in Hs. destruct Hs as [Hs1 Hs2].
    rewrite replaceChildren_cons, forallb_app.
    rewrite IHl by (assumption || (intros c0 H0; apply Hh'; now right)).
    rewrite andb_true_r.
    destruct (Nat.eqb_spec (nodeId c) t) as [E|E].
    + apply forallb_forall. intros f Hin. apply inert_shaped. auto.
    + simpl. rewrite andb_true_r. apply IHc; auto.
      intros h Hin. eapply Hh'; eauto. now left.
Qed.

End Replace.

(** *** What the tree walker collects *)

Lemma acceptNode_true a x :
  acceptNode a x = true -> ours a = false /\ includes EM_DASH x = true.
Proof.
  unfold acceptNode. destruct (ours a); [discriminate|].
  destruct (includes EM_DASH x); [auto|discriminate].
Qed.

Lemma walkChild_in a c t d :
  In (t, d) (walkChild a c) ->
  (c = Text t d /\ ours a = false /\ includes EM_DASH d = true)
  \/ (isElement c = true /\ In (t, d) (walkerNodes c)).
Proof.
  destruct c as [j x|j b ds|j x]; simpl; try contradiction; auto.
  destruct (acceptNode a x) eqn:E; [|contradiction].
  intros [[= -> ->]|[]]. left. apply acceptNode_true in E. tauto.
Qed.

Lemma walker_in n t d :
  In (t, d) (walkerNodes n) ->
  In (Text t d) (subnodes n) /\ includes EM_DASH d = true
  /\ In t (childIds n).
Proof.
  induction n as [i x|i a cs IH|i x] using node_ind'; try contradiction.
  rewrite walkerNodes_Element. intros H. apply in_flat_map in H.
  destruct H as (c & Hc & H). rewrite Forall_forall in IH.
  apply walkChild_in in H. destruct H as [(-> & _ & Hi)|[_ H]].
  - repeat split; auto.
    + eapply subnodes_child; eauto. apply subnodes_self.
    + apply (in_childIds (Element i a cs) (Text t d) (Text t d)); auto.
      apply subnodes_self.
  - destruct (IH c Hc H) as (H1 & H2 & H3). repeat split; auto.
    + eapply subnodes_child; eauto.
    + unfold childIds. simpl. apply in_flat_map. exists c. split; auto.
      rewrite ids_cons. now right.
Qed.

Lemma treeWalker_walkerNodes n : treeWalker n = map fst (walkerNodes n).
Proof.
  induction n as [i x|i a cs IH|i x] using node_ind'; try reflexivity.
  simpl. rewrite map_flat_map.
  induction cs as [|c l IHl]; [reflexivity|].
  apply Forall_cons_iff in IH. destruct IH as [IHc IH].
  simpl. rewrite IHl by auto. f_equal.
  destruct c as [j x|j b ds|j x]; simpl; auto.
  destruct (acceptNode a x); reflexivity.
Qed.

Lemma text_in_descendantText c n t d :
  In (Text t d) (subnodes n) -> includes c d = true ->
  includes c (descendantText n) = true.
Proof.
  intros H Hd. induction n as [i x|i a cs IH|i x] using node_ind'.
  - destruct H as [[= -> ->]|[]]. exact Hd.
  - destruct H as [H|H]; [discriminate|]. simpl.
    apply in_flat_map in H. destruct H as (k & Hk & H).
    rewrite Forall_forall in IH. specialize (IH k Hk H).
    clear H. induction cs as [|c0 l IHl]; [contradiction|].
    simpl. rewrite JSFacts.includes_app.
    destruct Hk as [->|Hk]; [now rewrite IH|].
    rewrite IHl by auto. apply orb_true_r.
  - destruct H as [H|[]]. discriminate.
Qed.

(** A node the walker accepts is a child of none of the script's own
    elements. *)
Lemma walker_not_own n t d :
  NoDup (ids n) -> shaped n = true -> In (t, d) (walkerNodes n) ->
  forall h, In h (subnodes n) -> own h = true -> ~ In t (childIds h).
Proof.
  induction n as [i x|i a cs IH|i x] using node_ind'; try contradiction.
  intros Hnd Hs Hw h Hh Ho Hin.
  rewrite walkerNodes_Element in Hw. apply in_flat_map in Hw.
  destruct Hw as (c0 & Hc0 & Hw). apply walkChild_in in Hw.
  rewrite Forall_forall in IH.
  rewrite ids_Element in Hnd. apply NoDup_cons_iff in Hnd.
  destruct Hnd as [_ Hnd].
  destruct Hh as [<-|Hh].
  - (* the element itself is the script's *)
    simpl in Ho, Hs. destruct Hw as [(_ & Hw & _)|[He Hw]]; [congruence|].
    unfold ours in Ho.
    destruct (contains HIGHLIGHT (classList a)) eqn:E1.
    + apply andb_prop in Hs. destruct Hs as [Hs _].
      apply andb_prop in Hs. destruct Hs as [Hs _].
      rewrite forallb_forall in Hs. specialize (Hs c0 Hc0).
      destruct c0; discriminate.
    + simpl in Ho. rewrite Ho in Hs. simpl in Hs.
      apply andb_prop in Hs. destruct Hs as [Hs _].
      apply andb_prop in Hs. destruct Hs as [Hs _].
      apply negb_true_iff in Hs.
      apply walker_in in Hw. destruct Hw as (Hw & Hd & _).
      assert (includes EM_DASH (descendantText (Element i a cs)) = true).
      { eapply text_in_descendantText; eauto.
        eapply subnodes_child; eauto. }
      simpl in H. congruence.
  - apply in_flat_map in Hh. destruct Hh as (c & Hc & Hh).
    assert (Htc : In t (ids c)).
    { destruct (subnodes_inv _ _ Hh) as [->|(k & Hk & Hx)].
      - rewrite ids_cons. now right.
      - unfold childIds in Hin. apply in_flat_map in Hin.
        destruct Hin as (k' & Hk' & Hin).
        unfold ids in Hin. apply in_map_iff in Hin.
        destruct Hin as (y & <- & Hy). apply in_ids.
        eapply subnodes_trans; [exact Hh|].
        destruct h; simpl in Hk'; try contradiction.
        eapply subnodes_child; eauto. }
    assert (Htc0 : In t (ids c0)).
    { destruct Hw as [(-> & _)|[_ Hw]]; [now left|].
      apply walker_in in Hw. destruct Hw as (_ & _ & Hw).
      rewrite ids_cons. now right. }
    assert (c = c0) by (eapply NoDup_flat_map_same; eauto). subst c0.
    destruct Hw as [(-> & _)|[_ Hw]].
    + destruct Hh as [<-|[]]. discriminate.
    + refine (IH c Hc _ _ Hw h Hh Ho Hin).
      * eapply NoDup_flat_map_part; eauto.
      * simpl in Hs. apply andb_prop in Hs. destruct Hs as [_ Hs].
        rewrite forallb_forall in Hs. auto.
Qed.

Lemma walker_NoDup n : NoDup (ids n) -> NoDup (map fst (walkerNodes n)).
Proof.
  induction n as [i x|i a cs IH|i x] using node_ind'; try constructor.
  rewrite ids_Element. intros Hnd. apply NoDup_cons_iff in Hnd.
  destruct Hnd as [_ Hnd]. rewrite walkerNodes_Element, map_flat_map.
  induction cs as [|c l IHl]; [constructor|].
  apply Forall_cons_iff in IH. destruct IH as [IHc IH]. simpl in *.
  apply NoDup_app.
  - destruct c as [j x|j b ds|j x]; simpl.
    + destruct (acceptNode a x); simpl; repeat constructor. intros [].
    + apply IHc. now apply NoDup_app_remove_r in Hnd.
    + constructor.
  - apply IHl; auto. now apply NoDup_app_remove_l in Hnd.
  - intros j Hj Hj'. apply (NoDup_app_disjoint _ _ _ j Hnd).
    + apply in_map_iff in Hj. destruct Hj as ([j' x] & <- & Hj).
      apply walkChild_in in Hj. destruct Hj as [(-> & _)|[_ Hj]];
        [now left|].
      apply walker_in in Hj. rewrite ids_cons. right. tauto.
    + apply in_flat_map in Hj'. destruct Hj' as (c' & Hc' & Hj').
      apply in_flat_map. exists c'. split; auto.
      apply in_map_iff in Hj'. destruct Hj' as ([j' x] & <- & Hj').
      apply walkChild_in in Hj'. destruct Hj' as [(-> & _)|[_ Hj']];
        [now left|].
      apply walker_in in Hj'. rewrite ids_cons. right. tauto.
Qed.

Lemma walker_subnode n sub :
  In sub (subnodes n) -> incl (walkerNodes sub) (walkerNodes n).
Proof.
  induction n as [i x|i a cs IH|i x] using node_ind'; intros H.
  - destruct H as [<-|[]]. apply incl_refl.
  - destruct H as [<-|H]; [apply incl_refl|].
    apply in_flat_map in H. destruct H as (c & Hc & H).
    rewrite Forall_forall in IH. intros p Hp.
    rewrite walkerNodes_Element. apply in_flat_map. exists c. split; auto.
    destruct c as [j y|j b ds|j y].
    + destruct H as [<-|[]]. contradiction.
    + apply (IH _ Hc H p Hp).
    + destruct H as [<-|[]]. contradiction.
  - destruct H as [<-|[]]. apply incl_refl.
Qed.

Lemma map_id_in (A : Type) (g : A -> A) l :
  (forall x, In x l -> g x = x) -> map g l = l.
Proof.
  induction l as [|x l IH]; simpl; intros H; [reflexivity|].
  rewrite H, IH by auto. reflexivity.
Qed.

Lemma childIds_subnode n sub :
  In sub (subnodes n) -> incl (childIds sub) (childIds n).
Proof.
  induction n as [i x|i a cs IH|i x] using node_ind'; intros H.
  - destruct H as [<-|[]]. apply incl_refl.
  - destruct H as [<-|H]; [apply incl_refl|].
    apply in_flat_map in H. destruct H as (c & Hc & H).
    rewrite Forall_forall in IH. intros j Hj.
    unfold childIds. simpl. apply in_flat_map. exists c. split; auto.
    rewrite ids_cons. right. apply (IH c Hc H j Hj).
  - destruct H as [<-|[]]. apply incl_refl.
Qed.

Lemma ids_subnode n sub : In sub (subnodes n) -> incl (ids sub) (ids n).
Proof.
  intros H j Hj. unfold ids in Hj. apply in_map_iff in Hj.
  destruct Hj as (x & <- & Hx). apply in_ids.
  eapply subnodes_trans; eauto.
Qed.

Lemma NoDup_subnode n sub :
  NoDup (ids n) -> In sub (subnodes n) -> NoDup (ids sub).
Proof.
  induction n as [i x|i a cs IH|i x] using node_ind'; intros Hnd H.
  - destruct H as [<-|[]]. exact Hnd.
  - destruct H as [<-|H]; [exact Hnd|].
    apply in_flat_map in H. destruct H as (c & Hc & H).
    rewrite Forall_forall in IH. apply (IH c Hc); auto.
    rewrite ids_Element in Hnd. apply NoDup_cons_iff in Hnd.
    eapply NoDup_flat_map_part; [apply Hnd|exact Hc].
  - destruct H as [<-|[]]. exact Hnd.
Qed.

(** In a forest of distinct identities and well-shaped trees, a node the
    walker accepts lies inside none of the script's own elements. *)
Lemma walker_not_own_forest f n0 t d :
  NoDup (flat_map ids f) -> forallb shaped f = true ->
  In n0 f -> In (t, d) (walkerNodes n0) ->
  forall n h, In n f -> In h (subnodes n) -> own h = true ->
              ~ In t (childIds h).
Proof.
  intros Hnd Hs Hn0 Hw n h Hn Hh Ho Hin.
  assert (Ht : In t (ids n)).
  { apply (ids_subnode _ _ Hh). rewrite ids_cons. now right. }
  assert (Ht0 : In t (ids n0)).
  { apply walker_in in Hw. rewrite ids_cons. right. tauto. }
  assert (n = n0) by (eapply NoDup_flat_map_same; eauto). subst n.
  rewrite forallb_forall in Hs.
  eapply walker_not_own;
    [|apply Hs; exact Hn0|exact Hw|exact Hh|exact Ho|exact Hin].
  eapply NoDup_flat_map_part; eauto.
Qed.

(** *** Replacing a text node in a forest *)

Section ReplaceForest.

Variables (t : nid) (d : jsstring) (frag : list node) (f : list node).

Hypothesis unique : NoDup (flat_map ids f).
Hypothesis present : In (Text t d) (flat_map subnodes f).

Lemma leafAt_forest n : In n f -> leafAt t d n.
Proof.
  intros Hn x Hx E. rewrite ids_forest in unique.
  apply (NoDup_map_eq _ _ nodeId _ x (Text t d) unique); auto.
  apply in_flat_map. eauto.
Qed.

Lemma leafAt_forall : Forall (leafAt t d) f.
Proof. apply Forall_forall. exact leafAt_forest. Qed.

Lemma replace_ids_forest :
  In t (flat_map childIds f) ->
  Permutation (flat_map ids (map (replaceChild t frag) f ++ [Text t d]))
              (flat_map ids f ++ flat_map ids frag).
Proof.
  intros Hin. rewrite flat_map_app. simpl.
  rewrite <- Permutation_cons_append.
  pose proof leafAt_forall as Hl. clear present.
  induction f as [|n l IHl]; [contradiction|].
  apply Forall_cons_iff in Hl. destruct Hl as [Hn Hl].
  simpl in *. rewrite in_app_iff in Hin.
  destruct (in_dec Nat.eq_dec t (childIds n)) as [Hc|Hc].
  - assert (Hl' : map (replaceChild t frag) l = l).
    { apply map_id_in. intros c Hcl. apply replaceChild_absent.
      intros H. apply (NoDup_app_disjoint _ _ _ t unique).
      - rewrite ids_cons. now right.
      - apply in_flat_map. exists c. split; auto. rewrite ids_cons.
        now right. }
    rewrite Hl'.
    change (Permutation ((t :: ids (replaceChild t frag n)) ++ flat_map ids l)
              ((ids n ++ flat_map ids l) ++ flat_map ids frag)).
    rewrite (replace_ids t d frag n); auto.
    + rewrite <- !app_assoc. apply Permutation_app_head.
      apply Permutation_app_comm.
    + now apply NoDup_app_remove_r in unique.
  - destruct Hin as [Hin|Hin]; [contradiction|].
    rewrite replaceChild_absent by assumption.
    rewrite <- app_assoc, <- IHl; auto.
    + apply Permutation_middle.
    + now apply NoDup_app_remove_l in unique.
Qed.

Lemma replace_find_forest e :
  e <> t -> ~ In e (flat_map ids frag) ->
  findInForest e (map (replaceChild t frag) f ++ [Text t d])
  = option_map (replaceChild t frag) (findInForest e f).
Proof.
  intros Het Hef. unfold findInForest. rewrite firstSome_app.
  pose proof leafAt_forall as Hl. clear present unique.
  induction f as [|n l IHl]; simpl.
  - destruct (Nat.eqb_spec t e); [congruence|reflexivity].
  - apply Forall_cons_iff in Hl. destruct Hl as [Hn Hl].
    rewrite (replace_findNode t d frag e n) by auto.
    destruct (findNode e n); [reflexivity|]. now apply IHl.
Qed.

End ReplaceForest.

End DomFacts.

(** ** Facts on the scanner *)

Module ScanFacts.

Import Dom Page Props DomFacts.

Ltac splits := repeat match goal with |- _ /\ _ => split end.

Lemma sameBut_refl s : sameBut s s.
Proof. destruct s; reflexivity. Qed.

Lemma sameBut_trans s1 s2 s3 : sameBut s1 s2 -> sameBut s2 s3 -> sameBut s1 s3.
Proof. unfold sameBut. intros H1 H2. rewrite H2 at 1. rewrite H1 at 1. reflexivity. Qed.

Lemma truthy_false p : truthy p = false -> p = [].
Proof. destruct p; [reflexivity|discriminate]. Qed.

Lemma buildFragment_cons p q rest s :
  buildFragment (p :: q :: rest) s
  = let '(t, s1) :=
      if truthy p
      then let '(n, s') := createTextNode p s in ([n], s')
      else ([], s) in
    let '(h, s2) := let '(n, s') := createHighlight s1 in ([n], s') in
    let '(f, s3) := buildFragment (q :: rest) s2 in
    (t ++ h ++ f, s3).
Proof. reflexivity. Qed.

(** The fragment of [highlightTextNode]: its text is the text of the node,
    it holds one highlight for each separator, its nodes are new. *)
Lemma buildFragment_spec parts : forall s frag s',
  Forall (fun p => includes EM_DASH p = false) parts ->
  buildFragment parts s = (frag, s') ->
  flat_map descendantText frag = join EM_DASH parts
  /\ flat_map pageText frag = join EM_DASH parts
  /\ forallb inert frag = true
  /\ List.length (flat_map allHighlights frag) = List.length parts - 1
  /\ (exists k, flat_map ids frag = seq (nextId s) k
                /\ nextId s' = nextId s + k)
  /\ sameBut s s'.
Proof.
  induction parts as [|p rest IH]; intros s frag s' Hp H.
  - injection H as <- <-. simpl.
    splits; auto; [|apply sameBut_refl]. exists 0. simpl. auto.
  - apply Forall_cons_iff in Hp. destruct Hp as [Hp Hrest].
    destruct rest as [|q rest'].
    + cbn [buildFragment] in H.
      destruct (truthy p) eqn:Tp; cbn in H; injection H as <- <-.
      * simpl. rewrite Hp, !app_nil_r. splits; auto.
        -- exists 1. simpl. split; [reflexivity|lia].
        -- destruct s; reflexivity.
      * apply truthy_false in Tp. subst p. simpl.
        splits; auto; [|apply sameBut_refl]. exists 0. simpl. auto.
    + rewrite buildFragment_cons in H.
      remember (q :: rest') as rest eqn:Er.
      assert (Hlen : List.length (p :: rest) - 1
                     = S (List.length rest - 1)) by (subst; simpl; lia).
      assert (Hj : join EM_DASH (p :: rest)
                   = p ++ EM_DASH :: join EM_DASH rest)
        by (subst; reflexivity).
      rewrite Hlen, Hj. clear Er Hlen Hj.
      destruct (truthy p) eqn:Tp;
        cbn [createTextNode createHighlight] in H;
        destruct (buildFragment rest _) as [f s3] eqn:Eb;
        injection H as <- <-;
        destruct (IH _ _ _ Hrest Eb)
          as (H1 & H2 & H3 & H4 & (k & H5 & H6) & H7);
        cbn [nextId set_nextId set_randomCalls] in H5, H6.
      * simpl. rewrite H1, H2, H3, H5, Hp.
        unfold allHighlights in *. simpl. rewrite H4.
        splits; auto.
        all: try (exists (3 + k); split; [reflexivity|lia]).
        all: try (unfold sameBut in *; rewrite H7 at 1; reflexivity).
      * apply truthy_false in Tp. subst p.
        simpl. rewrite H1, H2, H3, H5.
        unfold allHighlights in *. simpl. rewrite H4.
        splits; auto.
        all: try (exists (2 + k); split; [reflexivity|lia]).
        all: try (unfold sameBut in *; rewrite H7 at 1; reflexivity).
Qed.

Lemma sameScan_refl s : sameScan s s.
Proof. destruct s; reflexivity. Qed.

Lemma sameScan_trans s1 s2 s3 :
  sameScan s1 s2 -> sameScan s2 s3 -> sameScan s1 s3.
Proof.
  unfold sameScan. intros H1 H2. rewrite H2 at 1. rewrite H1 at 1.
  reflexivity.
Qed.

Lemma sameScan_fields s s' :
  sameScan s s' ->
  warningBanner s' = warningBanner s /\ scans s' = scans s
  /\ svgInjected s' = svgInjected s /\ styleWrites s' = styleWrites s
  /\ rootStyle s' = rootStyle s.
Proof. intros H. rewrite H. simpl. auto. Qed.

(** One run of [highlightTextNode] on a text node that holds an em-dash and
    has a parent. *)
Lemma highlight_step s t d :
  uniqueIds s ->
  In (Text t d) (flat_map subnodes (forest s)) ->
  includes EM_DASH d = true ->
  In t (flat_map childIds (forest s)) ->
  exists frag k,
    forallb inert frag = true
    /\ flat_map descendantText frag = d
    /\ flat_map pageText frag = d
    /\ List.length (flat_map allHighlights frag) = occurrences EM_DASH d
    /\ flat_map ids frag = seq (nextId s) k
    /\ body (highlightTextNode t s) = replaceChild t frag (body s)
    /\ detached (highlightTextNode t s)
       = map (replaceChild t frag) (detached s) ++ [Text t d]
    /\ nextId (highlightTextNode t s) = nextId s + k
    /\ emDashCount (highlightTextNode t s)
       = emDashCount s + occurrences EM_DASH d
    /\ sameScan s (highlightTextNode t s).
Proof.
  intros [Hnd Hlt] Hin Hd Hp. unfold highlightTextNode.
  pose proof (findInForest_unique _ (Text t d) Hnd Hin) as Hfind.
  change (nodeId (Text t d)) with t in Hfind.
  rewrite Hfind, Hd. simpl negb. cbv iota.
  destruct (buildFragment _ _) as [frag s2] eqn:Eb.
  destruct (buildFragment_spec _ _ _ _ (JSFacts.split_pieces EM_DASH d) Eb)
    as (H1 & H2 & H3 & H4 & (k & H5 & H6) & H7).
  rewrite JSFacts.join_split in H1, H2.
  rewrite JSFacts.split_length in H4. simpl in H4, H6.
  rewrite Nat.sub_0_r in H4.
  unfold sameBut in H7.
  generalize dependent (nextId s2). generalize dependent (randomCalls s2).
  intros r2 n2 H6 H7. subst s2.
  change (forest (set_randomCalls r2 (set_nextId n2
            (set_emDashCount
               (emDashCount s + (List.length (split EM_DASH d) - 1)) s))))
    with (forest s).
  apply parentNode_Some in Hp. destruct Hp as [p Hp].
  rewrite Hp. exists frag, k. simpl.
  rewrite JSFacts.split_length. simpl. rewrite Nat.sub_0_r.
  splits; auto. reflexivity.
Qed.

Lemma forest_step s t d frag :
  body (highlightTextNode t s) = replaceChild t frag (body s) ->
  detached (highlightTextNode t s)
  = map (replaceChild t frag) (detached s) ++ [Text t d] ->
  forest (highlightTextNode t s)
  = map (replaceChild t frag) (forest s) ++ [Text t d].
Proof. unfold forest. intros -> ->. reflexivity. Qed.

Lemma filter_keep (A : Type) (p : A -> bool) l :
  (forall x, In x l -> p x = true) -> filter p l = l.
Proof.
  induction l as [|x l IH]; simpl; intros H; [reflexivity|].
  rewrite (H x), IH by auto. reflexivity.
Qed.

(** What one step of the loop of [walkTextNodes] does, for the first of the
    text nodes the walker collected below the element [el]. *)
Lemma walk_step s el sub t d rest :
  uniqueIds s ->
  forallb shaped (forest s) = true ->
  findInForest el (forest s) = Some sub ->
  walkerNodes sub = (t, d) :: rest ->
  uniqueIds (highlightTextNode t s)
  /\ forallb shaped (forest (highlightTextNode t s)) = true
  /\ (exists sub',
        findInForest el (forest (highlightTextNode t s)) = Some sub'
        /\ walkerNodes sub' = rest
        /\ (sub = body s -> sub' = body (highlightTextNode t s)))
  /\ sameScan s (highlightTextNode t s)
  /\ emDashCount (highlightTextNode t s)
     = emDashCount s + occurrences EM_DASH d
  /\ nextId s <= nextId (highlightTextNode t s)
  /\ pageText (body (highlightTextNode t s)) = pageText (body s)
  /\ filter (fun h => nodeId h <? nextId s)
            (allHighlights (body (highlightTextNode t s)))
     = allHighlights (body s)
  /\ (sub = body s ->
      List.length (allHighlights (body (highlightTextNode t s)))
      = List.length (allHighlights (body s)) + occurrences EM_DASH d)
  /\ (forall b a cs,
        findInForest b (forest s) = Some (Element b a cs) ->
        exists cs',
          findInForest b (forest (highlightTextNode t s))
          = Some (Element b a cs'))
  /\ rootOf (body (highlightTextNode t s)) = rootOf (body s).
Proof.
  intros Hu Hs Hfind Hw. pose proof Hu as [Hnd Hlt].
  rewrite Forall_forall in Hlt.
  (* where the text node is *)
  apply findInForest_Some in Hfind as Hsub. destruct Hsub as [Hsub Hel].
  apply in_flat_map in Hsub. destruct Hsub as (n0 & Hn0 & Hsub).
  assert (Hwsub : In (t, d) (walkerNodes sub)) by (rewrite Hw; now left).
  assert (Hw0 : In (t, d) (walkerNodes n0))
    by (apply (walker_subnode _ _ Hsub), Hwsub).
  destruct (walker_in _ _ _ Hw0) as (Ht0 & Hd & Hc0).
  assert (Hin : In (Text t d) (flat_map subnodes (forest s)))
    by (apply in_flat_map; eauto).
  assert (Hch : In t (flat_map childIds (forest s)))
    by (apply in_flat_map; eauto).
  destruct (highlight_step s t d Hu Hin Hd Hch)
    as (frag & k & F1 & F2 & F3 & F4 & F5 & Eb & Ed & En & Ec & Hss).
  pose proof (forest_step s t d frag Eb Ed) as Ef.
  set (s' := highlightTextNode t s) in *.
  (* the fragment is new *)
  assert (Hnew : forall i, In i (flat_map ids frag) -> nextId s <= i).
  { intros i Hi. rewrite F5 in Hi. apply in_seq in Hi. lia. }
  assert (Hold : forall i, In i (flat_map ids (forest s)) -> i < nextId s)
    by exact Hlt.
  assert (Hleaf : forall n, In n (forest s) -> leafAt t d n)
    by (intros n Hn; eapply leafAt_forest; eauto).
  assert (Hown : forall n h, In n (forest s) -> In h (subnodes n) ->
                   own h = true -> ~ In t (childIds h))
    by (eapply walker_not_own_forest; eauto).
  assert (Hbody : In (body s) (forest s)) by (now left).
  (* references to other nodes *)
  assert (Hother : forall e x, findInForest e (forest s) = Some x ->
            e <> t ->
            findInForest e (forest s') = Some (replaceChild t frag x)).
  { intros e x He Hne. rewrite Ef.
    rewrite (replace_find_forest t d frag (forest s)); auto.
    - rewrite He. reflexivity.
    - intros Hi. apply Hnew in Hi.
      apply findInForest_Some in He. destruct He as [He <-].
      rewrite ids_forest in Hold. specialize (Hold (nodeId x)).
      assert (nodeId x < nextId s) by (apply Hold; now apply in_map).
      lia. }
  assert (Helt : el <> t).
  { intros ->. pose proof (findInForest_unique _ (Text t d) Hnd Hin) as H.
    simpl in H. rewrite Hfind in H. injection H as ->. discriminate. }
  splits.
  - (* identities *)
    split.
    + rewrite Ef. eapply Permutation_NoDup.
      * symmetry. apply (replace_ids_forest t d); auto.
      * apply NoDup_app; auto.
        -- rewrite F5. apply seq_NoDup.
        -- intros i Hi Hi'. apply Hold in Hi. apply Hnew in Hi'. lia.
    + rewrite Ef. eapply Permutation_Forall.
      * symmetry. apply (replace_ids_forest t d); auto.
      * apply Forall_app. split; apply Forall_forall; intros i Hi.
        -- apply Hold in Hi. lia.
        -- rewrite F5 in Hi. apply in_seq in Hi. lia.
  - (* shapes *)
    rewrite Ef, forallb_app.
    change (forallb shaped [Text t d]) with true. rewrite andb_true_r.
    apply forallb_forall. intros n Hn. apply in_map_iff in Hn.
    destruct Hn as (m & <- & Hm). rewrite forallb_forall in Hs.
    apply (replace_shaped t d); auto. intros h. now apply Hown.
  - (* the element and what is left to do below it *)
    exists (replaceChild t frag sub). splits.
    + now apply Hother.
    + rewrite (replace_walkerNodes t d); auto.
      * rewrite Hw. simpl. rewrite Nat.eqb_refl. simpl.
        apply filter_keep. intros [j x] Hj. simpl.
        apply negb_true_iff, Nat.eqb_neq. intros ->.
        assert (Hnd' : NoDup (map fst (walkerNodes sub))).
        { apply walker_NoDup. eapply NoDup_subnode; eauto.
          eapply NoDup_flat_map_part; eauto. }
        rewrite Hw in Hnd'. simpl in Hnd'. apply NoDup_cons_iff in Hnd'.
        apply (proj1 Hnd'). change t with (fst (t, x)). now apply in_map.
      * intros x Hx. apply (Hleaf n0 Hn0).
        exact (subnodes_trans n0 x sub Hsub Hx).
    + intros ->. symmetry. exact Eb.
  - exact Hss.
  - exact Ec.
  - lia.
  - rewrite Eb. apply (replace_pageText t d); auto.
  - rewrite Eb. apply (replace_highlights_old t d); auto.
    + intros i Hi. apply Hold. simpl. apply in_or_app. now left.
    + intros h Hh Hc. apply (Hown (body s) h); auto.
      destruct h; simpl in *; try discriminate. unfold ours. now rewrite Hc.
  - intros ->. rewrite Eb, (replace_highlights_length t d) by auto.
    rewrite F4.
    assert (count_occ Nat.eq_dec (childIds (body s)) t = 1) as ->; [|lia].
    assert (Hb0 : body s = n0).
    { eapply NoDup_flat_map_same; eauto.
      - apply in_ids, subnodes_self.
      - apply in_ids. exact Hsub. }
    assert (Hndb : NoDup (ids (body s)))
      by (eapply NoDup_flat_map_part; eauto).
    rewrite ids_cons in Hndb. apply NoDup_cons_iff in Hndb.
    destruct Hndb as [_ Hndb].
    pose proof (proj1 (NoDup_count_occ Nat.eq_dec _) Hndb t) as Hle.
    assert (count_occ Nat.eq_dec (childIds (body s)) t > 0).
    { apply count_occ_In. rewrite Hb0. exact Hc0. }
    lia.
  - intros b a cs Hb. assert (Hbt : b <> t).
    { intros ->. pose proof (findInForest_unique _ (Text t d) Hnd Hin) as H.
      simpl in H. rewrite Hb in H. discriminate. }
    rewrite (Hother _ _ Hb Hbt). simpl. eauto.
  - rewrite Eb. destruct (body s); reflexivity.
Qed.

Lemma filter_old_trans (N N' : nat) (l0 l1 l2 : list node) :
  N <= N' ->
  filter (fun h => nodeId h <? N) l1 = l0 ->
  filter (fun h => nodeId h <? N') l2 = l1 ->
  filter (fun h => nodeId h <? N) l2 = l0.
Proof.
  intros Hle <- <-. induction l2 as [|h l IH]; simpl; [reflexivity|].
  destruct (Nat.ltb_spec (nodeId h) N'), (Nat.ltb_spec (nodeId h) N);
    simpl; try lia.
  - destruct (Nat.ltb_spec (nodeId h) N); [|lia]. now f_equal.
  - destruct (Nat.ltb_spec (nodeId h) N); [lia|]. exact IH.
  - exact IH.
Qed.

(** The loop of [walkTextNodes]: every text node collected below [el] is
    highlighted in turn. *)
Lemma walk_loop l : forall s el sub,
  uniqueIds s ->
  forallb shaped (forest s) = true ->
  findInForest el (forest s) = Some sub ->
  walkerNodes sub = l ->
  uniqueIds (forEach highlightTextNode (map fst l) s)
  /\ forallb shaped (forest (forEach highlightTextNode (map fst l) s)) = true
  /\ (exists sub',
        findInForest el (forest (forEach highlightTextNode (map fst l) s))
        = Some sub'
        /\ walkerNodes sub' = []
        /\ (sub = body s ->
            sub' = body (forEach highlightTextNode (map fst l) s)))
  /\ sameScan s (forEach highlightTextNode (map fst l) s)
  /\ emDashCount (forEach highlightTextNode (map fst l) s)
     = emDashCount s
       + list_sum (map (fun p => occurrences EM_DASH (snd p)) l)
  /\ nextId s <= nextId (forEach highlightTextNode (map fst l) s)
  /\ pageText (body (forEach highlightTextNode (map fst l) s))
     = pageText (body s)
  /\ filter (fun h => nodeId h <? nextId s)
            (allHighlights (body (forEach highlightTextNode (map fst l) s)))
     = allHighlights (body s)
  /\ (sub = body s ->
      List.length
        (allHighlights (body (forEach highlightTextNode (map fst l) s)))
      = List.length (allHighlights (body s))
        + list_sum (map (fun p => occurrences EM_DASH (snd p)) l))
  /\ (forall b a cs,
        findInForest b (forest s) = Some (Element b a cs) ->
        exists cs',
          findInForest b (forest (forEach highlightTextNode (map fst l) s))
          = Some (Element b a cs'))
  /\ rootOf (body (forEach highlightTextNode (map fst l) s))
     = rootOf (body s).
Proof.
  induction l as [|[t d] rest IH]; intros s el sub Hu Hs Hfind Hw.
  - simpl. splits; auto; try lia; try (intros; lia).
    + exists sub. auto.
    + apply sameScan_refl.
    + apply filter_keep. intros h Hh. apply Nat.ltb_lt.
      apply allHighlights_subnodes in Hh. destruct Hh as [Hh _].
      destruct Hu as [_ Hlt]. rewrite Forall_forall in Hlt. apply Hlt.
      simpl. apply in_or_app. left. now apply in_ids.
    + eauto.
  - destruct (walk_step s el sub t d rest Hu Hs Hfind Hw)
      as (S1 & S2 & (sub1 & S3 & S4 & S5) & S6 & S7 & S8 & S9 & S10 & S11
          & S12 & S13).
    change (forEach highlightTextNode (map fst ((t, d) :: rest)) s)
      with (forEach highlightTextNode (map fst rest) (highlightTextNode t s)).
    destruct (IH (highlightTextNode t s) el sub1 S1 S2 S3 S4)
      as (T1 & T2 & (sub2 & T3 & T4 & T5) & T6 & T7 & T8 & T9 & T10 & T11
          & T12 & T13).
    set (s1 := highlightTextNode t s) in *.
    set (s2 := forEach highlightTextNode (map fst rest) s1) in *.
    simpl list_sum. splits; auto.
    + exists sub2. splits; auto.
    + eapply sameScan_trans; eauto.
    + lia.
    + lia.
    + congruence.
    + eapply filter_old_trans; eauto.
    + intros E. rewrite T11, S11 by auto. lia.
    + intros b a cs Hb. destruct (S12 b a cs Hb) as [cs1 H1].
      apply (T12 b a cs1 H1).
    + congruence.
Qed.

Lemma walkTextNodes_eq s el i a cs :
  findInForest el (forest s) = Some (Element i a cs) ->
  existsb (String.eqb (tagName a)) skipTags = false ->
  walkTextNodes el s
  = forEach highlightTextNode
      (map fst (walkerNodes (Element i a cs))) s.
Proof.
  intros Hf Hk. unfold walkTextNodes. rewrite Hf, Hk.
  now rewrite treeWalker_walkerNodes.
Qed.

End ScanFacts.


(** ** Facts on the banner *)

Module BannerFacts.

Import Dom Page Props DomFacts ScanFacts.

Lemma nodeId_removeNode b n : nodeId (removeNode b n) = nodeId n.
Proof. destruct n; reflexivity. Qed.

Lemma nodeId_setTextContent e f v n :
  nodeId (setTextContent e f v n) = nodeId n.
Proof. destruct n; simpl; auto. destruct (_ =? _); reflexivity. Qed.

Lemma shaped_subnode n x :
  shaped n = true -> In x (subnodes n) -> shaped x = true.
Proof.
  induction n as [i y|i a cs IH|i y] using node_ind'; intros Hs Hx.
  - destruct Hx as [<-|[]]. reflexivity.
  - destruct Hx as [<-|Hx]; [exact Hs|].
    apply in_flat_map in Hx. destruct Hx as (c & Hc & Hx).
    rewrite Forall_forall in IH. apply (IH c Hc); auto.
    simpl in Hs. apply andb_prop in Hs. destruct Hs as [_ Hs].
    rewrite forallb_forall in Hs. auto.
  - destruct Hx as [<-|[]]. reflexivity.
Qed.

(** A well-shaped banner element holds no highlight and has no page text. *)
Lemma banner_blank x :
  shaped x = true -> hasClass BANNER x = true ->
  allHighlights x = [] /\ pageText x = [].
Proof.
  destruct x as [i y|i a cs|i y]; try discriminate.
  simpl. intros Hs Hb. rewrite Hb in *. split; [|reflexivity].
  apply andb_prop in Hs. destruct Hs as [Hs _].
  apply andb_prop in Hs. destruct Hs as [_ Hs].
  apply andb_prop in Hs. destruct Hs as [Hs Hh].
  apply andb_prop in Hs. destruct Hs as [Hn _].
  apply negb_true_iff in Hn. unfold allHighlights. simpl. rewrite Hn. simpl.
  apply flat_map_nil. intros c Hc. rewrite forallb_forall in Hh.
  specialize (Hh c Hc). destruct (selfOrDescendants HIGHLIGHT c);
    [reflexivity|discriminate].
Qed.

(** Removing a banner element changes neither the page text nor the
    highlight elements. *)
Lemma removeNode_pageText b n :
  (forall x, In x (subnodes n) -> nodeId x = b -> pageText x = []) ->
  pageText (removeNode b n) = pageText n.
Proof.
  induction n as [i y|i a cs IH|i y] using node_ind'; intros H;
    try reflexivity.
  simpl. destruct (contains BANNER (classList a)); [reflexivity|].
  assert (Hc : forall c, In c cs -> forall x, In x (subnodes c) ->
                nodeId x = b -> pageText x = []).
  { intros c Hc x Hx. apply H. right. apply in_flat_map. eauto. }
  clear H. induction cs as [|c l IHl]; [reflexivity|].
  apply Forall_cons_iff in IH. destruct IH as [IHc IH]. simpl.
  rewrite nodeId_removeNode.
  destruct (Nat.eqb_spec (nodeId c) b) as [E|E]; simpl.
  - rewrite (Hc c (or_introl eq_refl) c (subnodes_self c) E). simpl.
    apply IHl; auto. intros c0 H0. apply Hc. now right.
  - rewrite IHc by (apply Hc; now left). f_equal.
    apply IHl; auto. intros c0 H0. apply Hc. now right.
Qed.

Lemma removeNode_highlights b n :
  shaped n = true ->
  (forall x, In x (subnodes n) -> nodeId x = b ->
             isElement x = true /\ allHighlights x = []) ->
  allHighlights (removeNode b n) = allHighlights n.
Proof.
  induction n as [i y|i a cs IH|i y] using node_ind'; intros Hs H;
    try reflexivity.
  assert (Hc : forall c, In c cs -> forall x, In x (subnodes c) ->
                nodeId x = b -> isElement x = true /\ allHighlights x = []).
  { intros c Hc x Hx. apply H. right. apply in_flat_map. eauto. }
  assert (Hsc : forall c, In c cs -> shaped c = true).
  { intros c Hc'. apply (shaped_subnode (Element i a cs)); auto.
    eapply subnodes_child; eauto. apply subnodes_self. }
  destruct (contains HIGHLIGHT (classList a)) eqn:Ea.
  - (* a highlight holds text only: nothing to remove *)
    assert (Hid : removeNode b (Element i a cs) = Element i a cs);
      [|now rewrite Hid].
    simpl. f_equal. simpl in Hs. rewrite Ea in Hs.
    apply andb_prop in Hs. destruct Hs as [Hs _].
    apply andb_prop in Hs. destruct Hs as [Hs _].
    rewrite forallb_forall in Hs. clear IH H Hsc.
    induction cs as [|c l IHl]; [reflexivity|]. simpl.
    pose proof (Hs c (or_introl eq_refl)) as Ht.
    destruct c as [j y| |]; try discriminate. simpl.
    destruct (Nat.eqb_spec j b) as [E|E].
    + destruct (Hc _ (or_introl eq_refl) _ (subnodes_self _) E).
      discriminate.
    + simpl. f_equal. apply IHl.
      * intros c0 H0. apply Hs. now right.
      * intros c0 H0. apply Hc. now right.
  - unfold allHighlights. simpl. rewrite Ea. simpl.
    clear H Hs. induction cs as [|c l IHl]; [reflexivity|].
    apply Forall_cons_iff in IH. destruct IH as [IHc IH]. simpl.
    rewrite nodeId_removeNode.
    destruct (Nat.eqb_spec (nodeId c) b) as [E|E]; simpl.
    + destruct (Hc c (or_introl eq_refl) c (subnodes_self c) E) as [_ Hn].
      unfold allHighlights in Hn. rewrite Hn. simpl.
      apply IHl; auto; intros c0 H0; [apply Hc|apply Hsc]; now right.
    + unfold allHighlights in IHc.
      rewrite IHc by (try apply Hsc; try apply Hc; now left). f_equal.
      apply IHl; auto; intros c0 H0; [apply Hc|apply Hsc]; now right.
Qed.

Lemma visibleIds_ids n : incl (visibleIds n) (ids n).
Proof.
  induction n as [i y|i a cs IH|i y] using node_ind'; intros j Hj;
    try exact Hj.
  simpl in Hj. destruct (contains BANNER (classList a)); [contradiction|].
  rewrite ids_Element. destruct Hj as [<-|Hj]; [now left|right].
  apply in_flat_map in Hj. destruct Hj as (c & Hc & Hj).
  rewrite Forall_forall in IH. apply in_flat_map. exists c.
  split; auto. now apply IH.
Qed.

(** With distinct identities, what lies in a banner element is not
    visible. *)
Lemma visible_not_in_banner n bn e :
  NoDup (ids n) -> In bn (subnodes n) -> hasClass BANNER bn = true ->
  In e (ids bn) -> ~ In e (visibleIds n).
Proof.
  induction n as [i y|i a cs IH|i y] using node_ind';
    intros Hnd Hbn Hb He Hv.
  - destruct Hbn as [<-|[]]. discriminate.
  - simpl in Hv. destruct (contains BANNER (classList a)) eqn:Ea;
      [contradiction|].
    destruct Hbn as [<-|Hbn]; [simpl in Hb; congruence|].
    apply in_flat_map in Hbn. destruct Hbn as (c & Hc & Hbn).
    rewrite ids_Element in Hnd. apply NoDup_cons_iff in Hnd.
    destruct Hnd as [Hi Hnd].
    assert (Hec : In e (ids c)) by (apply (ids_subnode c bn Hbn), He).
    destruct Hv as [<-|Hv].
    + apply Hi. apply in_flat_map. eauto.
    + apply in_flat_map in Hv. destruct Hv as (c' & Hc' & Hv).
      assert (c' = c).
      { eapply NoDup_flat_map_same; eauto. now apply visibleIds_ids. }
      subst c'. rewrite Forall_forall in IH.
      apply (IH c Hc); auto. eapply NoDup_flat_map_part; eauto.
  - destruct Hbn as [<-|[]]. discriminate.
Qed.

Lemma setText_pageText e f v n :
  ~ In e (visibleIds n) ->
  pageText (setTextContent e f v n) = pageText n.
Proof.
  induction n as [i y|i a cs IH|i y] using node_ind'; intros H;
    try reflexivity.
  simpl in *. destruct (contains BANNER (classList a)) eqn:Ea.
  - destruct (i =? e); simpl; now rewrite Ea.
  - simpl in H. destruct (Nat.eqb_spec i e) as [E|E]; [tauto|].
    simpl. rewrite Ea.
    assert (Hc : forall c, In c cs -> ~ In e (visibleIds c)).
    { intros c Hc Hin. apply H. right. apply in_flat_map. eauto. }
    clear H. induction cs as [|c l IHl]; [reflexivity|].
    apply Forall_cons_iff in IH. destruct IH as [IHc IH]. simpl.
    rewrite IHc by (apply Hc; now left). f_equal.
    apply IHl; auto. intros c0 H0. apply Hc. now right.
Qed.

Lemma setText_no_highlights e f v n :
  allHighlights n = [] -> allHighlights (setTextContent e f v n) = [].
Proof.
  induction n as [i y|i a cs IH|i y] using node_ind'; intros H;
    try reflexivity.
  unfold allHighlights in *. simpl in *.
  destruct (contains HIGHLIGHT (classList a)) eqn:Ea; [discriminate|].
  simpl in H. destruct (i =? e); simpl; rewrite Ea; simpl; [reflexivity|].
  rewrite flat_map_concat_map, map_map, <- flat_map_concat_map.
  apply flat_map_nil. intros c Hc.
  rewrite Forall_forall in IH. apply (IH c Hc).
  destruct (selfOrDescendants HIGHLIGHT c) eqn:Ec; [reflexivity|].
  exfalso. assert (Hin : In n (flat_map (selfOrDescendants HIGHLIGHT) cs)).
  { apply in_flat_map. exists c. split; auto. rewrite Ec. now left. }
  rewrite H in Hin. contradiction.
Qed.

(** Setting the text of an element inside a banner changes no highlight
    element. *)
Lemma setText_highlights e f v n :
  shaped n = true -> ~ In e (visibleIds n) ->
  allHighlights (setTextContent e f v n) = allHighlights n.
Proof.
  induction n as [i y|i a cs IH|i y] using node_ind'; intros Hs H;
    try reflexivity.
  destruct (contains BANNER (classList a)) eqn:Eb.
  - rewrite (proj1 (banner_blank (Element i a cs) Hs Eb)).
    apply setText_no_highlights.
    apply (banner_blank (Element i a cs) Hs Eb).
  - simpl in H. rewrite Eb in H. simpl in H.
    destruct (Nat.eqb_spec i e) as [E|E]; [tauto|].
    assert (Hc : forall c, In c cs -> ~ In e (visibleIds c)).
    { intros c Hc Hin. apply H. right. apply in_flat_map. eauto. }
    assert (Hsc : forall c, In c cs -> shaped c = true).
    { intros c Hc'. apply (shaped_subnode (Element i a cs)); auto.
      eapply subnodes_child; eauto. apply subnodes_self. }
    assert (Hm : map (setTextContent e f v) cs = cs
                 \/ contains HIGHLIGHT (classList a) = false).
    { destruct (contains HIGHLIGHT (classList a)) eqn:Ea; [left|now right].
      simpl in Hs. rewrite Ea in Hs.
      apply andb_prop in Hs. destruct Hs as [Hs _].
      apply andb_prop in Hs. destruct Hs as [Hs _].
      rewrite forallb_forall in Hs. apply map_id_in. intros c Hin.
      specialize (Hs c Hin). destruct c; try discriminate. reflexivity. }
    simpl. destruct (Nat.eqb_spec i e); [contradiction|].
    destruct Hm as [Hm|Ea]; [now rewrite Hm|].
    unfold allHighlights. simpl. rewrite Ea. simpl.
    clear H Hs. induction cs as [|c l IHl]; [reflexivity|].
    apply Forall_cons_iff in IH. destruct IH as [IHc IH]. simpl.
    unfold allHighlights in IHc.
    rewrite IHc by (try apply Hsc; try apply Hc; now left). f_equal.
    apply IHl; auto; intros c0 H0; [apply Hc|apply Hsc]; now right.
Qed.

Lemma selfOrDescendants_subnodes c n x :
  In x (selfOrDescendants c n) -> In x (subnodes n).
Proof.
  revert x. induction n as [i y|i a cs IH|i y] using node_ind'; intros x;
    try contradiction.
  simpl. rewrite in_app_iff. intros [H|H].
  - destruct (contains c (classList a)); [|contradiction].
    destruct H as [<-|[]]. now left.
  - apply in_flat_map in H. destruct H as (k & Hk & H).
    rewrite Forall_forall in IH. right. apply in_flat_map. eauto.
Qed.

Lemma querySelector_subnode c n x :
  querySelector c n = Some x -> In (nodeId x) (ids n).
Proof.
  unfold querySelector, querySelectorAll. intros H.
  destruct n as [i y|i a cs|i y]; try discriminate.
  destruct (flat_map (selfOrDescendants c) cs) as [|z l] eqn:E;
    [discriminate|].
  injection H as ->. apply in_ids. right.
  assert (Hin : In x (flat_map (selfOrDescendants c) cs))
    by (rewrite E; now left).
  apply in_flat_map in Hin. destruct Hin as (k & Hk & Hin).
  apply in_flat_map. exists k. split; auto.
  eapply selfOrDescendants_subnodes; eauto.
Qed.

(** From the highlight elements of two elements with the same attributes
    to those below their roots. *)
Lemma highlights_below i i' a cs cs' (p : node -> bool) :
  p (Element i' a cs') = true ->
  filter p (allHighlights (Element i' a cs')) = allHighlights (Element i a cs) ->
  filter p (highlights (Element i' a cs')) = highlights (Element i a cs).
Proof.
  unfold allHighlights, highlights. simpl. intros Hp.
  destruct (contains HIGHLIGHT (classList a)); simpl; auto.
  rewrite Hp. intros H. injection H. auto.
Qed.

Lemma filter_true (A : Type) (l : list A) : filter (fun _ => true) l = l.
Proof. induction l; simpl; congruence. Qed.

(** All the nodes that bear the identity of the banner are the banner. *)
Lemma banner_nodes s b a cs :
  uniqueIds s ->
  findInForest b (forest s) = Some (Element b a cs) ->
  forall n x, In n (forest s) -> In x (subnodes n) -> nodeId x = b ->
              x = Element b a cs.
Proof.
  intros [Hnd _] Hf n x Hn Hx E. apply findInForest_Some in Hf.
  rewrite ids_forest in Hnd.
  apply (NoDup_map_eq _ _ nodeId _ x (Element b a cs) Hnd); try tauto.
  apply in_flat_map. eauto.
Qed.

(** [updateWarningBanner] leaves the page text and the highlight elements of
    the body as they are. *)
Lemma updateWarningBanner_page s :
  uniqueIds s -> forallb shaped (forest s) = true -> bannerRef s ->
  pageText (body (updateWarningBanner s)) = pageText (body s)
  /\ highlights (body (updateWarningBanner s)) = highlights (body s)
  /\ emDashCount (updateWarningBanner s) = emDashCount s.
Proof.
  intros Hu Hs Hb. pose proof Hu as [Hnd _].
  assert (Hsb : shaped (body s) = true).
  { rewrite forallb_forall in Hs. apply Hs. now left. }
  unfold updateWarningBanner.
  destruct (emDashCount s =? 0) eqn:E0.
  - (* the banner goes *)
    unfold removeBanner. destruct (warningBanner s) as [b|] eqn:Eb; auto.
    destruct (Hb b Eb) as (a & cs & Hf & Hc).
    unfold remove. rewrite Hf.
    destruct (parentNode b (forest s)) as [pb|]; simpl; auto.
    assert (Hx : forall x, In x (subnodes (body s)) -> nodeId x = b ->
                   x = Element b a cs).
    { intros x. apply (banner_nodes s b a cs Hu Hf (body s)). now left. }
    assert (Hsh : shaped (Element b a cs) = true).
    { apply findInForest_Some in Hf. destruct Hf as [Hf _].
      apply in_flat_map in Hf. destruct Hf as (n1 & Hn & Hf).
      rewrite forallb_forall in Hs. apply (shaped_subnode n1); auto. }
    destruct (banner_blank _ Hsh Hc) as [B1 B2].
    splits; auto.
    + apply removeNode_pageText. intros x H1 H2.
      now rewrite (Hx x H1 H2).
    + assert (Ha : allHighlights (removeNode b (body s))
                   = allHighlights (body s)).
      { apply removeNode_highlights; auto. intros x H1 H2.
        rewrite (Hx x H1 H2). auto. }
      destruct (body s) as [i y|i a0 cs0|i y]; try reflexivity.
      rewrite <- (filter_true _ (highlights (removeNode b _))).
      apply highlights_below; auto. now rewrite filter_true.
  - destruct (warningBanner s) as [b|] eqn:Eb.
    + (* the count is rewritten *)
      destruct (Hb b Eb) as (a & cs & Hf & Hc). rewrite Hf.
      destruct (querySelector COUNT (Element b a cs)) as [countEl|] eqn:Eq;
        auto.
      unfold assignTextContent.
      destruct (findInForest (nodeId countEl) (forest s)) as [ce|];
        simpl; auto.
      assert (Hv : ~ In (nodeId countEl) (visibleIds (body s))).
      { intros Hv. apply querySelector_subnode in Eq.
        apply findInForest_Some in Hf. destruct Hf as [Hf _].
        apply in_flat_map in Hf. destruct Hf as (n & Hn & Hf).
        assert (n = body s).
        { eapply NoDup_flat_map_same;
            [exact Hnd|exact Hn|now left| |apply visibleIds_ids; exact Hv].
          apply (ids_subnode n _ Hf), Eq. }
        subst n. revert Hv.
        apply (visible_not_in_banner (body s) (Element b a cs)); auto.
        apply (NoDup_flat_map_part _ _ ids (forest s)); auto. }
      splits; auto.
      * now apply setText_pageText.
      * assert (Ha : allHighlights
                       (setTextContent (nodeId countEl) (nextId s)
                          (String_of_nat (emDashCount s)) (body s))
                     = allHighlights (body s))
          by (apply setText_highlights; auto).
        destruct (body s) as [i y|i a0 cs0|i y]; try reflexivity.
        simpl in Ha |- *. destruct (i =? nodeId countEl).
        -- rewrite <- (filter_true _ (highlights (Element i a0 _))).
           apply (highlights_below i i a0 cs0); auto.
           now rewrite filter_true.
        -- rewrite <- (filter_true _ (highlights (Element i a0 _))).
           apply (highlights_below i i a0 cs0); auto.
           now rewrite filter_true.
    + (* the banner comes *)
      simpl. destruct (body s) as [i y|i a cs|i y]; simpl; auto.
      splits; auto.
      * destruct (contains BANNER (classList a)); [reflexivity|].
        rewrite flat_map_app. simpl. now rewrite !app_nil_r.
      * unfold highlights. simpl. rewrite flat_map_app. simpl.
        now rewrite !app_nil_r.
Qed.

Lemma rootOf_setText e f v n : rootOf (setTextContent e f v n) = rootOf n.
Proof. destruct n; simpl; auto. destruct (_ =? _); reflexivity. Qed.

Lemma nodeId_rootOf n : nodeId (rootOf n) = nodeId n.
Proof. destruct n; reflexivity. Qed.

Lemma setText_children e f v n :
  nodeId n <> e ->
  map rootOf (childNodesOf (setTextContent e f v n))
  = map rootOf (childNodesOf n).
Proof.
  destruct n as [i y|i a cs|i y]; simpl; auto. intros H.
  destruct (Nat.eqb_spec i e); [contradiction|]. simpl.
  rewrite map_map. apply map_ext. intros c. apply rootOf_setText.
Qed.

Lemma existsb_rootOf b l l' :
  map rootOf l' = map rootOf l ->
  existsb (fun c => nodeId c =? b) l' = existsb (fun c => nodeId c =? b) l.
Proof.
  revert l'. induction l as [|c l IH]; intros [|c' l'] H; try discriminate;
    auto.
  simpl in *. injection H as Hc Hl. rewrite (IH l' Hl).
  rewrite <- (nodeId_rootOf c), <- (nodeId_rootOf c'), Hc. reflexivity.
Qed.

Lemma setText_absent e f v n :
  ~ In e (ids n) -> setTextContent e f v n = n.
Proof.
  induction n as [i y|i a cs IH|i y] using node_ind'; try reflexivity.
  rewrite ids_Element. simpl. intros H.
  destruct (Nat.eqb_spec i e); [tauto|]. f_equal.
  apply map_id_in. intros c Hc. rewrite Forall_forall in IH.
  apply IH; auto. intros Hin. apply H. right. apply in_flat_map. eauto.
Qed.

(** After [el.textContent = v], the element holds the one new text node. *)
Lemma setText_find e f v n x :
  NoDup (ids n) -> In x (subnodes n) -> nodeId x = e ->
  findNode e (setTextContent e f v n) = Some (setTextContent e f v x).
Proof.
  induction n as [i y|i a cs IH|i y] using node_ind'; intros Hnd Hx He.
  - destruct Hx as [<-|[]]. simpl in *. subst. simpl.
    now rewrite Nat.eqb_refl.
  - destruct (Nat.eq_dec i e) as [E|E].
    + assert (x = Element i a cs).
      { apply (NoDup_map_eq _ _ nodeId _ x (Element i a cs) Hnd); auto.
        - apply subnodes_self.
        - simpl. congruence. }
      subst x. subst i. simpl. rewrite Nat.eqb_refl. simpl.
      now rewrite Nat.eqb_refl.
    + destruct Hx as [<-|Hx]; [simpl in He; contradiction|].
      apply in_flat_map in Hx. destruct Hx as (c & Hc & Hx).
      simpl. destruct (Nat.eqb_spec i e); [contradiction|]. simpl.
      destruct (Nat.eqb_spec i e); [contradiction|].
      rewrite ids_Element in Hnd. apply NoDup_cons_iff in Hnd.
      destruct Hnd as [_ Hnd]. rewrite Forall_forall in IH.
      assert (Hec : In e (ids c)) by (rewrite <- He; now apply in_ids).
      clear n n0 E. induction cs as [|c0 l IHl]; [contradiction|].
      simpl. destruct (in_dec Nat.eq_dec e (ids c0)) as [H0|H0].
      * assert (c0 = c).
        { eapply NoDup_flat_map_same;
            [exact Hnd|now left|exact Hc|exact H0|exact Hec]. }
        subst c0. rewrite (IH c Hc); auto.
        eapply NoDup_flat_map_part; eauto.
      * rewrite (setText_absent e f v c0 H0).
        rewrite (proj2 (findNode_None e c0) H0).
        destruct Hc as [->|Hc]; [contradiction|].
        apply IHl; auto.
        -- intros c1 H1. apply IH. now right.
        -- simpl in Hnd. exact (NoDup_app_remove_l _ _ Hnd).
  - destruct Hx as [<-|[]]. simpl in *. subst. simpl.
    now rewrite Nat.eqb_refl.
Qed.

Lemma setText_find_forest e f v l x :
  NoDup (flat_map ids l) -> In x (flat_map subnodes l) -> nodeId x = e ->
  forall rest,
    findInForest e (map (setTextContent e f v) l ++ rest)
    = Some (setTextContent e f v x).
Proof.
  intros Hnd Hx He rest. unfold findInForest. rewrite firstSome_app.
  apply in_flat_map in Hx. destruct Hx as (t & Ht & Hx).
  assert (Het : In e (ids t)) by (rewrite <- He; now apply in_ids).
  induction l as [|t0 l IHl]; [contradiction|]. simpl.
  destruct (in_dec Nat.eq_dec e (ids t0)) as [H0|H0].
  - assert (t0 = t).
    { eapply NoDup_flat_map_same;
        [exact Hnd|now left|exact Ht|exact H0|exact Het]. }
    subst t0. rewrite (setText_find e f v t x); auto.
    eapply NoDup_flat_map_part; eauto.
  - rewrite (setText_absent e f v t0 H0).
    rewrite (proj2 (findNode_None e t0) H0).
    destruct Ht as [->|Ht]; [contradiction|].
    apply IHl; auto. simpl in Hnd. exact (NoDup_app_remove_l _ _ Hnd).
Qed.

Lemma querySelector_child c n x :
  querySelector c n = Some x ->
  In x (subnodes n) /\ In (nodeId x) (childIds n)
  /\ hasClass c x = true.
Proof.
  unfold querySelector, querySelectorAll. intros H.
  destruct n as [i y|i a cs|i y]; try discriminate.
  destruct (flat_map (selfOrDescendants c) cs) as [|z l] eqn:E;
    [discriminate|].
  injection H as ->.
  assert (Hin : In x (flat_map (selfOrDescendants c) cs))
    by (rewrite E; now left).
  apply in_flat_map in Hin. destruct Hin as (k & Hk & Hin).
  assert (Hs : In x (subnodes k))
    by (eapply selfOrDescendants_subnodes; eauto).
  splits.
  - right. apply in_flat_map. eauto.
  - apply (in_childIds (Element i a cs) k x); auto.
  - clear - Hin. revert x Hin.
    induction k as [j y|j b ds IH|j y] using node_ind'; intros x Hin;
      try contradiction.
    simpl in Hin. apply in_app_or in Hin. destruct Hin as [Hin|Hin].
    + destruct (contains c (classList b)) eqn:Eb; [|contradiction].
      destruct Hin as [<-|[]]. exact Eb.
    + apply in_flat_map in Hin. destruct Hin as (k' & Hk' & Hin).
      rewrite Forall_forall in IH. eauto.
Qed.

(** What lies below a node of the forest is not the root of the body. *)
Lemma body_not_below s n e :
  uniqueIds s -> In n (flat_map subnodes (forest s)) ->
  In e (childIds n) -> nodeId (body s) <> e.
Proof.
  intros [Hnd _] Hn He E. apply in_flat_map in Hn.
  destruct Hn as (t & Ht & Hn).
  assert (Het : In e (childIds t)) by (apply (childIds_subnode t n Hn), He).
  assert (t = body s).
  { eapply NoDup_flat_map_same; [exact Hnd|exact Ht|now left| |].
    - rewrite ids_cons. right. exact Het.
    - rewrite ids_cons. left. exact E. }
  subst t. assert (Hb : NoDup (ids (body s))).
  { eapply NoDup_flat_map_part; eauto. }
  rewrite ids_cons in Hb. apply NoDup_cons_iff in Hb.
  destruct Hb as [Hb _]. apply Hb. now rewrite E.
Qed.

End BannerFacts.

(** ** Facts on a full scan *)

Module PageFacts.

Import Dom Page Props DomFacts ScanFacts BannerFacts.

Lemma list_sum_flat_map (A B : Type) (f : B -> nat) (g : A -> list B) l :
  list_sum (map f (flat_map g l))
  = list_sum (map (fun x => list_sum (map f (g x))) l).
Proof.
  induction l as [|x l IH]; simpl; [reflexivity|].
  now rewrite map_app, list_sum_app, IH.
Qed.

Lemma no_dash_walker n :
  includes EM_DASH (descendantText n) = false -> walkerNodes n = [].
Proof.
  intros H. destruct (walkerNodes n) as [|[t d] l] eqn:E; [reflexivity|].
  assert (Hin : In (t, d) (walkerNodes n)) by (rewrite E; now left).
  apply walker_in in Hin. destruct Hin as (Hin & Hd & _).
  rewrite (text_in_descendantText EM_DASH n t d Hin Hd) in H. discriminate.
Qed.

Lemma descendantText_child c cs :
  In c cs -> includes EM_DASH (flat_map descendantText cs) = false ->
  includes EM_DASH (descendantText c) = false.
Proof.
  induction cs as [|x l IH]; simpl; [contradiction|].
  rewrite JSFacts.includes_app. intros [->|H] E;
    apply orb_false_elim in E; destruct E; auto.
Qed.

(** In a well-shaped tree the walker accepts exactly the text outside
    highlight and banner elements. *)
Lemma dashes_scannable n :
  shaped n = true -> isElement n = true -> dashesOutside n = scannable n.
Proof.
  unfold scannable.
  induction n as [i y|i a cs IH|i y] using node_ind'; try discriminate.
  intros Hs _. rewrite walkerNodes_Element. simpl dashesOutside.
  rewrite list_sum_flat_map.
  simpl in Hs. apply andb_prop in Hs. destruct Hs as [Hs Hsc].
  apply andb_prop in Hs. destruct Hs as [Hh Hb].
  rewrite forallb_forall in Hsc. rewrite Forall_forall in IH.
  destruct (ours a) eqn:Eo.
  - (* nothing is accepted inside one of the script's own elements *)
    assert (Hn : forall c, In c cs -> walkChild a c = []).
    { intros c Hc. unfold ours in Eo.
      destruct (contains HIGHLIGHT (classList a)) eqn:E1.
      - rewrite forallb_forall in Hh. specialize (Hh c Hc).
        destruct c; try discriminate. simpl. unfold acceptNode, ours.
        now rewrite E1.
      - simpl in Eo. rewrite Eo in Hb.
        apply andb_prop in Hb. destruct Hb as [Hb _].
        apply andb_prop in Hb. destruct Hb as [_ Hb].
        apply negb_true_iff in Hb.
        destruct c as [j y|j b ds|j y].
        + simpl. unfold acceptNode, ours. rewrite E1, Eo. reflexivity.
        + change (walkerNodes (Element j b ds) = []).
          apply no_dash_walker. eapply descendantText_child; eauto.
        + reflexivity. }
    clear - Hn. induction cs as [|c l IHl]; [reflexivity|]. simpl.
    rewrite (Hn c) by (now left). simpl. apply IHl. intros c0 H0.
    apply Hn. now right.
  - f_equal. apply map_ext_in. intros c Hc.
    destruct c as [j y|j b ds|j y].
    + simpl. unfold acceptNode. rewrite Eo. simpl.
      rewrite JSFacts.includes_occurrences.
      destruct (occurrences EM_DASH y) eqn:E; simpl; rewrite ?E; lia.
    + apply (IH _ Hc); auto.
    + reflexivity.
Qed.

Lemma findInForest_body s :
  findInForest (nodeId (body s)) (forest s) = Some (body s).
Proof.
  unfold findInForest, forest. simpl.
  destruct (body s); simpl; now rewrite Nat.eqb_refl.
Qed.

(** A full scan of a well-formed page. *)
Lemma scanPage_spec s :
  wellFormed s ->
  emDashCount (scanPage s) = dashesOutside (body s)
  /\ List.length (highlights (body (scanPage s)))
     = List.length (highlights (body s)) + dashesOutside (body s)
  /\ pageText (body (scanPage s)) = pageText (body s)
  /\ scans (scanPage s) = S (scans s).
Proof.
  intros [Hu Hbody Hs Hb].
  set (s0 := set_emDashCount 0 (set_scans (S (scans s)) s)).
  assert (Hu0 : uniqueIds s0) by exact Hu.
  assert (Hs0 : forallb shaped (forest s0) = true) by exact Hs.
  destruct (body s) as [|i a cs|] eqn:Ebody; try contradiction.
  simpl in Hbody.
  assert (Hfind : findInForest i (forest s0) = Some (Element i a cs)).
  { pose proof (findInForest_body s) as H. rewrite Ebody in H. exact H. }
  assert (Hskip : existsb (String.eqb (tagName a)) skipTags = false)
    by (rewrite Hbody; reflexivity).
  assert (Hd : dashesOutside (Element i a cs) = scannable (Element i a cs)).
  { apply dashes_scannable; auto. rewrite forallb_forall in Hs.
    apply Hs. unfold forest. rewrite Ebody. now left. }
  destruct (walk_loop (walkerNodes (Element i a cs)) s0 i (Element i a cs)
              Hu0 Hs0 Hfind eq_refl)
    as (W1 & W2 & (sub' & W3 & W4 & W5) & W6 & W7 & W8 & W9 & W10 & W11
        & W12 & W13).
  rewrite <- (walkTextNodes_eq s0 i i a cs Hfind Hskip) in *.
  set (s1 := walkTextNodes i s0) in *.
  assert (Hb0 : body s0 = Element i a cs) by exact Ebody.
  specialize (W5 (eq_sym Hb0)). specialize (W11 (eq_sym Hb0)).
  rewrite Hb0 in W9, W10, W11.
  destruct (W12 i a cs Hfind) as (cs' & Hf1).
  assert (Hb1 : body s1 = Element i a cs') by congruence.
  set (s2 := if 0 <? emDashCount s1 then injectSparkleSvg s1 else s1).
  assert (Hf2 : forest s2 = forest s1).
  { unfold s2, injectSparkleSvg.
    destruct (0 <? emDashCount s1); [|reflexivity].
    destruct (svgInjected s1); reflexivity. }
  assert (Hc2 : emDashCount s2 = emDashCount s1).
  { unfold s2, injectSparkleSvg.
    destruct (0 <? emDashCount s1); [|reflexivity].
    destruct (svgInjected s1); reflexivity. }
  assert (Hbn2 : body s2 = body s1) by (injection Hf2; auto).
  assert (Hu2 : uniqueIds s2).
  { destruct W1 as [A B]. split; rewrite Hf2; auto.
    unfold s2, injectSparkleSvg.
    destruct (0 <? emDashCount s1); [|exact B].
    destruct (svgInjected s1); exact B. }
  destruct (sameScan_fields s0 s1 W6) as (Fb & Fs & _).
  assert (Hr2 : bannerRef s2).
  { intros b Hwb.
    assert (Hwb0 : warningBanner s0 = Some b).
    { rewrite <- Fb. unfold s2, injectSparkleSvg in Hwb.
      destruct (0 <? emDashCount s1); [|exact Hwb].
      destruct (svgInjected s1); exact Hwb. }
    destruct (Hb b Hwb0) as (ab & cb & Hfb & Hcb).
    destruct (W12 b ab cb Hfb) as (cb' & Hfb').
    exists ab, cb'. rewrite Hf2. auto. }
  assert (Hs2 : forallb shaped (forest s2) = true) by (rewrite Hf2; auto).
  destruct (updateWarningBanner_page s2 Hu2 Hs2 Hr2) as (U1 & U2 & U3).
  assert (Hscan : scanPage s = updateWarningBanner s2).
  { unfold scanPage. cbv zeta.
    change (body (set_emDashCount 0 (set_scans (S (scans s)) s)))
      with (body s).
    rewrite Ebody. reflexivity. }
  rewrite Hscan.
  rewrite U1, U2, U3, Hbn2, Hc2, W7, Hd. unfold scannable.
  splits.
  - reflexivity.
  - rewrite Hb1 in *. unfold allHighlights, highlights in *. simpl in W11.
    rewrite !length_app in W11. simpl.
    destruct (contains HIGHLIGHT (classList a)); simpl in W11; lia.
  - rewrite Hb1 in *. exact W9.
  - unfold updateWarningBanner, removeBanner, remove, assignTextContent.
    assert (scans s2 = S (scans s)).
    { change (S (scans s)) with (scans s0). rewrite <- Fs.
      unfold s2, injectSparkleSvg.
      destruct (0 <? emDashCount s1); [|reflexivity].
      destruct (svgInjected s1); reflexivity. }
    repeat match goal with
           | |- context [match ?x with _ => _ end] => destruct x
           end; assumption.
Qed.

Lemma distinct_NoDup l : distinct l = true -> NoDup l.
Proof.
  induction l as [|x r IH]; simpl; intros H; constructor.
  - apply andb_prop in H. destruct H as [H _].
    apply negb_true_iff in H. intros Hin.
    assert (existsb (Nat.eqb x) r = true); [|congruence].
    apply existsb_exists. exists x. split; auto. apply Nat.eqb_refl.
  - apply IH. apply andb_prop in H. tauto.
Qed.

Lemma wellFormedb_sound s : wellFormedb s = true -> wellFormed s.
Proof.
  unfold wellFormedb. intros H.
  apply andb_prop in H. destruct H as [H H5].
  apply andb_prop in H. destruct H as [H H4].
  apply andb_prop in H. destruct H as [H H3].
  apply andb_prop in H. destruct H as [H1 H2].
  split; auto.
  - split; [now apply distinct_NoDup|].
    apply Forall_forall. intros i Hi. rewrite forallb_forall in H2.
    apply Nat.ltb_lt. auto.
  - destruct (body s); try discriminate. simpl.
    now apply String.eqb_eq.
  - intros b Hb. rewrite Hb in H5.
    destruct (findInForest b (forest s)) as [[| i a cs |]|]; try discriminate.
    apply andb_prop in H5. destruct H5 as [E H5].
    apply Nat.eqb_eq in E. subst i. eauto.
Qed.

End PageFacts.


(** ** Facts on the teardown *)

Module TeardownFacts.

Import Dom Page Props.

Lemma filter_filter (A : Type) (p q : A -> bool) l :
  filter p (filter q l) = filter q (filter p l).
Proof.
  induction l as [|x l IH]; simpl; [reflexivity|].
  destruct (p x) eqn:Ep, (q x) eqn:Eq; simpl; rewrite ?Ep, ?Eq, IH;
    reflexivity.
Qed.

Lemma filter_idem (A : Type) (p : A -> bool) l :
  filter p (filter p l) = filter p l.
Proof.
  induction l as [|x l IH]; simpl; [reflexivity|].
  destruct (p x) eqn:Ep; simpl; rewrite ?Ep, IH; reflexivity.
Qed.

Lemma keptListeners_idem l : keptListeners (keptListeners l) = keptListeners l.
Proof.
  unfold keptListeners.
  rewrite (filter_filter _
             (fun x => negb (sameListener "popstate" DebouncedRescan x))).
  now rewrite !filter_idem.
Qed.

(** [remove] acts on the trees only. *)
Lemma remove_frame i s :
  remove i s
  = set_detached (detached (remove i s)) (set_body (body (remove i s)) s).
Proof.
  unfold remove.
  destruct (parentNode i (forest s)); [|destruct s; reflexivity].
  destruct (findInForest i (forest s)); destruct s; reflexivity.
Qed.

Lemma removeBanner_frame s :
  removeBanner s
  = set_warningBanner None
      (set_detached (detached (removeBanner s))
         (set_body (body (removeBanner s)) s))
  \/ (warningBanner s = None /\ removeBanner s = s).
Proof.
  unfold removeBanner. destruct (warningBanner s) as [b|]; [left|now right].
  rewrite (remove_frame b s) at 1. reflexivity.
Qed.

Lemma cleanup_unhooked s : cleanup s = removeBanner (unhooked s).
Proof. reflexivity. Qed.

Lemma unhooked_fields s :
  debounceTimeout (unhooked s) = None
  /\ mutationObserver (unhooked s) = None
  /\ historyPatched (unhooked s) = false
  /\ warningBanner (unhooked s) = warningBanner s
  /\ timers (unhooked s)
     = match debounceTimeout s with
       | Some t => filter (fun x => negb (x =? t)) (timers s)
       | None => timers s
       end
  /\ observing (unhooked s)
     = match mutationObserver s with
       | Some o => filter (fun x => negb (x =? o)) (observing s)
       | None => observing s
       end
  /\ pushState (unhooked s)
     = (if historyPatched s then BoundOriginal else pushState s)
  /\ replaceState (unhooked s)
     = (if historyPatched s then BoundOriginal else replaceState s)
  /\ scans (unhooked s) = scans s
  /\ emDashCount (unhooked s) = emDashCount s
  /\ entries (unhooked s) = entries s
  /\ listeners (unhooked s) = keptListeners (listeners s)
  /\ forest (unhooked s) = forest s
  /\ nextId (unhooked s) = nextId s.
Proof.
  destruct s as [inj n wb mo dt hp b d ni rs rnd rc tm nt ob no ls ps rp en
                 sc sw].
  unfold unhooked, cancel. cbn.
  destruct dt, mo, hp; cbn; repeat split; reflexivity.
Qed.

(** The script's variables and the host's registrations after [cleanup]. *)
Lemma cleanup_fields s :
  debounceTimeout (cleanup s) = None
  /\ mutationObserver (cleanup s) = None
  /\ historyPatched (cleanup s) = false
  /\ warningBanner (cleanup s) = None
  /\ timers (cleanup s)
     = match debounceTimeout s with
       | Some t => filter (fun x => negb (x =? t)) (timers s)
       | None => timers s
       end
  /\ observing (cleanup s)
     = match mutationObserver s with
       | Some o => filter (fun x => negb (x =? o)) (observing s)
       | None => observing s
       end
  /\ pushState (cleanup s)
     = (if historyPatched s then BoundOriginal else pushState s)
  /\ replaceState (cleanup s)
     = (if historyPatched s then BoundOriginal else replaceState s)
  /\ scans (cleanup s) = scans s
  /\ emDashCount (cleanup s) = emDashCount s
  /\ entries (cleanup s) = entries s
  /\ listeners (cleanup s) = keptListeners (listeners s).
Proof.
  rewrite cleanup_unhooked.
  destruct (unhooked_fields s)
    as (H1 & H2 & H3 & H4 & H5 & H6 & H7 & H8 & H9 & H10 & H11 & H12 & _).
  destruct (removeBanner_frame (unhooked s)) as [E|[Hn E]]; rewrite E.
  - cbn. repeat split; assumption.
  - repeat split; assumption.
Qed.

Lemma cleanup_listeners s : listeners (cleanup s) = keptListeners (listeners s).
Proof. apply cleanup_fields. Qed.

(** A second [cleanup] finds nothing left to undo. *)
Lemma cleanup_twice s : cleanup (cleanup s) = cleanup s.
Proof.
  destruct (cleanup_fields s) as (H1 & H2 & H3 & H4 & _).
  pose proof (cleanup_listeners s) as HL.
  remember (cleanup s) as c eqn:Ec. clear Ec.
  unfold cleanup, cancel, removeBanner. rewrite H1. simpl.
  rewrite H2. simpl. rewrite H3. simpl. rewrite H4.
  unfold removeEventListener. simpl.
  fold (keptListeners (listeners c)).
  rewrite HL, keptListeners_idem. rewrite <- HL.
  destruct c; reflexivity.
Qed.

Lemma sameListener_callback ty h l :
  sameListener ty h l = true -> callback l = h /\ evType l = ty.
Proof.
  unfold sameListener. intros H. apply andb_prop in H. destruct H as [H1 H2].
  apply String.eqb_eq in H1. split; auto.
  destruct (callback l), h; auto; discriminate.
Qed.

Lemma sameListener_refl l : sameListener (evType l) (callback l) l = true.
Proof.
  unfold sameListener. rewrite String.eqb_refl. now destruct (callback l).
Qed.

Lemma filter_all_out (A : Type) (p : A -> bool) l :
  (forall x, In x l -> p x = false) -> filter p l = [].
Proof.
  induction l as [|x l IH]; simpl; intros H; [reflexivity|].
  rewrite (H x) by auto. apply IH. auto.
Qed.

(** After [cleanup] nothing is left that could start a rescan. *)
Lemma cleanup_quiet s : tracked s -> quiet (cleanup s).
Proof.
  intros [Ht Ho Hl Hp Hr].
  destruct (cleanup_fields s)
    as (_ & _ & _ & _ & F5 & F6 & F7 & F8 & _ & _ & _ & F12).
  split.
  - rewrite F5. destruct (debounceTimeout s) as [t|] eqn:E.
    + apply filter_all_out. intros x Hx. apply Ht in Hx.
      injection Hx as ->. now rewrite Nat.eqb_refl.
    + destruct (timers s) as [|x l]; [reflexivity|].
      specialize (Ht x (or_introl eq_refl)). discriminate.
  - rewrite F6. destruct (mutationObserver s) as [o|] eqn:E.
    + apply filter_all_out. intros x Hx. apply Ho in Hx.
      injection Hx as ->. now rewrite Nat.eqb_refl.
    + destruct (observing s) as [|x l]; [reflexivity|].
      specialize (Ho x (or_introl eq_refl)). discriminate.
  - intros l Hin. rewrite F12 in Hin. unfold keptListeners in Hin.
    apply filter_In in Hin. destruct Hin as [Hin H2].
    apply filter_In in Hin. destruct Hin as [Hin H1].
    destruct (callback l) eqn:Ec; [|reflexivity]. exfalso.
    destruct (Hl l Hin Ec) as [E|E]; unfold sameListener in H1, H2;
      rewrite E, Ec in *; discriminate.
  - rewrite F7. destruct (historyPatched s); [discriminate|auto].
  - rewrite F8. destruct (historyPatched s); [discriminate|auto].
Qed.

Lemma quiet_cleanup s :
  quiet s -> quiet (cleanup s) /\ scans (cleanup s) = scans s.
Proof.
  intros [Ht Ho Hl Hp Hr].
  destruct (cleanup_fields s)
    as (_ & _ & _ & _ & F5 & F6 & F7 & F8 & F9 & _ & _ & F12).
  split; [split|exact F9].
  - rewrite F5, Ht. now destruct (debounceTimeout s).
  - rewrite F6, Ho. now destruct (mutationObserver s).
  - intros l Hin. rewrite F12 in Hin. unfold keptListeners in Hin.
    apply filter_In in Hin. destruct Hin as [Hin _].
    apply filter_In in Hin. destruct Hin as [Hin _]. auto.
  - rewrite F7. destruct (historyPatched s); [discriminate|auto].
  - rewrite F8. destruct (historyPatched s); [discriminate|auto].
Qed.

Lemma quiet_invoke l s :
  quiet s -> quiet (invoke l s) /\ scans (invoke l s) = scans s.
Proof.
  intros Hq. unfold invoke.
  destruct (existsb _ (listeners s)) eqn:E; [|auto].
  apply existsb_exists in E. destruct E as (l' & Hin & E).
  apply sameListener_callback in E. destruct E as [E _].
  rewrite <- E, (q_listeners Hq l' Hin). simpl.
  assert (Hq' : quiet (if once l
                       then removeEventListener (evType l) Cleanup s
                       else s)).
  { destruct (once l); [|exact Hq]. destruct Hq as [Ht Ho Hl Hp Hr].
    split; auto. intros x Hx. simpl in Hx. apply filter_In in Hx.
    apply Hl. tauto. }
  destruct (quiet_cleanup _ Hq') as [H1 H2]. split; [exact H1|].
  rewrite H2. now destruct (once l).
Qed.

(** No event starts a rescan in a quiet state. *)
Lemma quiet_dispatch e s :
  quiet s -> quiet (dispatch e s) /\ scans (dispatch e s) = scans s.
Proof.
  intros Hq. pose proof Hq as [Ht Ho Hl Hp Hr].
  destruct e as [o records|ty|url|url|t|b d n]; simpl.
  - rewrite Ho. simpl. auto.
  - generalize (filter (fun l => String.eqb (evType l) ty) (listeners s)).
    intros ls. clear Ht Ho Hl Hp Hr. revert s Hq.
    induction ls as [|l ls IH]; intros s Hq; [auto|].
    unfold forEach in *. simpl.
    destruct (quiet_invoke l s Hq) as [H1 H2].
    destruct (IH _ H1) as [H3 H4]. split; [exact H3|congruence].
  - unfold callPushState.
    destruct (pushState s) eqn:E; try contradiction;
      (split; [split; auto; simpl; now rewrite E|reflexivity]).
  - unfold callReplaceState.
    destruct (replaceState s) eqn:E; try contradiction;
      (split; [split; auto; simpl; now rewrite E|reflexivity]).
  - rewrite Ht. simpl. auto.
  - split; [split; auto|reflexivity].
Qed.

Lemma quiet_run es : forall s,
  quiet s -> quiet (run es s) /\ scans (run es s) = scans s.
Proof.
  unfold run, forEach.
  induction es as [|e es IH]; intros s Hq; [auto|]. simpl.
  destruct (quiet_dispatch e s Hq) as [H1 H2].
  destruct (IH _ H1) as [H3 H4]. split; [exact H3|congruence].
Qed.

(** [removeNode] leaves no node of that identity below the root. *)
Lemma removeNode_gone b n : ~ In b (childIds (removeNode b n)).
Proof.
  induction n as [i y|i a cs IH|i y] using DomFacts.node_ind';
    try (intros []).
  unfold childIds. simpl. intros H. apply in_flat_map in H.
  destruct H as (c & Hc & H). apply filter_In in Hc. destruct Hc as [Hc Hb].
  apply in_map_iff in Hc. destruct Hc as (c0 & <- & Hc0).
  rewrite DomFacts.ids_cons in H. destruct H as [H|H].
  - apply negb_true_iff, Nat.eqb_neq in Hb. contradiction.
  - rewrite Forall_forall in IH. apply (IH c0 Hc0 H).
Qed.

(** Once [removeBanner] has run, the banner is out of the document. *)
Lemma removeBanner_gone s b :
  warningBanner s = Some b -> ~ In b (childIds (body (removeBanner s))).
Proof.
  intros Hb. unfold removeBanner, remove. rewrite Hb.
  destruct (parentNode b (forest s)) as [p|] eqn:Ep.
  - destruct (findInForest b (forest s)) as [n|] eqn:Ef.
    + simpl. apply removeNode_gone.
    + exfalso. apply DomFacts.findInForest_None in Ef. apply Ef.
      assert (Hin : In b (flat_map childIds (forest s)))
        by (apply DomFacts.parentNode_Some; eauto).
      apply in_flat_map in Hin. destruct Hin as (t & Ht & Hin).
      apply in_flat_map. exists t. split; auto.
      rewrite DomFacts.ids_cons. now right.
  - simpl. intros Hin.
    assert (H : exists p, parentNode b (forest s) = Some p).
    { apply DomFacts.parentNode_Some. apply in_flat_map.
      exists (body s). split; [now left|exact Hin]. }
    destruct H as [p Hp]. congruence.
Qed.

Lemma trackedb_sound s : trackedb s = true -> tracked s.
Proof.
  unfold trackedb. intros H.
  apply andb_prop in H. destruct H as [H H4].
  apply andb_prop in H. destruct H as [H H3].
  apply andb_prop in H. destruct H as [H1 H2].
  rewrite forallb_forall in H1, H2, H3. split.
  - intros t Ht. specialize (H1 t Ht).
    destruct (debounceTimeout s); [|discriminate].
    apply Nat.eqb_eq in H1. now subst.
  - intros o Ho. specialize (H2 o Ho).
    destruct (mutationObserver s); [|discriminate].
    apply Nat.eqb_eq in H2. now subst.
  - intros l Hl Hc. specialize (H3 l Hl). rewrite Hc in H3.
    apply orb_prop in H3. destruct H3 as [E|E]; apply String.eqb_eq in E;
      auto.
  - intros Hp. rewrite Hp in H4. simpl in H4.
    apply andb_prop in H4. destruct H4 as [H4 _].
    destruct (pushState s); discriminate.
  - intros Hp. rewrite Hp in H4. simpl in H4.
    apply andb_prop in H4. destruct H4 as [_ H4].
    destruct (replaceState s); discriminate.
Qed.

End TeardownFacts.

(** ** Facts on the counter *)

Module CounterFacts.

Import Dom Page Props DomFacts ScanFacts BannerFacts PageFacts TeardownFacts.

Lemma highlightTextNode_count s t :
  emDashCount s <= emDashCount (highlightTextNode t s).
Proof.
  unfold highlightTextNode.
  destruct (findInForest t (forest s)) as [[i d| |]|]; auto.
  destruct (includes EM_DASH d); simpl; auto.
  destruct (buildFragment _ _) as [frag s2] eqn:Eb.
  destruct (buildFragment_spec _ _ _ _ (JSFacts.split_pieces EM_DASH d) Eb)
    as (_ & _ & _ & _ & _ & H7).
  unfold sameBut in H7.
  assert (Hc : emDashCount s <= emDashCount s2)
    by (rewrite H7; simpl; lia).
  destruct (parentNode t (forest s2)); simpl; exact Hc.
Qed.

Lemma forEach_count (A : Type) (f : A -> State -> State) l :
  (forall x s, emDashCount s <= emDashCount (f x s)) ->
  forall s, emDashCount s <= emDashCount (forEach f l s).
Proof.
  intros Hf. unfold forEach.
  induction l as [|x l IH]; intros s; simpl; [lia|].
  specialize (Hf x s). specialize (IH (f x s)). lia.
Qed.

Lemma walkTextNodes_count s el :
  emDashCount s <= emDashCount (walkTextNodes el s).
Proof.
  unfold walkTextNodes.
  destruct (findInForest el (forest s)) as [[| i a cs |]|]; auto.
  destruct (existsb _ skipTags); auto.
  apply forEach_count. intros x s0. apply highlightTextNode_count.
Qed.

Lemma assignTextContent_count el v s :
  emDashCount (assignTextContent el v s) = emDashCount s.
Proof.
  unfold assignTextContent. now destruct (findInForest el (forest s)).
Qed.

Lemma removeBanner_count s : emDashCount (removeBanner s) = emDashCount s.
Proof.
  unfold removeBanner, remove. destruct (warningBanner s); auto.
  destruct (parentNode _ _); auto. destruct (findInForest _ _); auto.
Qed.

Lemma updateWarningBanner_count s :
  emDashCount (updateWarningBanner s) = emDashCount s.
Proof.
  unfold updateWarningBanner.
  destruct (emDashCount s =? 0); [apply removeBanner_count|].
  destruct (warningBanner s); auto.
  destruct (findInForest _ _); auto.
  destruct (querySelector _ _); auto. apply assignTextContent_count.
Qed.

Lemma debouncedRescan_count s : emDashCount (debouncedRescan s) = emDashCount s.
Proof. unfold debouncedRescan. now destruct (debounceTimeout s). Qed.

Lemma onAdded_count i f s :
  emDashCount s <= emDashCount (snd (onAdded i (f, s))).
Proof.
  unfold onAdded.
  destruct (findInForest i (forest s)) as [[j d| j a cs |]|]; simpl; auto.
  - destruct (includes EM_DASH d); simpl; auto.
    apply highlightTextNode_count.
  - destruct (contains HIGHLIGHT (classList a)); simpl; auto.
    destruct (contains BANNER (classList a)); simpl; auto.
    apply walkTextNodes_count.
Qed.

Lemma onRemoved_state i acc : snd (onRemoved i acc) = snd acc.
Proof.
  destruct acc as [f s]. unfold onRemoved.
  destruct (findInForest i (forest s)) as [[| j a cs |]|]; auto.
  destruct (hasClass BANNER _); auto.
  destruct (containsHighlights _); auto.
Qed.

Lemma onMutation_count m acc :
  emDashCount (snd acc) <= emDashCount (snd (onMutation m acc)).
Proof.
  unfold onMutation.
  assert (H1 : forall l a, snd (fold_left (fun a i => onRemoved i a) l a)
                           = snd a).
  { induction l as [|i l IH]; intros a; simpl; auto.
    now rewrite IH, onRemoved_state. }
  assert (H2 : forall l a, emDashCount (snd a)
            <= emDashCount (snd (fold_left (fun a i => onAdded i a) l a))).
  { induction l as [|i l IH]; intros a; simpl; auto.
    specialize (IH (onAdded i a)). destruct a as [f s].
    eapply Nat.le_trans; [apply (onAdded_count i f s)|exact IH]. }
  specialize (H2 (addedNodes m)
                 (fold_left (fun a i => onRemoved i a) (removedNodes m) acc)).
  rewrite H1 in H2. exact H2.
Qed.

(** The observer's callback never lowers the counter. *)
Lemma mutationCallback_count records s :
  emDashCount s <= emDashCount (mutationCallback records s).
Proof.
  unfold mutationCallback.
  assert (H : forall l a, emDashCount (snd a)
            <= emDashCount (snd (fold_left (fun a m => onMutation m a) l a))).
  { induction l as [|m l IH]; intros a; simpl; auto.
    specialize (IH (onMutation m a)).
    eapply Nat.le_trans; [apply (onMutation_count m a)|exact IH]. }
  specialize (H records
                ({| needsUpdate := false; needsFullRescan := false |}, s)).
  destruct (fold_left _ records _) as [f s1]. simpl in H.
  destruct (needsFullRescan f); [now rewrite debouncedRescan_count|].
  destruct (needsUpdate f); [now rewrite updateWarningBanner_count|].
  exact H.
Qed.

Lemma invoke_count l s : emDashCount (invoke l s) = emDashCount s.
Proof.
  unfold invoke. destruct (existsb _ _); auto.
  destruct (callback l); cbn [runHandler].
  - rewrite debouncedRescan_count. now destruct (once l).
  - destruct (cleanup_fields
                (if once l then removeEventListener (evType l) Cleanup s
                 else s)) as (_ & _ & _ & _ & _ & _ & _ & _ & _ & H & _).
    rewrite H. now destruct (once l).
Qed.

(** Every event but the firing of the rescan timer leaves the counter as
    it is or adds to it. *)
Lemma dispatch_count e s :
  (forall t, e <> TimerFires t) ->
  emDashCount s <= emDashCount (dispatch e s).
Proof.
  intros Hne. destruct e as [o records|ty|url|url|t|b d n];
    cbn [dispatch].
  - destruct (existsb _ _); auto. apply mutationCallback_count.
  - apply forEach_count. intros l s0. rewrite invoke_count. lia.
  - unfold callPushState. destruct (pushState s);
      rewrite ?debouncedRescan_count; simpl; auto.
  - unfold callReplaceState. destruct (replaceState s);
      rewrite ?debouncedRescan_count; simpl; auto.
  - exfalso. now apply (Hne t).
  - simpl. auto.
Qed.

Lemma mutationCallback_added s el i a cs :
  findInForest el (forest s) = Some (Element i a cs) ->
  contains HIGHLIGHT (classList a) = false ->
  contains BANNER (classList a) = false ->
  mutationCallback [{| addedNodes := [el]; removedNodes := [] |}] s
  = updateWarningBanner (walkTextNodes el s).
Proof.
  intros Hf Hh Hb. unfold mutationCallback, onMutation. simpl.
  unfold onAdded. rewrite Hf. simpl. rewrite Hh, Hb. reflexivity.
Qed.

(** The scan of one added element on a well-formed page. *)
Lemma added_element_spec s el i a cs :
  wellFormed s ->
  findInForest el (forest s) = Some (Element i a cs) ->
  existsb (String.eqb (tagName a)) skipTags = false ->
  contains HIGHLIGHT (classList a) = false ->
  contains BANNER (classList a) = false ->
  emDashCount
    (mutationCallback [{| addedNodes := [el]; removedNodes := [] |}] s)
  = emDashCount s + dashesOutside (Element i a cs)
  /\ filter (fun h => nodeId h <? nextId s)
       (highlights
          (body (mutationCallback
                   [{| addedNodes := [el]; removedNodes := [] |}] s)))
     = highlights (body s).
Proof.
  intros [Hu Hbody Hs Hb] Hf Hk Hh Hbn.
  rewrite (mutationCallback_added s el i a cs Hf Hh Hbn).
  assert (Hd : dashesOutside (Element i a cs) = scannable (Element i a cs)).
  { apply dashes_scannable; auto.
    apply findInForest_Some in Hf. destruct Hf as [Hf _].
    apply in_flat_map in Hf. destruct Hf as (n & Hn & Hf).
    rewrite forallb_forall in Hs. apply (shaped_subnode n); auto. }
  destruct (walk_loop (walkerNodes (Element i a cs)) s el (Element i a cs)
              Hu Hs Hf eq_refl)
    as (W1 & W2 & _ & W6 & W7 & W8 & _ & W10 & _ & W12 & W13).
  rewrite <- (walkTextNodes_eq s el i a cs Hf Hk) in *.
  set (s1 := walkTextNodes el s) in *.
  destruct (sameScan_fields s s1 W6) as (Fb & _).
  assert (Hr1 : bannerRef s1).
  { intros b Hwb. rewrite Fb in Hwb.
    destruct (Hb b Hwb) as (ab & cb & Hfb & Hcb).
    destruct (W12 b ab cb Hfb) as (cb' & Hfb'). eauto. }
  destruct (updateWarningBanner_page s1 W1 W2 Hr1) as (U1 & U2 & U3).
  rewrite U2, U3, W7, Hd. split; [reflexivity|].
  destruct (body s) as [|i0 a0 cs0|] eqn:Eb; try contradiction.
  destruct (body s1) as [|i1 a1 cs1|] eqn:Eb1; try discriminate.
  simpl in W13. injection W13 as -> ->.
  apply (highlights_below i0 i0 a0 cs0 cs1); auto.
  apply Nat.ltb_lt. destruct Hu as [_ Hlt]. rewrite Forall_forall in Hlt.
  apply Hlt. unfold forest. rewrite Eb. simpl. now left.
Qed.

Lemma assignTextContent_ref el v s :
  warningBanner (assignTextContent el v s) = warningBanner s.
Proof.
  unfold assignTextContent. now destruct (findInForest el (forest s)).
Qed.

Lemma removeBanner_ref s : warningBanner (removeBanner s) = None.
Proof. unfold removeBanner. destruct (warningBanner s) eqn:E; auto. Qed.

(** The reference the script holds after [updateWarningBanner]. *)
Lemma updateWarningBanner_ref s :
  warningBanner (updateWarningBanner s)
  = if emDashCount s =? 0 then None
    else match warningBanner s with
         | Some b => Some b
         | None => Some (nextId s)
         end.
Proof.
  unfold updateWarningBanner.
  destruct (emDashCount s =? 0); [apply removeBanner_ref|].
  destruct (warningBanner s) as [b|] eqn:E; auto.
  destruct (findInForest _ _); auto.
  destruct (querySelector _ _); auto.
  now rewrite assignTextContent_ref.
Qed.

Lemma updateWarningBanner_nextId s :
  warningBanner s <> None ->
  nextId (updateWarningBanner s) <= S (nextId s).
Proof.
  unfold updateWarningBanner, removeBanner, assignTextContent. intros H.
  destruct (emDashCount s =? 0).
  - destruct (warningBanner s); [|contradiction].
    rewrite (remove_frame n s). simpl. auto.
  - destruct (warningBanner s); [|contradiction].
    destruct (findInForest _ _); auto.
    destruct (querySelector _ _); auto.
    destruct (findInForest _ _); simpl; auto.
Qed.

(** With a banner in place and a counter that is not 0, the update is the
    assignment to the text of the count element: the children of the body are
    the nodes they were, and the count element holds the new number. *)
Lemma updateWarningBanner_in_place s b :
  uniqueIds s -> bannerRef s ->
  warningBanner s = Some b -> emDashCount s <> 0 ->
  map rootOf (childNodesOf (body (updateWarningBanner s)))
  = map rootOf (childNodesOf (body s))
  /\ forall bn ce,
       findInForest b (forest s) = Some bn ->
       querySelector COUNT bn = Some ce ->
       exists a,
         findInForest (nodeId ce) (forest (updateWarningBanner s))
         = Some (Element (nodeId ce) a
                   [Text (nextId s) (JS.String_of_nat (emDashCount s))]).
Proof.
  intros Hu Hr Hb Hc. unfold updateWarningBanner.
  apply Nat.eqb_neq in Hc. rewrite Hc, Hb.
  destruct (Hr b Hb) as (a & cs & Hf & _). rewrite Hf.
  destruct (querySelector COUNT (Element b a cs)) as [ce|] eqn:Eq.
  - destruct (querySelector_child COUNT (Element b a cs) ce Eq)
      as (Hsub & Hch & Hcls).
    pose proof (findInForest_Some b (forest s) (Element b a cs) Hf)
      as [Hin _].
    assert (Hce : In ce (flat_map subnodes (forest s))).
    { apply in_flat_map in Hin. destruct Hin as (t & Ht & Hin).
      apply in_flat_map. exists t. split; auto.
      eapply subnodes_trans; eauto. }
    assert (Hfe : findInForest (nodeId ce) (forest s) <> None).
    { intros N. apply findInForest_None in N. apply N.
      rewrite ids_forest. now apply in_map. }
    unfold assignTextContent.
    destruct (findInForest (nodeId ce) (forest s)) as [n|] eqn:En;
      [|contradiction].
    split.
    + simpl. apply setText_children.
      apply (body_not_below s (Element b a cs) (nodeId ce) Hu Hin Hch).
    + intros bn ce' Hbn Hq. injection Hbn as <-. rewrite Eq in Hq.
      injection Hq as <-.
      destruct ce as [j y|j a' cs'|j y]; try discriminate Hcls.
      exists a'. unfold forest. simpl body. simpl detached.
      destruct Hu as [Hnd _].
      pose proof (setText_find_forest j (nextId s)
                    (JS.String_of_nat (emDashCount s))
                    (body s :: detached s) (Element j a' cs') Hnd Hce
                    eq_refl (childNodesOf n)) as Hfind.
      simpl in Hfind |- *. rewrite Nat.eqb_refl in Hfind. exact Hfind.
  - split; auto. intros bn ce Hbn Hq. injection Hbn as <-.
    rewrite Eq in Hq. discriminate.
Qed.

(** The banner is a child of the body after [updateWarningBanner] exactly
    when the counter is not 0, if it was a child of the body whenever the
    script held one before. *)
Lemma updateWarningBanner_shown s :
  uniqueIds s -> isBody (body s) -> bannerRef s ->
  (warningBanner s = None \/ bannerShown s = true) ->
  bannerShown (updateWarningBanner s) = (0 <? emDashCount s).
Proof.
  intros Hu Hbody Hr Hhome.
  destruct (Nat.eq_dec (emDashCount s) 0) as [E|E].
  - unfold bannerShown. rewrite updateWarningBanner_ref, E. reflexivity.
  - assert (E1 : (0 <? emDashCount s) = true) by (apply Nat.ltb_lt; lia).
    rewrite E1. unfold bannerShown. rewrite updateWarningBanner_ref.
    assert (E0 : (emDashCount s =? 0) = false) by now apply Nat.eqb_neq.
    rewrite E0. destruct (warningBanner s) as [b|] eqn:Eb.
    + destruct Hhome as [Hn|Hs]; [discriminate|].
      unfold bannerShown in Hs. rewrite Eb in Hs.
      destruct (updateWarningBanner_in_place s b Hu Hr Eb E) as [Hk _].
      now rewrite (existsb_rootOf b _ _ Hk).
    + unfold updateWarningBanner. rewrite E0, Eb. simpl.
      destruct (body s) as [i y|i a cs|i y]; try contradiction.
      simpl. rewrite existsb_app. simpl. rewrite Nat.eqb_refl.
      now rewrite orb_true_r.
Qed.

End CounterFacts.

(** ** Facts on the development server *)

Module DevFacts.

Import DevServer.

Lemma insertByDue_In tm x l : In x (insertByDue tm l) -> x = tm \/ In x l.
Proof.
  induction l as [|y r IH]; simpl.
  - intros [<-|[]]. now left.
  - destruct (due tm <? due y); simpl.
    + intros [<-|H]; auto.
    + intros [<-|H]; auto. destruct (IH H); auto.
Qed.

Lemma byDue_In x l : In x (byDue l) -> In x l.
Proof.
  unfold byDue. assert (H : forall acc, In x (fold_left
    (fun acc tm => insertByDue tm acc) l acc) -> In x acc \/ In x l).
  { induction l as [|y r IH]; simpl; intros acc Hx; [now left|].
    destruct (IH _ Hx) as [H|H]; [|now right; right].
    apply insertByDue_In in H. destruct H as [->|H]; auto. }
  intros Hx. destruct (H [] Hx) as [[]|]; assumption.
Qed.

Lemma fire_grace tm srv :
  inGrace srv -> job tm = Notify -> fire tm srv = srv.
Proof.
  intros [Hf _ _] Hj. unfold fire, notifyBody. now rewrite Hj, Hf.
Qed.

Lemma closeAt_reloads i l :
  Forall (fun c => reloads c = 0) l ->
  Forall (fun c => reloads c = 0) (closeAt i l).
Proof.
  revert i. induction l as [|c r IH]; intros i H; [destruct i; constructor|].
  apply Forall_cons_iff in H. destruct H as [Hc Hr].
  destruct i; simpl; constructor; auto.
Qed.

(** A step that ends before the 1000th millisecond stays in the grace
    period. *)
Lemma step_grace e srv :
  inGrace srv -> now (step e srv) < 1000 ->
  inGrace (step e srv).
Proof.
  intros Hg. pose proof Hg as [Hf Hd Hc].
  destruct e as [| |i|ms]; simpl; intros Hn.
  - split; auto. simpl. intros tm Hin Hj. apply in_app_or in Hin.
    destruct Hin as [Hin|[<-|[]]]; [|discriminate].
    apply Hd; auto. destruct (notifyTimeout srv); auto.
    apply filter_In in Hin. tauto.
  - split; auto. simpl. apply Forall_app. split; auto.
  - split; auto. simpl. now apply closeAt_reloads.
  - unfold advance in *.
    set (ready := byDue (filter (fun tm => due tm <=? now srv + ms)
                                (pending srv))) in *.
    set (srv' := {| startupGrace := startupGrace srv;
                    clients := clients srv;
                    notifyTimeout := notifyTimeout srv;
                    now := now srv + ms;
                    pending := filter
                      (fun tm => negb (due tm <=? now srv + ms))
                      (pending srv);
                    nextHandle := nextHandle srv |}) in *.
    assert (Hg' : inGrace srv').
    { split; auto. simpl. intros tm Hin. apply filter_In in Hin.
      apply Hd. tauto. }
    assert (Hall : forall tm, In tm ready -> job tm = Notify \/
                                             1000 <= now srv').
    { intros tm Hin. apply byDue_In in Hin. apply filter_In in Hin.
      destruct Hin as [Hin Hdue]. apply Nat.leb_le in Hdue.
      destruct (job tm) eqn:Ej; [right|now left].
      rewrite (Hd tm Hin Ej) in Hdue. exact Hdue. }
    clearbody ready srv'. revert srv' Hg' Hall Hn.
    induction ready as [|tm r IH]; intros srv' Hg' Hall Hn; [exact Hg'|].
    simpl in *.
    assert (Hnow : forall l x, now (fold_left (fun st t => fire t st) l x)
                               = now x).
    { clear. induction l as [|t l IH]; intros x; [reflexivity|]. simpl.
      rewrite IH. unfold fire, notifyBody.
      destruct (job t); [reflexivity|]. now destruct (startupGrace x). }
    rewrite Hnow in Hn.
    destruct (Hall tm (or_introl eq_refl)) as [Hj|Hge].
    + rewrite (fire_grace tm srv' Hg' Hj) in *.
      apply IH; auto. now rewrite Hnow.
    + exfalso. unfold fire, notifyBody in Hn.
      destruct (job tm); simpl in Hn; [lia|].
      destruct (startupGrace srv'); simpl in Hn; lia.
Qed.

Lemma now_step e srv : now srv <= now (step e srv).
Proof.
  destruct e as [| |i|ms]; simpl; auto.
  unfold advance.
  assert (Hnow : forall l x, now (fold_left (fun st t => fire t st) l x)
                             = now x).
  { induction l as [|t l IH]; intros x; [reflexivity|]. simpl.
    rewrite IH. unfold fire, notifyBody.
    destruct (job t); [reflexivity|]. now destruct (startupGrace x). }
  rewrite Hnow. simpl. lia.
Qed.

Lemma now_run es : forall srv, now srv <= now (run es srv).
Proof.
  unfold run. induction es as [|e es IH]; intros srv; simpl; [lia|].
  pose proof (now_step e srv). specialize (IH (step e srv)). lia.
Qed.

Lemma run_grace es : forall srv,
  inGrace srv -> now (run es srv) < 1000 -> inGrace (run es srv).
Proof.
  unfold run. induction es as [|e es IH]; intros srv Hg Hn; [exact Hg|].
  simpl in *. apply IH; auto. apply step_grace; auto.
  pose proof (now_run es (step e srv)). unfold run in *. lia.
Qed.

Lemma boot_grace : inGrace boot.
Proof.
  split; simpl; auto. intros tm [<-|[]] _. reflexivity.
Qed.

End DevFacts.

(** ** The properties of the specification *)

Module Claims.

Import Dom Page Props Examples BannerExamples DomFacts ScanFacts BannerFacts
  PageFacts TeardownFacts CounterFacts.

(** C1, as stated, fails on the example of the specification: after the
    scan of [<body>a—b—c</body>] the counter is 2 and there are 2
    highlights, but the text content of the body is no longer ["a—b—c"]:
    the banner was appended to the body and its label and count are part
    of the body's text. *)
Lemma scanPage_text_content_grows :
  dashesOutside (body page_abc) = 2
  /\ emDashCount (scanPage page_abc) = 2
  /\ List.length (highlights (body (scanPage page_abc))) = 2
  /\ textContent (body page_abc) = text_abc
  /\ textContent (body (scanPage page_abc))
     = text_abc ++ indent 8 ++ lit "Em Dashes" ++ indent 8 ++ lit "2"
       ++ indent 6
  /\ textContent (body (scanPage page_abc)) <> textContent (body page_abc).
Proof. splits; try (vm_compute; reflexivity). vm_compute. discriminate. Qed.

(** C1, amended: on a page whose highlight and banner elements are as the
    script builds them, and whose text outside these elements holds [k]
    em-dashes, [scanPage] makes exactly [k] new highlight elements, leaves
    the counter at [k], and leaves the text of the page as it was, the text
    of the banner apart. *)
Theorem scanPage_counts (s : State) (k : nat) :
  wellFormed s ->
  dashesOutside (body s) = k ->
  List.length (highlights (body (scanPage s)))
  = List.length (highlights (body s)) + k
  /\ emDashCount (scanPage s) = k
  /\ pageText (body (scanPage s)) = pageText (body s).
Proof.
  intros Hwf <-. destruct (scanPage_spec s Hwf) as (H1 & H2 & H3 & _).
  auto.
Qed.

Lemma scanPage_counts_witness :
  List.length (highlights (body (scanPage page_abc)))
  = List.length (highlights (body page_abc)) + 2
  /\ emDashCount (scanPage page_abc) = 2
  /\ pageText (body (scanPage page_abc)) = pageText (body page_abc).
Proof.
  apply (scanPage_counts page_abc 2).
  - apply wellFormedb_sound. vm_compute. reflexivity.
  - vm_compute. reflexivity.
Defined.

(** C2: the skip list is consulted for the root of the walk only.  On
    [<body><script>x—y</script></body>] the scan of the body goes into the
    script element: its text node is replaced by a fragment with a
    highlight, and the counter is 1. *)
Theorem walk_enters_script :
  existsb (String.eqb "SCRIPT") skipTags = true
  /\ emDashCount (walkTextNodes 0 page_script) = 1
  /\ map childNodesOf (childNodesOf (body (walkTextNodes 0 page_script)))
     = [[Text 3 [120%N];
         fst (createHighlight (set_nextId 4 page_script));
         Text 6 [121%N]]]
  /\ walkTextNodes 1 page_script = page_script.
Proof. splits; vm_compute; reflexivity. Qed.

(** C3: a second scan in immediate succession finds the em-dashes of the
    first inside highlight elements and counts none of them: on
    [<body>a—b—c</body>] the counter is 2 after one scan and 0 after two,
    and the banner the first scan made is removed, while the 2 highlight
    elements stay. *)
Theorem second_scan_resets_counter :
  emDashCount (scanPage page_abc) = 2
  /\ emDashCount (scanPage (scanPage page_abc)) = 0
  /\ List.length (highlights (body (scanPage page_abc))) = 2
  /\ List.length (highlights (body (scanPage (scanPage page_abc)))) = 2
  /\ warningBanner (scanPage page_abc) = Some 9
  /\ warningBanner (scanPage (scanPage page_abc)) = None.
Proof. splits; vm_compute; reflexivity. Qed.

(** C5: only [scanPage] installs the background.  When the first match of
    the page is found by the mutation handler, in a paragraph added to an
    empty page, the em-dash is highlighted and counted and nothing is
    installed; a full scan after that finds nothing new and installs
    nothing either. *)
Theorem incremental_match_installs_nothing :
  emDashCount (run adds_paragraph page_empty) = 1
  /\ List.length (highlights (body (run adds_paragraph page_empty))) = 1
  /\ svgInjected (run adds_paragraph page_empty) = false
  /\ rootStyle (run adds_paragraph page_empty) = None
  /\ styleWrites (run adds_paragraph page_empty) = 0
  /\ rootStyle (scanPage (run adds_paragraph page_empty)) = None
  /\ rootStyle (scanPage page_abc) = Some SparkleDataUrl.
Proof. splits; vm_compute; reflexivity. Qed.

(** C7: [highlightTextNode] adds to the counter before it looks at the
    parent.  On a text node ["x—y"] that has no parent the trees stay as
    they are, and the counter goes from 0 to 1. *)
Theorem orphan_text_is_counted :
  parentNode 5 (forest page_detached) = None
  /\ emDashCount page_detached = 0
  /\ emDashCount (highlightTextNode 5 page_detached) = 1
  /\ forest (highlightTextNode 5 page_detached) = forest page_detached
  /\ emDashCount (run adds_div_then_text page_empty) = 2
  /\ List.length (highlights (body (run adds_div_then_text page_empty))) = 1.
Proof. splits; vm_compute; reflexivity. Qed.

(** The same in general: a text node with an em-dash and no parent leaves
    the trees as they are and adds its em-dashes to the counter. *)
Lemma highlightTextNode_orphan s t d :
  findInForest t (forest s) = Some (Text t d) ->
  includes EM_DASH d = true ->
  parentNode t (forest s) = None ->
  forest (highlightTextNode t s) = forest s
  /\ emDashCount (highlightTextNode t s)
     = emDashCount s + occurrences EM_DASH d.
Proof.
  intros Hf Hd Hp. unfold highlightTextNode. rewrite Hf, Hd. simpl negb.
  cbv iota. destruct (buildFragment _ _) as [frag s2] eqn:Eb.
  destruct (buildFragment_spec _ _ _ _ (JSFacts.split_pieces EM_DASH d) Eb)
    as (_ & _ & _ & _ & _ & H7).
  unfold sameBut in H7.
  assert (Hfo : forest s2 = forest s) by (rewrite H7; reflexivity).
  rewrite Hfo, Hp. split; auto.
  rewrite H7. simpl. rewrite JSFacts.split_length. simpl. lia.
Qed.

(** C8: after [cleanup] the pending rescan is cancelled, the observer is
    disconnected, the two navigation listeners are removed, the history
    entry points are the originals exactly when they had been wrapped, and
    the banner is gone from the script and from the document; from then on
    no event — mutation batches, navigation events, history calls, timers —
    runs a scan, and a call of a history entry point does what the
    browser's own function does. *)
Theorem teardown_is_final (s : State) :
  tracked s ->
  debounceTimeout (cleanup s) = None
  /\ timers (cleanup s) = []
  /\ mutationObserver (cleanup s) = None
  /\ observing (cleanup s) = []
  /\ (forall l, In l (listeners (cleanup s)) -> callback l <> DebouncedRescan)
  /\ (if historyPatched s
      then pushState (cleanup s) = BoundOriginal
           /\ replaceState (cleanup s) = BoundOriginal
      else pushState (cleanup s) = pushState s
           /\ replaceState (cleanup s) = replaceState s)
  /\ warningBanner (cleanup s) = None
  /\ (forall b, warningBanner s = Some b ->
                ~ In b (childIds (body (cleanup s))))
  /\ (forall es, scans (run es (cleanup s)) = scans (cleanup s))
  /\ (forall es url,
        callPushState url (run es (cleanup s))
        = nativePushState url (run es (cleanup s))
        /\ callReplaceState url (run es (cleanup s))
           = nativeReplaceState url (run es (cleanup s))).
Proof.
  intros Ht. pose proof (cleanup_quiet s Ht) as Hq.
  destruct (cleanup_fields s)
    as (F1 & F2 & F3 & F4 & _ & _ & F7 & F8 & _).
  splits; auto.
  - apply Hq.
  - apply Hq.
  - intros l Hl. rewrite (q_listeners Hq l Hl). discriminate.
  - rewrite F7, F8. destruct (historyPatched s); auto.
  - intros b Hb. rewrite cleanup_unhooked. apply removeBanner_gone.
    destruct (unhooked_fields s) as (_ & _ & _ & H4 & _). congruence.
  - intros es. apply (quiet_run es (cleanup s) Hq).
  - intros es url. destruct (quiet_run es (cleanup s) Hq) as [Hr _].
    unfold callPushState, callReplaceState.
    pose proof (q_push Hr). pose proof (q_replace Hr).
    destruct (pushState (run es (cleanup s))),
      (replaceState (run es (cleanup s))); try contradiction; auto.
Qed.

Lemma teardown_is_final_witness :
  timers page_navigated = [1]
  /\ pushState page_navigated = Wrapper
  /\ timers (cleanup page_navigated) = []
  /\ pushState (cleanup page_navigated) = BoundOriginal
  /\ scans (run [PushState []; WindowEvent "popstate"; TimerFires 1]
              (cleanup page_navigated))
     = scans (cleanup page_navigated).
Proof.
  assert (Ht : tracked page_navigated)
    by (apply trackedb_sound; vm_compute; reflexivity).
  destruct (teardown_is_final page_navigated Ht)
    as (_ & H2 & _ & _ & _ & H6 & _ & _ & H9 & _).
  assert (E : historyPatched page_navigated = true)
    by (vm_compute; reflexivity).
  rewrite E in H6.
  splits.
  - vm_compute. reflexivity.
  - vm_compute. reflexivity.
  - exact H2.
  - apply H6.
  - apply H9.
Defined.

(** C10: [cleanup] is idempotent: a second call changes nothing. *)
Theorem cleanup_idempotent (s : State) : cleanup (cleanup s) = cleanup s.
Proof. apply cleanup_twice. Qed.

(** C9, as stated, fails: the mutation watcher of the content script has
    no grace period.  On [<body>a—b—c</body>], right after the script has
    started, the removal of a highlight arms the debounced rescan at once
    and the rescan runs; and a paragraph added to a page right after
    start-up is scanned at once. *)
Lemma watcher_has_no_grace_period :
  scans page_started = 1
  /\ timers (run (firstn 2 removes_highlight) page_started) = [1]
  /\ scans (run removes_highlight page_started) = 2
  /\ emDashCount page_empty = 0
  /\ emDashCount (run adds_paragraph page_empty) = 1.
Proof. splits; vm_compute; reflexivity. Qed.

(** C9, amended: the grace period is the development server's.  As long as
    less than 1000 ms have passed since its start-up, whatever files
    changed and whatever clients came and went, the flag is still set and
    no client has been sent a reload: a notification whose debounce timer
    fires in that time is dropped. *)
Theorem reload_grace_period (es : list DevServer.event) :
  DevServer.now (DevServer.run es DevServer.boot) < 1000 ->
  DevServer.startupGrace (DevServer.run es DevServer.boot) = true
  /\ Forall (fun c => DevServer.reloads c = 0)
            (DevServer.clients (DevServer.run es DevServer.boot)).
Proof.
  intros H.
  destruct (DevFacts.run_grace es DevServer.boot DevFacts.boot_grace H).
  auto.
Qed.

Lemma reload_grace_period_witness :
  DevServer.now (DevServer.run early_change DevServer.boot) = 999
  /\ DevServer.startupGrace (DevServer.run early_change DevServer.boot) = true
  /\ Forall (fun c => DevServer.reloads c = 0)
            (DevServer.clients (DevServer.run early_change DevServer.boot)).
Proof.
  split; [vm_compute; reflexivity|].
  apply (reload_grace_period early_change).
  vm_compute. reflexivity.
Defined.

(** C6: no event other than the firing of the rescan timer, which runs
    [scanPage], lowers the counter: the mutation handler, the navigation
    listeners, the history wrappers and the teardown leave it as it is or
    add to it.  And when the observer is told of one added element with
    exactly one em-dash in its text, on a well-formed page, the counter
    grows by exactly 1 and the highlight elements the body had are still
    its highlight elements, unchanged and in the same order, next to the new
    one. *)
Theorem incremental_scans_add (s : State) (el i : nat) (a : attrs)
  (cs : list node) :
  wellFormed s ->
  findInForest el (forest s) = Some (Element i a cs) ->
  existsb (String.eqb (tagName a)) skipTags = false ->
  contains HIGHLIGHT (classList a) = false ->
  contains BANNER (classList a) = false ->
  dashesOutside (Element i a cs) = 1 ->
  (forall e s0, (forall t, e <> TimerFires t) ->
                emDashCount s0 <= emDashCount (dispatch e s0))
  /\ emDashCount (mutationCallback (added el) s) = emDashCount s + 1
  /\ filter (fun h => nodeId h <? nextId s)
            (highlights (body (mutationCallback (added el) s)))
     = highlights (body s).
Proof.
  intros Hwf Hf Hk Hh Hb Hd. split; [exact dispatch_count|].
  destruct (added_element_spec s el i a cs Hwf Hf Hk Hh Hb) as [H1 H2].
  rewrite Hd in H1. auto.
Qed.

Lemma incremental_scans_add_witness :
  emDashCount page_grown = 2
  /\ List.length (highlights (body page_grown)) = 2
  /\ emDashCount (mutationCallback (added 17) page_grown) = 2 + 1
  /\ filter (fun h => nodeId h <? 19)
            (highlights (body (mutationCallback (added 17) page_grown)))
     = highlights (body page_grown)
  /\ List.length
       (highlights (body (mutationCallback (added 17) page_grown))) = 3.
Proof.
  destruct (incremental_scans_add page_grown 17 17 (plain "P" [])
              [Text 18 text_xy])
    as (_ & H1 & H2).
  - apply wellFormedb_sound. vm_compute. reflexivity.
  - vm_compute. reflexivity.
  - vm_compute. reflexivity.
  - vm_compute. reflexivity.
  - vm_compute. reflexivity.
  - vm_compute. reflexivity.
  - splits.
    + vm_compute. reflexivity.
    + vm_compute. reflexivity.
    + exact H1.
    + exact H2.
    + vm_compute. reflexivity.
Defined.

(** C4: the banner does not follow the counter once the page has taken it
    out of the document.  [<body>a—b—c</body>] with the script started has
    counter 2 and the banner (node 9) as a child of the body.  The page
    removes the banner; the observer passes over the removed banner, so no
    rescan is scheduled and the script still holds the element.  From then
    on [updateWarningBanner] only looks at the variable: called as it is, it
    leaves the body untouched; called by the observer after the page has
    appended [<p>x—y</p>], it finds the counter at 3 and writes "3" into the
    count element of the banner outside the document.  The counter is
    greater than 0 and no banner is in the document. *)
Theorem removed_banner_is_not_shown_again :
  emDashCount page_started = 2
  /\ warningBanner page_started = Some 9
  /\ bannerShown page_started = true
  /\ emDashCount page_bannerless = 2
  /\ warningBanner page_bannerless = Some 9
  /\ inDocument 9 page_bannerless = false
  /\ wellFormedb page_bannerless = true
  /\ timers page_bannerless = []
  /\ body (updateWarningBanner page_bannerless) = body page_bannerless
  /\ warningBanner (updateWarningBanner page_bannerless) = Some 9
  /\ emDashCount (updateWarningBanner page_bannerless) = 2
  /\ querySelector BANNER (body (updateWarningBanner page_bannerless)) = None
  /\ emDashCount page_regrown = 3
  /\ warningBanner page_regrown = Some 9
  /\ inDocument 9 page_regrown = false
  /\ querySelector BANNER (body page_regrown) = None
  /\ List.length (highlights (body page_regrown)) = 3
  /\ option_map textContent (findInForest 14 (forest page_regrown))
     = Some (lit "3")
  /\ scans page_regrown = 1.
Proof. vm_compute. repeat split. Qed.

End Claims.

(** ** The watcher's registrations along a run *)

Module WatchFacts.

Import Dom Page Props Watch DomFacts ScanFacts BannerFacts TeardownFacts
  CounterFacts.

Lemma buildFragment_sameBut parts : forall s,
  sameBut s (snd (buildFragment parts s)).
Proof.
  induction parts as [|p rest IH]; intros s; [apply sameBut_refl|].
  simpl. destruct (truthy p); destruct rest as [|q rest'].
  - simpl. unfold sameBut. destruct s; reflexivity.
  - specialize (IH (snd (createHighlight (snd (createTextNode p s))))).
    destruct (buildFragment (q :: rest') _) as [f s3] eqn:E. simpl in *.
    eapply sameBut_trans; [|exact IH].
    unfold sameBut. destruct s; reflexivity.
  - simpl. apply sameBut_refl.
  - specialize (IH (snd (createHighlight s))).
    destruct (buildFragment (q :: rest') _) as [f s3] eqn:E. simpl in *.
    eapply sameBut_trans; [|exact IH].
    unfold sameBut. destruct s; reflexivity.
Qed.

Lemma highlightTextNode_sameScan t s : sameScan s (highlightTextNode t s).
Proof.
  unfold highlightTextNode.
  destruct (findInForest t (forest s)) as [[i d| |]|];
    try apply sameScan_refl.
  destruct (includes EM_DASH d); simpl; [|apply sameScan_refl].
  pose proof (buildFragment_sameBut (split EM_DASH d)
                (set_emDashCount
                   (emDashCount s + (List.length (split EM_DASH d) - 1)) s))
    as H.
  destruct (buildFragment _ _) as [frag s2]. simpl in H.
  unfold sameBut in H.
  destruct (parentNode t (forest s2)); unfold sameScan; rewrite H;
    destruct s; reflexivity.
Qed.

Lemma forEach_sameScan (A : Type) (f : A -> State -> State) l :
  (forall x s, sameScan s (f x s)) ->
  forall s, sameScan s (forEach f l s).
Proof.
  intros Hf. unfold forEach.
  induction l as [|x l IH]; intros s; simpl; [apply sameScan_refl|].
  eapply sameScan_trans; [apply Hf|apply IH].
Qed.

Lemma walkTextNodes_sameScan el s : sameScan s (walkTextNodes el s).
Proof.
  unfold walkTextNodes.
  destruct (findInForest el (forest s)) as [[| i a cs |]|];
    try apply sameScan_refl.
  destruct (existsb _ skipTags); [apply sameScan_refl|].
  apply forEach_sameScan. intros x s0. apply highlightTextNode_sameScan.
Qed.

Lemma sameScan_rest s s' : sameScan s s' -> restOf s' = restOf s.
Proof. intros H. rewrite H. reflexivity. Qed.

Lemma assignTextContent_rest el v s :
  restOf (assignTextContent el v s) = restOf s.
Proof.
  unfold assignTextContent. now destruct (findInForest el (forest s)).
Qed.

Lemma removeBanner_rest s : restOf (removeBanner s) = restOf s.
Proof.
  destruct (removeBanner_frame s) as [H|[_ H]]; rewrite H; reflexivity.
Qed.

Lemma updateWarningBanner_rest s : restOf (updateWarningBanner s) = restOf s.
Proof.
  unfold updateWarningBanner.
  destruct (emDashCount s =? 0); [apply removeBanner_rest|].
  destruct (warningBanner s); [|reflexivity].
  destruct (findInForest _ _); [|reflexivity].
  destruct (querySelector _ _); [|reflexivity].
  apply assignTextContent_rest.
Qed.

Lemma rest_host s s' : restOf s' = restOf s -> hostOf s' = hostOf s.
Proof. unfold restOf. congruence. Qed.

Lemma rest_style s s' : restOf s' = restOf s -> styleOf s' = styleOf s.
Proof. unfold restOf. congruence. Qed.

(** [scanPage] leaves the registrations with the host as they are. *)
Lemma scanPage_host s : hostOf (scanPage s) = hostOf s.
Proof.
  unfold scanPage.
  set (s1 := walkTextNodes _ _).
  assert (H1 : hostOf s1 = hostOf s).
  { unfold s1.
    rewrite (rest_host _ _ (sameScan_rest _ _ (walkTextNodes_sameScan _ _))).
    reflexivity. }
  rewrite (rest_host _ _ (updateWarningBanner_rest _)).
  destruct (0 <? emDashCount s1); [|exact H1].
  unfold injectSparkleSvg. destruct (svgInjected s1); exact H1.
Qed.

Lemma tracked_host s s' : hostOf s' = hostOf s -> tracked s -> tracked s'.
Proof.
  unfold hostOf. intros H [H1 H2 H3 H4 H5].
  injection H as E1 E2 E3 E4 E5 E6 E7 E8.
  split; rewrite ?E1, ?E2, ?E3, ?E4, ?E5, ?E6, ?E7, ?E8; auto.
Qed.

(** A tracked state has no pending timer but the one of the debounce. *)
Lemma tracked_timers s t :
  tracked s -> debounceTimeout s = Some t ->
  filter (fun x => negb (x =? t)) (timers s) = [].
Proof.
  intros Ht E. apply filter_all_out. intros x Hx.
  apply (tr_timers Ht) in Hx. rewrite E in Hx. injection Hx as ->.
  now rewrite Nat.eqb_refl.
Qed.

Lemma tracked_idle s : tracked s -> debounceTimeout s = None -> timers s = [].
Proof.
  intros Ht E. destruct (timers s) as [|x l] eqn:El; [reflexivity|].
  assert (Hx : In x (timers s)) by (rewrite El; now left).
  apply (tr_timers Ht) in Hx. congruence.
Qed.

(** One call of the debounced rescan on a tracked state: the timer it sets
    is the only pending one. *)
Lemma debouncedRescan_tracked s :
  tracked s ->
  tracked (debouncedRescan s)
  /\ timers (debouncedRescan s) = [nextTimer s]
  /\ debounceTimeout (debouncedRescan s) = Some (nextTimer s)
  /\ nextTimer (debouncedRescan s) = S (nextTimer s)
  /\ scans (debouncedRescan s) = scans s.
Proof.
  intros Ht. pose proof Ht as [H1 H2 H3 H4 H5].
  assert (E : timers (debouncedRescan s) = [nextTimer s]).
  { unfold debouncedRescan.
    destruct (debounceTimeout s) as [t|] eqn:Ed; simpl.
    - now rewrite (tracked_timers s t Ht Ed).
    - now rewrite (tracked_idle s Ht Ed). }
  assert (Ed : debounceTimeout (debouncedRescan s) = Some (nextTimer s)).
  { unfold debouncedRescan. now destruct (debounceTimeout s). }
  split; [|split; [exact E|split; [exact Ed|]]].
  - split.
    + intros t Hin. rewrite E in Hin. destruct Hin as [<-|[]]. exact Ed.
    + unfold debouncedRescan. destruct (debounceTimeout s); exact H2.
    + unfold debouncedRescan. destruct (debounceTimeout s); exact H3.
    + unfold debouncedRescan. destruct (debounceTimeout s); exact H4.
    + unfold debouncedRescan. destruct (debounceTimeout s); exact H5.
  - unfold debouncedRescan. destruct (debounceTimeout s); auto.
Qed.

Lemma quiet_tracked s :
  quiet s -> debounceTimeout s = None -> mutationObserver s = None ->
  tracked s.
Proof.
  intros [Q1 Q2 Q3 Q4 Q5] E1 E2. split; auto.
  - intros t Ht. rewrite Q1 in Ht. contradiction.
  - intros o Ho. rewrite Q2 in Ho. contradiction.
  - intros l Hl Hc. rewrite (Q3 l Hl) in Hc. discriminate.
Qed.

Lemma cleanup_tracked s : tracked s -> tracked (cleanup s).
Proof.
  intros Ht. destruct (cleanup_fields s) as (F1 & F2 & _).
  apply quiet_tracked; auto. now apply cleanup_quiet.
Qed.

Lemma removeEventListener_tracked ty h s :
  tracked s -> tracked (removeEventListener ty h s).
Proof.
  intros [H1 H2 H3 H4 H5]. split; auto.
  intros l Hl. simpl in Hl. apply filter_In in Hl. apply H3. tauto.
Qed.

Lemma addEventListener_tracked ty h o s :
  tracked s ->
  (h = DebouncedRescan -> ty = "popstate" \/ ty = "hashchange") ->
  tracked (addEventListener ty h o s).
Proof.
  intros Ht Hty. pose proof Ht as [H1 H2 H3 H4 H5]. unfold addEventListener.
  destruct (existsb _ _); [exact Ht|]. split; auto.
  intros l Hl Hc. simpl in Hl. apply in_app_or in Hl.
  destruct Hl as [Hl|[<-|[]]]; [now apply H3|]. simpl in *. auto.
Qed.

Lemma invoke_tracked l s : tracked s -> tracked (invoke l s).
Proof.
  intros Ht. unfold invoke. destruct (existsb _ _); [|exact Ht].
  assert (Ht' : tracked (if once l
                         then removeEventListener (evType l) (callback l) s
                         else s)).
  { destruct (once l); [now apply removeEventListener_tracked|exact Ht]. }
  destruct (callback l); simpl.
  - now apply debouncedRescan_tracked.
  - now apply cleanup_tracked.
Qed.

Lemma onRemoved_rest i acc : restOf (snd (onRemoved i acc)) = restOf (snd acc).
Proof. now rewrite onRemoved_state. Qed.

Lemma onAdded_rest i acc : restOf (snd (onAdded i acc)) = restOf (snd acc).
Proof.
  destruct acc as [f s]. unfold onAdded.
  destruct (findInForest i (forest s)) as [[j d|j a cs|]|]; simpl; auto.
  - destruct (includes EM_DASH d); simpl; auto.
    apply sameScan_rest, highlightTextNode_sameScan.
  - destruct (contains HIGHLIGHT (classList a)); simpl; auto.
    destruct (contains BANNER (classList a)); simpl; auto.
    apply sameScan_rest, walkTextNodes_sameScan.
Qed.

Lemma fold_rest (A : Type) (f : A -> Flags * State -> Flags * State) l :
  (forall x acc, restOf (snd (f x acc)) = restOf (snd acc)) ->
  forall acc, restOf (snd (fold_left (fun a x => f x a) l acc))
              = restOf (snd acc).
Proof.
  intros Hf. induction l as [|x l IH]; intros acc; simpl; [reflexivity|].
  rewrite IH. apply Hf.
Qed.

Lemma onMutation_rest m acc :
  restOf (snd (onMutation m acc)) = restOf (snd acc).
Proof.
  unfold onMutation.
  rewrite (fold_rest _ onAdded _ onAdded_rest).
  apply (fold_rest _ onRemoved _ onRemoved_rest).
Qed.

Lemma mutationCallback_tracked records s :
  tracked s -> tracked (mutationCallback records s).
Proof.
  intros Ht. unfold mutationCallback.
  pose proof (fold_rest _ onMutation records onMutation_rest
                ({| needsUpdate := false; needsFullRescan := false |}, s))
    as H.
  destruct (fold_left _ records _) as [f s2]. simpl in H.
  assert (Ht2 : tracked s2) by (apply (tracked_host s); [now apply rest_host|exact Ht]).
  destruct (needsFullRescan f); [now apply debouncedRescan_tracked|].
  destruct (needsUpdate f); [|exact Ht2].
  apply (tracked_host s2); [|exact Ht2].
  apply rest_host, updateWarningBanner_rest.
Qed.

Lemma forEach_invariant (A : Type) (P : State -> Prop)
  (f : A -> State -> State) l :
  (forall x s, P s -> P (f x s)) -> forall s, P s -> P (forEach f l s).
Proof.
  intros Hf. unfold forEach.
  induction l as [|x l IH]; intros s Hs; simpl; auto.
Qed.

(** No event takes a tracked state to one that is not. *)
Lemma dispatch_tracked e s : tracked s -> tracked (dispatch e s).
Proof.
  intros Ht. destruct e as [o records|ty|url|url|t|b d n]; simpl.
  - destruct (existsb _ _); [now apply mutationCallback_tracked|exact Ht].
  - apply forEach_invariant; [|exact Ht]. intros l s0. apply invoke_tracked.
  - unfold callPushState.
    assert (H : tracked (nativePushState url s))
      by (apply (tracked_host s); [reflexivity|exact Ht]).
    destruct (pushState s); auto. now apply debouncedRescan_tracked.
  - unfold callReplaceState.
    assert (H : tracked (nativeReplaceState url s))
      by (apply (tracked_host s); [reflexivity|exact Ht]).
    destruct (replaceState s); auto. now apply debouncedRescan_tracked.
  - destruct (existsb (Nat.eqb t) (timers s)) eqn:E; [|exact Ht].
    apply existsb_exists in E. destruct E as (x & Hx & E).
    apply Nat.eqb_eq in E. subst x.
    pose proof (tr_timers Ht t Hx) as Ed.
    unfold debounceFire.
    apply (tracked_host (set_debounceTimeout None (clearTimeout t s)));
      [apply scanPage_host|].
    pose proof Ht as [H1 H2 H3 H4 H5]. split; auto.
    intros x Hin. simpl in Hin. rewrite (tracked_timers s t Ht Ed) in Hin.
    contradiction.
  - apply (tracked_host s); [reflexivity|exact Ht].
Qed.

Lemma run_tracked es : forall s, tracked s -> tracked (run es s).
Proof.
  intros s. apply forEach_invariant. intros e s0. apply dispatch_tracked.
Qed.

Lemma tracked_observing s o :
  tracked s -> mutationObserver s = Some o ->
  filter (fun x => negb (x =? o)) (observing s) = [].
Proof.
  intros Ht E. apply filter_all_out. intros x Hx.
  apply (tr_observing Ht) in Hx. rewrite E in Hx. injection Hx as ->.
  now rewrite Nat.eqb_refl.
Qed.

Lemma tracked_unobserved s :
  tracked s -> mutationObserver s = None -> observing s = [].
Proof.
  intros Ht E. destruct (observing s) as [|x l] eqn:El; [reflexivity|].
  assert (Hx : In x (observing s)) by (rewrite El; now left).
  apply (tr_observing Ht) in Hx. congruence.
Qed.

Lemma subscribed_tracked s :
  tracked s ->
  tracked (subscribed s)
  /\ observing (subscribed s) = [nextObserver s]
  /\ mutationObserver (subscribed s) = Some (nextObserver s)
  /\ listeners (subscribed s) = listeners s
  /\ historyPatched (subscribed s) = historyPatched s
  /\ pushState (subscribed s) = pushState s
  /\ replaceState (subscribed s) = replaceState s.
Proof.
  intros Ht. pose proof Ht as [H1 H2 H3 H4 H5].
  assert (E : observing (subscribed s) = [nextObserver s]).
  { unfold subscribed. destruct (mutationObserver s) as [o|] eqn:Eo; simpl.
    - now rewrite (tracked_observing s o Ht Eo).
    - now rewrite (tracked_unobserved s Ht Eo). }
  assert (Em : mutationObserver (subscribed s) = Some (nextObserver s)).
  { unfold subscribed. now destruct (mutationObserver s). }
  split; [split|].
  - unfold subscribed. destruct (mutationObserver s); exact H1.
  - intros o Ho. rewrite E in Ho. destruct Ho as [<-|[]]. exact Em.
  - unfold subscribed. destruct (mutationObserver s); exact H3.
  - unfold subscribed. destruct (mutationObserver s); exact H4.
  - unfold subscribed. destruct (mutationObserver s); exact H5.
  - split; [exact E|split; [exact Em|]].
    unfold subscribed. destruct (mutationObserver s); auto.
Qed.

Lemma observeChanges_subscribed s :
  observeChanges s
  = addEventListener "pagehide" Cleanup true
      (let s := addEventListener "hashchange" DebouncedRescan false
                  (addEventListener "popstate" DebouncedRescan false
                     (subscribed s)) in
       if negb (historyPatched s)
       then set_historyPatched true
              (set_replaceState Wrapper (set_pushState Wrapper s))
       else s).
Proof. reflexivity. Qed.

Lemma addEventListener_fields ty h o s :
  observing (addEventListener ty h o s) = observing s
  /\ mutationObserver (addEventListener ty h o s) = mutationObserver s
  /\ historyPatched (addEventListener ty h o s) = historyPatched s
  /\ pushState (addEventListener ty h o s) = pushState s
  /\ replaceState (addEventListener ty h o s) = replaceState s
  /\ timers (addEventListener ty h o s) = timers s
  /\ debounceTimeout (addEventListener ty h o s) = debounceTimeout s
  /\ nextObserver (addEventListener ty h o s) = nextObserver s.
Proof.
  unfold addEventListener. destruct (existsb _ _); simpl; auto 10.
Qed.

Lemma observeChanges_tracked s : tracked s -> tracked (observeChanges s).
Proof.
  intros Ht. rewrite observeChanges_subscribed.
  destruct (subscribed_tracked s Ht) as [Hs _].
  apply addEventListener_tracked; [|discriminate].
  set (s2 := addEventListener "hashchange" _ _ _).
  assert (H2 : tracked s2).
  { apply addEventListener_tracked; [|now right].
    apply addEventListener_tracked; [exact Hs|now left]. }
  cbv zeta. destruct (negb (historyPatched s2)); [|exact H2].
  destruct H2 as [H1 H2 H3 H4 H5]. split; auto; discriminate.
Qed.

Lemma initial_tracked b n rnd : tracked (initial b n rnd).
Proof. split; simpl; try contradiction; discriminate. Qed.

Lemma start_tracked s : tracked s -> tracked (start s).
Proof.
  intros Ht. apply observeChanges_tracked.
  apply (tracked_host s); [apply scanPage_host|exact Ht].
Qed.


(** *** The debounce *)

Lemma burst_S k s : burst (S k) s = debouncedRescan (burst k s).
Proof. reflexivity. Qed.

Lemma burst_tracked k : forall s,
  tracked s ->
  tracked (burst (S k) s)
  /\ timers (burst (S k) s) = [nextTimer s + k]
  /\ debounceTimeout (burst (S k) s) = Some (nextTimer s + k)
  /\ nextTimer (burst (S k) s) = S (nextTimer s + k)
  /\ scans (burst (S k) s) = scans s.
Proof.
  induction k as [|k IH]; intros s Ht.
  - rewrite Nat.add_0_r. apply (debouncedRescan_tracked s Ht).
  - destruct (IH s Ht) as (H1 & H2 & H3 & H4 & H5).
    rewrite (burst_S (S k)).
    destruct (debouncedRescan_tracked _ H1) as (G1 & G2 & G3 & G4 & G5).
    rewrite H4 in G2, G3, G4. rewrite H5 in G5.
    replace (nextTimer s + S k) with (S (nextTimer s + k)) by lia.
    auto.
Qed.

Lemma rest_scans s s' :
  restOf s' = restOf s -> scans s' = scans s /\ entries s' = entries s.
Proof. unfold restOf. intros H. split; congruence. Qed.

Lemma scanPage_rest s :
  hostOf (scanPage s) = hostOf s /\ scans (scanPage s) = S (scans s)
  /\ entries (scanPage s) = entries s.
Proof.
  split; [apply scanPage_host|].
  unfold scanPage. set (s1 := walkTextNodes _ _).
  assert (H1 : restOf s1 = restOf (set_emDashCount 0 (set_scans (S (scans s)) s)))
    by (apply sameScan_rest, walkTextNodes_sameScan).
  apply rest_scans in H1. simpl in H1. destruct H1 as [E1 E2].
  destruct (rest_scans _ _ (updateWarningBanner_rest
              (if 0 <? emDashCount s1 then injectSparkleSvg s1 else s1)))
    as [E3 E4].
  rewrite E3, E4. destruct (0 <? emDashCount s1); auto.
  unfold injectSparkleSvg. destruct (svgInjected s1); auto.
Qed.

(** The timer of the debounce fires: one scan, and nothing is pending. *)
Lemma fire_scans_once s t :
  timers s = [t] ->
  scans (dispatch (TimerFires t) s) = S (scans s)
  /\ timers (dispatch (TimerFires t) s) = []
  /\ debounceTimeout (dispatch (TimerFires t) s) = None.
Proof.
  intros E. simpl. rewrite E. simpl. rewrite Nat.eqb_refl. simpl.
  unfold debounceFire.
  destruct (scanPage_rest (set_debounceTimeout None (clearTimeout t s)))
    as (H1 & H2 & _).
  assert (E1 : timers (scanPage (set_debounceTimeout None (clearTimeout t s)))
               = timers (set_debounceTimeout None (clearTimeout t s)))
    by (unfold hostOf in H1; congruence).
  assert (E2 : debounceTimeout
                 (scanPage (set_debounceTimeout None (clearTimeout t s)))
               = debounceTimeout (set_debounceTimeout None (clearTimeout t s)))
    by (unfold hostOf in H1; congruence).
  rewrite H2, E1, E2. simpl. rewrite E. simpl. rewrite Nat.eqb_refl. auto.
Qed.

Lemma stale_timer s t : ~ In t (timers s) -> dispatch (TimerFires t) s = s.
Proof.
  intros H. simpl. destruct (existsb (Nat.eqb t) (timers s)) eqn:E; auto.
  apply existsb_exists in E. destruct E as (x & Hx & E).
  apply Nat.eqb_eq in E. subst x. contradiction.
Qed.

Lemma debouncedRescan_page s :
  entries (debouncedRescan s) = entries s
  /\ scans (debouncedRescan s) = scans s
  /\ forest (debouncedRescan s) = forest s.
Proof. unfold debouncedRescan. now destruct (debounceTimeout s). Qed.

(** *** The sparkle pattern *)

Lemma debouncedRescan_style s : styleOf (debouncedRescan s) = styleOf s.
Proof. unfold debouncedRescan. now destruct (debounceTimeout s). Qed.

Lemma unhooked_style s : styleOf (unhooked s) = styleOf s.
Proof.
  unfold unhooked. cbv zeta.
  assert (E1 : styleOf (cancel s) = styleOf s)
    by (unfold cancel; now destruct (debounceTimeout s)).
  set (s1 := cancel s) in *.
  set (s2 := match mutationObserver s1 with
             | Some o => set_mutationObserver None (disconnect o s1)
             | None => s1
             end).
  assert (E2 : styleOf s2 = styleOf s1)
    by (unfold s2; now destruct (mutationObserver s1)).
  set (s3 := removeEventListener "hashchange" DebouncedRescan
               (removeEventListener "popstate" DebouncedRescan s2)).
  assert (E3 : styleOf s3 = styleOf s2) by reflexivity.
  destruct (historyPatched s3); [|congruence].
  change (styleOf s3 = styleOf s). congruence.
Qed.

Lemma cleanup_style s : styleOf (cleanup s) = styleOf s.
Proof.
  rewrite cleanup_unhooked.
  rewrite (rest_style _ _ (removeBanner_rest _)). apply unhooked_style.
Qed.

Lemma styled_style s s' : styleOf s' = styleOf s -> styled s -> styled s'.
Proof. unfold styled. intros ->. auto. Qed.

Lemma injectSparkleSvg_styled s : styled s -> styled (injectSparkleSvg s).
Proof.
  unfold styled, styleOf, injectSparkleSvg. intros [H|H];
    injection H as E1 E2 E3; rewrite E1; [left|left]; simpl; congruence.
Qed.

Lemma scanPage_styled s : styled s -> styled (scanPage s).
Proof.
  intros H. unfold scanPage. set (s1 := walkTextNodes _ _).
  assert (H1 : styled s1).
  { apply (styled_style s); [|exact H]. unfold s1.
    rewrite (rest_style _ _ (sameScan_rest _ _ (walkTextNodes_sameScan _ _))).
    reflexivity. }
  apply (styled_style (if 0 <? emDashCount s1 then injectSparkleSvg s1 else s1)).
  - apply rest_style, updateWarningBanner_rest.
  - destruct (0 <? emDashCount s1); [now apply injectSparkleSvg_styled|exact H1].
Qed.

Lemma mutationCallback_style records s :
  styleOf (mutationCallback records s) = styleOf s.
Proof.
  unfold mutationCallback.
  pose proof (fold_rest _ onMutation records onMutation_rest
                ({| needsUpdate := false; needsFullRescan := false |}, s))
    as H.
  destruct (fold_left _ records _) as [f s2]. simpl in H.
  apply rest_style in H.
  destruct (needsFullRescan f); [now rewrite debouncedRescan_style|].
  destruct (needsUpdate f); [|exact H].
  now rewrite (rest_style _ _ (updateWarningBanner_rest _)).
Qed.

Lemma invoke_style l s : styleOf (invoke l s) = styleOf s.
Proof.
  unfold invoke. destruct (existsb _ _); [|reflexivity].
  destruct (callback l); simpl.
  - rewrite debouncedRescan_style. now destruct (once l).
  - rewrite cleanup_style. now destruct (once l).
Qed.

Lemma dispatch_styled e s : styled s -> styled (dispatch e s).
Proof.
  intros H. destruct e as [o records|ty|url|url|t|b d n]; simpl.
  - destruct (existsb _ _); [|exact H].
    apply (styled_style s); [apply mutationCallback_style|exact H].
  - apply forEach_invariant; [|exact H]. intros l s0.
    apply styled_style, invoke_style.
  - apply (styled_style s); [|exact H]. unfold callPushState.
    destruct (pushState s); try reflexivity. now rewrite debouncedRescan_style.
  - apply (styled_style s); [|exact H]. unfold callReplaceState.
    destruct (replaceState s); try reflexivity.
    now rewrite debouncedRescan_style.
  - destruct (existsb _ _); [|exact H]. unfold debounceFire.
    apply scanPage_styled. apply (styled_style s); [reflexivity|exact H].
  - apply (styled_style s); [reflexivity|exact H].
Qed.

Lemma addEventListener_style ty h o s :
  styleOf (addEventListener ty h o s) = styleOf s.
Proof. unfold addEventListener. now destruct (existsb _ _). Qed.

Lemma subscribed_style s : styleOf (subscribed s) = styleOf s.
Proof. unfold subscribed. now destruct (mutationObserver s). Qed.

Lemma observeChanges_style s : styleOf (observeChanges s) = styleOf s.
Proof.
  rewrite observeChanges_subscribed, addEventListener_style. cbv zeta.
  set (s2 := addEventListener "hashchange" DebouncedRescan false _).
  assert (E : styleOf s2 = styleOf s).
  { unfold s2. rewrite !addEventListener_style. apply subscribed_style. }
  now destruct (negb (historyPatched s2)).
Qed.

Lemma run_styled es : forall s, styled s -> styled (run es s).
Proof.
  intros s. apply forEach_invariant. intros e s0. apply dispatch_styled.
Qed.

(** *** The listeners *)

Lemma addEventListener_present ty h o s :
  existsb (sameListener ty h) (listeners (addEventListener ty h o s)) = true.
Proof.
  unfold addEventListener.
  destruct (existsb _ (listeners s)) eqn:E; [exact E|].
  simpl. rewrite existsb_app. simpl.
  change (sameListener ty h {| evType := ty; callback := h; once := o |})
    with (sameListener
            (evType {| evType := ty; callback := h; once := o |})
            (callback {| evType := ty; callback := h; once := o |})
            {| evType := ty; callback := h; once := o |}).
  rewrite sameListener_refl. now rewrite orb_true_r.
Qed.

Lemma addEventListener_keeps ty h o p s :
  existsb p (listeners s) = true ->
  existsb p (listeners (addEventListener ty h o s)) = true.
Proof.
  intros H. unfold addEventListener.
  destruct (existsb (sameListener ty h) (listeners s)); auto.
  simpl. rewrite existsb_app, H. reflexivity.
Qed.

Lemma addEventListener_noop ty h o s :
  existsb (sameListener ty h) (listeners s) = true ->
  addEventListener ty h o s = s.
Proof. unfold addEventListener. now intros ->. Qed.

Lemma patch_listeners s :
  listeners (if negb (historyPatched s)
             then set_historyPatched true
                    (set_replaceState Wrapper (set_pushState Wrapper s))
             else s) = listeners s.
Proof. now destruct (historyPatched s). Qed.

Lemma observeChanges_hooked s : hooked (observeChanges s).
Proof.
  rewrite observeChanges_subscribed. cbv zeta. unfold hooked.
  set (s1 := addEventListener "popstate" DebouncedRescan false (subscribed s)).
  set (s2 := addEventListener "hashchange" DebouncedRescan false s1).
  assert (H1 : existsb (sameListener "popstate" DebouncedRescan)
                 (listeners s2) = true).
  { apply addEventListener_keeps, addEventListener_present. }
  assert (H2 : existsb (sameListener "hashchange" DebouncedRescan)
                 (listeners s2) = true)
    by apply addEventListener_present.
  split; [|split].
  - apply addEventListener_keeps. now rewrite patch_listeners.
  - apply addEventListener_keeps. now rewrite patch_listeners.
  - apply addEventListener_present.
Qed.

Lemma subscribed_listeners s : listeners (subscribed s) = listeners s.
Proof. unfold subscribed. now destruct (mutationObserver s). Qed.

Lemma hooked_observeChanges s :
  hooked s -> listeners (observeChanges s) = listeners s.
Proof.
  intros (H1 & H2 & H3). rewrite observeChanges_subscribed. cbv zeta.
  rewrite (addEventListener_noop "popstate" DebouncedRescan false
             (subscribed s)) by now rewrite subscribed_listeners.
  rewrite (addEventListener_noop "hashchange" DebouncedRescan false
             (subscribed s)) by now rewrite subscribed_listeners.
  rewrite addEventListener_noop.
  - now rewrite patch_listeners, subscribed_listeners.
  - now rewrite patch_listeners, subscribed_listeners.
Qed.

Lemma observeChanges_fields s :
  observing (observeChanges s) = observing (subscribed s)
  /\ mutationObserver (observeChanges s) = mutationObserver (subscribed s)
  /\ historyPatched (observeChanges s) = true
  /\ pushState (observeChanges s)
     = (if historyPatched s then pushState s else Wrapper)
  /\ replaceState (observeChanges s)
     = (if historyPatched s then replaceState s else Wrapper)
  /\ nextObserver (observeChanges s) = S (nextObserver s).
Proof.
  rewrite observeChanges_subscribed. cbv zeta.
  set (s1 := addEventListener "popstate" DebouncedRescan false (subscribed s)).
  set (s2 := addEventListener "hashchange" DebouncedRescan false s1).
  destruct (addEventListener_fields "popstate" DebouncedRescan false
              (subscribed s)) as (A1 & A2 & A3 & A4 & A5 & _ & _ & A8).
  destruct (addEventListener_fields "hashchange" DebouncedRescan false s1)
    as (B1 & B2 & B3 & B4 & B5 & _ & _ & B8).
  fold s1 in A1, A2, A3, A4, A5, A8. fold s2 in B1, B2, B3, B4, B5, B8.
  match goal with |- context [addEventListener "pagehide" Cleanup true ?x] =>
    destruct (addEventListener_fields "pagehide" Cleanup true x)
      as (C1 & C2 & C3 & C4 & C5 & _ & _ & C8) end.
  rewrite C1, C2, C3, C4, C5, C8.
  assert (Eh : historyPatched s2 = historyPatched s).
  { rewrite B3, A3. unfold subscribed. now destruct (mutationObserver s). }
  assert (Ep : pushState s2 = pushState s).
  { rewrite B4, A4. unfold subscribed. now destruct (mutationObserver s). }
  assert (Er : replaceState s2 = replaceState s).
  { rewrite B5, A5. unfold subscribed. now destruct (mutationObserver s). }
  assert (En : nextObserver s2 = S (nextObserver s)).
  { rewrite B8, A8. unfold subscribed. now destruct (mutationObserver s). }
  rewrite <- Eh, <- Ep, <- Er, <- A1, <- A2, <- B1, <- B2, <- En.
  destruct (historyPatched s2) eqn:E; simpl; auto 10.
Qed.

(** *** Batches the callback passes over *)

Lemma onRemoved_passed i f s :
  passedOverRemoved s i = true -> onRemoved i (f, s) = (f, s).
Proof.
  unfold passedOverRemoved, onRemoved.
  destruct (findInForest i (forest s)) as [[|j a cs|]|]; auto.
  destruct (hasClass BANNER (Element j a cs)); auto. simpl.
  intros H. apply negb_true_iff in H. now rewrite H.
Qed.

Lemma onAdded_passed i f s :
  passedOverAdded s i = true -> onAdded i (f, s) = (f, s).
Proof.
  unfold passedOverAdded, onAdded.
  destruct (findInForest i (forest s)) as [[j d|j a cs|]|]; auto.
  - intros H. apply negb_true_iff in H. now rewrite H.
  - simpl. destruct (contains HIGHLIGHT (classList a)); auto.
    simpl. now intros ->.
Qed.

Lemma fold_passed (p : nid -> bool)
  (g : nid -> Flags * State -> Flags * State) l acc :
  (forall i, p i = true -> g i acc = acc) ->
  forallb p l = true -> fold_left (fun a i => g i a) l acc = acc.
Proof.
  intros Hg. induction l as [|i l IH]; simpl; [reflexivity|].
  intros H. apply andb_prop in H. destruct H as [H1 H2].
  rewrite (Hg i H1). auto.
Qed.

Lemma onMutation_passed m f s :
  passedOver s m = true -> onMutation m (f, s) = (f, s).
Proof.
  unfold passedOver, onMutation. intros H. apply andb_prop in H.
  destruct H as [H1 H2].
  rewrite (fold_passed (passedOverRemoved s) onRemoved); auto.
  - apply (fold_passed (passedOverAdded s) onAdded); auto.
    intros i. apply onAdded_passed.
  - intros i. apply onRemoved_passed.
Qed.

Lemma mutationCallback_passed records s :
  forallb (passedOver s) records = true -> mutationCallback records s = s.
Proof.
  intros H. unfold mutationCallback.
  assert (E : fold_left (fun a m => onMutation m a) records
                ({| needsUpdate := false; needsFullRescan := false |}, s)
              = ({| needsUpdate := false; needsFullRescan := false |}, s)).
  { induction records as [|m l IH]; simpl; [reflexivity|].
    simpl in H. apply andb_prop in H. destruct H as [H1 H2].
    rewrite (onMutation_passed m _ s H1). auto. }
  rewrite E. reflexivity.
Qed.

(** *** [containsHighlights] *)

Lemma selfOrDescendants_In c n x :
  In x (selfOrDescendants c n) <-> In x (subnodes n) /\ hasClass c x = true.
Proof.
  induction n as [i y|i a cs IH|i y] using node_ind'.
  - simpl. split; [contradiction|]. intros [[<-|[]] H]. discriminate.
  - rewrite Forall_forall in IH. simpl selfOrDescendants.
    rewrite in_app_iff, in_flat_map. split.
    + intros [H|(k & Hk & H)].
      * destruct (contains c (classList a)) eqn:E; [|contradiction].
        destruct H as [<-|[]]. split; [apply subnodes_self|exact E].
      * apply (IH k Hk) in H. destruct H as [H1 H2]. split; auto.
        apply (subnodes_child i a cs k x Hk H1).
    + intros [H1 H2]. apply subnodes_inv in H1.
      destruct H1 as [->|(k & Hk & H1)].
      * left. simpl in H2. rewrite H2. now left.
      * right. exists k. split; [exact Hk|]. apply (IH k Hk). auto.
  - simpl. split; [contradiction|]. intros [[<-|[]] H]. discriminate.
Qed.

Lemma querySelector_finds c i a cs x :
  In x (flat_map subnodes cs) -> hasClass c x = true ->
  exists y, querySelector c (Element i a cs) = Some y.
Proof.
  intros Hx Hc. unfold querySelector, querySelectorAll.
  assert (H : In x (flat_map (selfOrDescendants c) cs)).
  { apply in_flat_map in Hx. destruct Hx as (k & Hk & Hx).
    apply in_flat_map. exists k. split; [exact Hk|].
    apply selfOrDescendants_In. auto. }
  destruct (flat_map (selfOrDescendants c) cs) as [|z l]; [contradiction|].
  now exists z.
Qed.

Lemma containsHighlights_spec n :
  containsHighlights n = true
  <-> isElement n = true
      /\ exists x, In x (subnodes n) /\ hasClass HIGHLIGHT x = true.
Proof.
  unfold containsHighlights.
  destruct n as [i d|i a cs|i d]; simpl negb; cbv iota.
  - split; [discriminate|]. intros [H _]. discriminate.
  - destruct (hasClass HIGHLIGHT (Element i a cs)) eqn:E.
    + split; auto. intros _. split; [reflexivity|].
      exists (Element i a cs). split; [apply subnodes_self|exact E].
    + split.
      * intros H. split; [reflexivity|].
        destruct (querySelector HIGHLIGHT (Element i a cs)) as [y|] eqn:Eq;
          [|discriminate].
        exists y. apply querySelector_child in Eq. tauto.
      * intros [_ (x & Hx & Hc)].
        assert (Hq : exists y, querySelector HIGHLIGHT (Element i a cs)
                               = Some y).
        { destruct Hx as [Hx|Hx]; [congruence|].
          apply (querySelector_finds HIGHLIGHT i a cs x Hx Hc). }
        destruct Hq as [y ->]. reflexivity.
  - split; [discriminate|]. intros [H _]. discriminate.
Qed.

(** *** The script's own edits *)

Lemma replace_holds t frag f n :
  In t (childIds n) -> In f frag -> In f (subnodes (replaceChild t frag n)).
Proof.
  intros Ht Hf.
  induction n as [i y|i a cs IH|i y] using node_ind'; try contradiction.
  unfold childIds in Ht. simpl in Ht. apply in_flat_map in Ht.
  destruct Ht as (c & Hc & Ht). rewrite Forall_forall in IH.
  simpl. right. apply in_flat_map.
  rewrite ids_cons in Ht. destruct (Nat.eq_dec (nodeId c) t) as [E|E].
  - exists f. split; [|apply subnodes_self].
    apply in_flat_map. exists c. split; [exact Hc|].
    apply Nat.eqb_eq in E. now rewrite E.
  - destruct Ht as [Ht|Ht]; [contradiction|].
    exists (replaceChild t frag c). split; [|now apply IH].
    apply in_flat_map. exists c. split; [exact Hc|].
    apply Nat.eqb_neq in E. rewrite E. now left.
Qed.

Lemma replace_holds_forest t frag f l :
  In t (flat_map childIds l) -> In f frag ->
  In f (flat_map subnodes (map (replaceChild t frag) l)).
Proof.
  intros Ht Hf. apply in_flat_map in Ht. destruct Ht as (n & Hn & Ht).
  apply in_flat_map. exists (replaceChild t frag n).
  split; [now apply in_map|now apply replace_holds].
Qed.

(** After [highlightTextNode] has replaced a text node, identities are
    still identities. *)
Lemma highlight_unique s t d :
  uniqueIds s ->
  In (Text t d) (flat_map subnodes (forest s)) ->
  includes EM_DASH d = true ->
  In t (flat_map childIds (forest s)) ->
  uniqueIds (highlightTextNode t s).
Proof.
  intros Hu Hin Hd Hch. pose proof Hu as [Hnd Hlt].
  destruct (highlight_step s t d Hu Hin Hd Hch)
    as (frag & k & F1 & F2 & F3 & F4 & F5 & Eb & Ed & En & Ec & Hss).
  pose proof (forest_step s t d frag Eb Ed) as Ef.
  rewrite Forall_forall in Hlt.
  assert (Hnew : forall i, In i (flat_map ids frag) -> nextId s <= i).
  { intros i Hi. rewrite F5 in Hi. apply in_seq in Hi. lia. }
  split.
  - rewrite Ef. eapply Permutation_NoDup.
    + symmetry. apply (replace_ids_forest t d); auto.
    + apply NoDup_app; auto.
      * rewrite F5. apply seq_NoDup.
      * intros i Hi Hi'. apply Hlt in Hi. apply Hnew in Hi'. lia.
  - rewrite Ef. eapply Permutation_Forall.
    + symmetry. apply (replace_ids_forest t d); auto.
    + apply Forall_app. split; apply Forall_forall; intros i Hi.
      * apply Hlt in Hi. lia.
      * rewrite F5 in Hi. apply in_seq in Hi. lia.
Qed.

Lemma inert_passed s f :
  findInForest (nodeId f) (forest s) = Some f -> inert f = true ->
  passedOverAdded s (nodeId f) = true.
Proof.
  intros Hf Hi. unfold passedOverAdded. rewrite Hf.
  destruct f as [i d|i a cs|i d]; simpl in *; auto.
  destruct cs as [|[j y| |] [|]]; try discriminate.
  apply andb_prop in Hi. destruct Hi as [-> _]. reflexivity.
Qed.

Lemma own_edit_passed s t d :
  uniqueIds s ->
  In (Text t d) (flat_map subnodes (forest s)) ->
  includes EM_DASH d = true ->
  In t (flat_map childIds (forest s)) ->
  exists frag,
    forest (highlightTextNode t s)
    = map (replaceChild t frag) (forest s) ++ [Text t d]
    /\ List.length (flat_map allHighlights frag) = occurrences EM_DASH d
    /\ passedOver (highlightTextNode t s) (replaced t frag) = true.
Proof.
  intros Hu Hin Hd Hch.
  pose proof (highlight_unique s t d Hu Hin Hd Hch) as [Hnd' _].
  destruct (highlight_step s t d Hu Hin Hd Hch)
    as (frag & k & F1 & F2 & F3 & F4 & F5 & Eb & Ed & En & Ec & Hss).
  pose proof (forest_step s t d frag Eb Ed) as Ef.
  exists frag. split; [exact Ef|split; [exact F4|]].
  unfold passedOver, replaced. simpl. rewrite andb_true_r.
  apply andb_true_intro. split.
  - apply forallb_forall. intros i Hi. apply in_map_iff in Hi.
    destruct Hi as (f & <- & Hf). apply inert_passed.
    + apply findInForest_unique; [exact Hnd'|]. rewrite Ef.
      rewrite flat_map_app. apply in_or_app. left.
      now apply replace_holds_forest.
    + rewrite forallb_forall in F1. now apply F1.
  - unfold passedOverRemoved.
    assert (Hf : findInForest t (forest (highlightTextNode t s))
                 = Some (Text t d)).
    { apply (findInForest_unique _ (Text t d) Hnd'). rewrite Ef.
      rewrite flat_map_app. apply in_or_app. right. simpl. now left. }
    now rewrite Hf.
Qed.


(** *** The page goes away *)

Lemma forEach_invoke_quiet ls : forall s,
  quiet s ->
  quiet (forEach invoke ls s) /\ scans (forEach invoke ls s) = scans s.
Proof.
  induction ls as [|l ls IH]; intros s Hq; [auto|].
  unfold forEach in *. simpl.
  destruct (quiet_invoke l s Hq) as [H1 H2].
  destruct (IH _ H1) as [H3 H4]. split; [exact H3|congruence].
Qed.

Lemma pagehide_quiet s :
  tracked s ->
  (exists l, In l (listeners s) /\ evType l = "pagehide") ->
  quiet (dispatch (WindowEvent "pagehide") s)
  /\ scans (dispatch (WindowEvent "pagehide") s) = scans s.
Proof.
  intros Ht (l & Hl & Hty). simpl.
  assert (Hin : In l (filter (fun x => String.eqb (evType x) "pagehide")
                             (listeners s))).
  { apply filter_In. split; [exact Hl|]. rewrite Hty. reflexivity. }
  assert (Hall : forall x,
            In x (filter (fun x => String.eqb (evType x) "pagehide")
                         (listeners s)) ->
            In x (listeners s) /\ callback x = Cleanup).
  { intros x Hx. apply filter_In in Hx. destruct Hx as [Hx Hty'].
    split; [exact Hx|]. apply String.eqb_eq in Hty'.
    destruct (callback x) eqn:Ec; [|reflexivity].
    destruct (tr_listeners Ht x Hx Ec) as [E|E]; rewrite E in Hty';
      discriminate. }
  destruct (filter _ (listeners s)) as [|l0 ls]; [contradiction|].
  destruct (Hall l0 (or_introl eq_refl)) as [H0 Hc].
  unfold forEach. cbn [fold_left].
  assert (Hq : quiet (invoke l0 s) /\ scans (invoke l0 s) = scans s).
  { unfold invoke.
    assert (E : existsb (sameListener (evType l0) (callback l0))
                  (listeners s) = true).
    { apply existsb_exists. exists l0. split; [exact H0|].
      apply sameListener_refl. }
    rewrite E, Hc. cbn [runHandler].
    set (s' := if once l0 then removeEventListener (evType l0) Cleanup s
               else s).
    assert (Ht' : tracked s').
    { unfold s'. destruct (once l0); [|exact Ht].
      now apply removeEventListener_tracked. }
    split; [now apply cleanup_quiet|].
    destruct (cleanup_fields s') as (_ & _ & _ & _ & _ & _ & _ & _ & F9 & _).
    rewrite F9. unfold s'. now destruct (once l0). }
  destruct Hq as [Hq Hs].
  destruct (forEach_invoke_quiet ls _ Hq) as [H1 H2].
  unfold forEach in H1, H2. split; [exact H1|congruence].
Qed.

End WatchFacts.

(** ** Scans that follow one another *)

Module RescanFacts.

Import Dom Page Props Watch Rescan DomFacts ScanFacts BannerFacts PageFacts
  TeardownFacts CounterFacts WatchFacts.

(** *** [walkTextNodes] keeps the page well-formed *)

Lemma isBody_rootOf n n' : rootOf n' = rootOf n -> isBody n -> isBody n'.
Proof.
  destruct n as [|i a cs|]; destruct n' as [|i' a' cs'|]; simpl;
    try contradiction; try discriminate.
  intros H. injection H as _ ->. auto.
Qed.

Lemma hasClass_rootOf c n n' :
  rootOf n' = rootOf n -> hasClass c n' = hasClass c n.
Proof.
  destruct n as [|i a cs|]; destruct n' as [|i' a' cs'|]; simpl;
    try discriminate; auto.
  intros H. injection H as _ ->. reflexivity.
Qed.

Lemma walk_wellFormed s el i a cs :
  wellFormed s ->
  findInForest el (forest s) = Some (Element i a cs) ->
  existsb (String.eqb (tagName a)) skipTags = false ->
  wellFormed (walkTextNodes el s)
  /\ rootOf (body (walkTextNodes el s)) = rootOf (body s)
  /\ (exists cs',
        findInForest el (forest (walkTextNodes el s))
        = Some (Element i a cs')
        /\ walkerNodes (Element i a cs') = [])
  /\ (Element i a cs = body s -> walkerNodes (body (walkTextNodes el s)) = []).
Proof.
  intros [Hu Hbody Hs Hb] Hf Hk.
  destruct (walk_loop (walkerNodes (Element i a cs)) s el (Element i a cs)
              Hu Hs Hf eq_refl)
    as (W1 & W2 & (sub' & W3 & W4 & W5) & W6 & W7 & W8 & W9 & W10 & W11
        & W12 & W13).
  rewrite <- (walkTextNodes_eq s el i a cs Hf Hk) in *.
  destruct (sameScan_fields _ _ W6) as (Fb & _).
  assert (Hi : i = el).
  { apply findInForest_Some in Hf. destruct Hf as [_ Hf]. exact Hf. }
  subst i. split; [split; auto|].
  - apply (isBody_rootOf (body s)); auto.
  - intros b Hwb. rewrite Fb in Hwb. destruct (Hb b Hwb) as (ab & cb & H1 & H2).
    destruct (W12 b ab cb H1) as (cb' & H3). eauto.
  - split; [exact W13|]. split.
    + destruct (W12 el a cs Hf) as (cs' & H3). exists cs'. split; [exact H3|].
      rewrite W3 in H3. injection H3 as <-. exact W4.
    + intros E. rewrite <- (W5 E). exact W4.
Qed.

Lemma walkTextNodes_wellFormed el s :
  wellFormed s -> wellFormed (walkTextNodes el s).
Proof.
  intros Hwf. unfold walkTextNodes.
  destruct (findInForest el (forest s)) as [[|i a cs|]|] eqn:Hf; auto.
  destruct (existsb (String.eqb (tagName a)) skipTags) eqn:Hk; auto.
  destruct (walk_wellFormed s el i a cs Hwf Hf Hk) as [H _].
  unfold walkTextNodes in H. now rewrite Hf, Hk in H.
Qed.

(** A second walk below the same element finds nothing to do. *)
Lemma walkTextNodes_twice el s :
  wellFormed s ->
  walkTextNodes el (walkTextNodes el s) = walkTextNodes el s.
Proof.
  intros Hwf.
  destruct (findInForest el (forest s)) as [[|i a cs|]|] eqn:Hf;
    try (unfold walkTextNodes at 2 3; rewrite Hf; unfold walkTextNodes;
         now rewrite Hf).
  destruct (existsb (String.eqb (tagName a)) skipTags) eqn:Hk.
  - unfold walkTextNodes at 2 3. rewrite Hf, Hk. unfold walkTextNodes.
    now rewrite Hf, Hk.
  - destruct (walk_wellFormed s el i a cs Hwf Hf Hk)
      as (_ & _ & (cs' & H1 & H2) & _).
    rewrite (walkTextNodes_eq _ el i a cs' H1 Hk), H2. reflexivity.
Qed.


(** *** The banner and the em-dashes outside the script's elements *)

Lemma removeNode_dashes b n :
  (forall x, In x (subnodes n) -> nodeId x = b -> dashesOutside x = 0) ->
  dashesOutside (removeNode b n) = dashesOutside n.
Proof.
  induction n as [i y|i a cs IH|i y] using node_ind'; intros H;
    try reflexivity.
  simpl. destruct (ours a); [reflexivity|].
  assert (Hc : forall c, In c cs -> forall x, In x (subnodes c) ->
                nodeId x = b -> dashesOutside x = 0).
  { intros c Hc x Hx. apply H. right. apply in_flat_map. eauto. }
  clear H. induction cs as [|c l IHl]; [reflexivity|].
  apply Forall_cons_iff in IH. destruct IH as [IHc IH]. simpl.
  rewrite nodeId_removeNode.
  destruct (Nat.eqb_spec (nodeId c) b) as [E|E]; simpl.
  - rewrite (Hc c (or_introl eq_refl) c (subnodes_self c) E). simpl.
    apply IHl; auto. intros c0 H0. apply Hc. now right.
  - rewrite IHc by (apply Hc; now left). f_equal.
    apply IHl; auto. intros c0 H0. apply Hc. now right.
Qed.

Lemma setText_dashes e f v n :
  ~ In e (visibleIds n) ->
  dashesOutside (setTextContent e f v n) = dashesOutside n.
Proof.
  induction n as [i y|i a cs IH|i y] using node_ind'; intros H;
    try reflexivity.
  simpl in *. unfold ours. destruct (contains BANNER (classList a)) eqn:Ea.
  - destruct (i =? e); simpl; unfold ours; rewrite Ea;
      now rewrite orb_true_r.
  - simpl in H. destruct (Nat.eqb_spec i e) as [E|E]; [tauto|].
    simpl. unfold ours. rewrite Ea.
    destruct (contains HIGHLIGHT (classList a)); simpl; [reflexivity|].
    assert (Hc : forall c, In c cs -> ~ In e (visibleIds c)).
    { intros c Hc Hin. apply H. right. apply in_flat_map. eauto. }
    clear H. induction cs as [|c l IHl]; [reflexivity|].
    apply Forall_cons_iff in IH. destruct IH as [IHc IH]. simpl.
    rewrite IHc by (apply Hc; now left). f_equal.
    apply IHl; auto. intros c0 H0. apply Hc. now right.
Qed.

Lemma banner_dashes i a cs :
  contains BANNER (classList a) = true -> dashesOutside (Element i a cs) = 0.
Proof. intros H. simpl. unfold ours. rewrite H. now rewrite orb_true_r. Qed.

Lemma appendChild_dashes c n :
  dashesOutside c = 0 -> dashesOutside (appendChild c n) = dashesOutside n.
Proof.
  intros H. destruct n as [|i a cs|]; try reflexivity. simpl.
  destruct (ours a); [reflexivity|].
  rewrite map_app, list_sum_app. simpl. lia.
Qed.

(** [updateWarningBanner] leaves the em-dashes outside the script's
    elements as they are. *)
Lemma updateWarningBanner_dashes s :
  uniqueIds s -> bannerRef s ->
  dashesOutside (body (updateWarningBanner s)) = dashesOutside (body s).
Proof.
  intros Hu Hb. pose proof Hu as [Hnd _].
  unfold updateWarningBanner.
  destruct (emDashCount s =? 0) eqn:E0.
  - unfold removeBanner. destruct (warningBanner s) as [b|] eqn:Eb; auto.
    destruct (Hb b Eb) as (a & cs & Hf & Hc).
    unfold remove. rewrite Hf.
    destruct (parentNode b (forest s)) as [pb|]; simpl; auto.
    apply removeNode_dashes. intros x H1 H2.
    rewrite (banner_nodes s b a cs Hu Hf (body s) x (or_introl eq_refl) H1 H2).
    now apply banner_dashes.
  - destruct (warningBanner s) as [b|] eqn:Eb.
    + destruct (Hb b Eb) as (a & cs & Hf & Hc). rewrite Hf.
      destruct (querySelector COUNT (Element b a cs)) as [countEl|] eqn:Eq;
        auto.
      unfold assignTextContent.
      destruct (findInForest (nodeId countEl) (forest s)) as [ce|];
        simpl; auto.
      apply setText_dashes.
      intros Hv. apply querySelector_subnode in Eq.
      apply findInForest_Some in Hf. destruct Hf as [Hf _].
      apply in_flat_map in Hf. destruct Hf as (n & Hn & Hf).
      assert (n = body s).
      { eapply NoDup_flat_map_same;
          [exact Hnd|exact Hn|now left| |apply visibleIds_ids; exact Hv].
        apply (ids_subnode n _ Hf), Eq. }
      subst n. revert Hv.
      apply (visible_not_in_banner (body s) (Element b a cs)); auto.
      apply (NoDup_flat_map_part _ _ ids (forest s)); auto.
    + simpl. apply appendChild_dashes. now apply banner_dashes.
Qed.

Lemma injectSparkleSvg_fields s :
  body (injectSparkleSvg s) = body s
  /\ forest (injectSparkleSvg s) = forest s
  /\ nextId (injectSparkleSvg s) = nextId s
  /\ warningBanner (injectSparkleSvg s) = warningBanner s
     /\ emDashCount (injectSparkleSvg s) = emDashCount s.
Proof. unfold injectSparkleSvg. now destruct (svgInjected s). Qed.

Lemma wellFormed_frame s s' :
  forest s' = forest s -> nextId s' = nextId s ->
  warningBanner s' = warningBanner s ->
  wellFormed s -> wellFormed s'.
Proof.
  intros Hf Hn Hw [[A1 A2] B C D].
  assert (Hb : body s' = body s) by (unfold forest in Hf; congruence).
  split.
  - split; rewrite Hf; [exact A1|now rewrite Hn].
  - now rewrite Hb.
  - now rewrite Hf.
  - intros b E. rewrite Hw in E. rewrite Hf. now apply D.
Qed.

Lemma isBody_find s :
  isBody (body s) ->
  exists i a cs, body s = Element i a cs
                 /\ findInForest i (forest s) = Some (Element i a cs)
                 /\ existsb (String.eqb (tagName a)) skipTags = false.
Proof.
  intros H. destruct (body s) as [|i a cs|] eqn:E; try contradiction.
  exists i, a, cs. split; [reflexivity|]. split.
  - pose proof (findInForest_body s) as F. now rewrite E in F.
  - simpl in H. now rewrite H.
Qed.

(** The state of [scanPage] after the walk. *)
Lemma scanPage_walked s :
  wellFormed s ->
  exists s2,
    scanPage s = updateWarningBanner s2
    /\ wellFormed s2
    /\ rootOf (body s2) = rootOf (body s)
    /\ walkerNodes (body s2) = []
    /\ warningBanner s2 = warningBanner s
    /\ emDashCount s2 = dashesOutside (body s).
Proof.
  intros Hwf. pose proof Hwf as [Hu Hbody Hs Hb].
  set (s0 := set_emDashCount 0 (set_scans (S (scans s)) s)).
  assert (Hwf0 : wellFormed s0) by (split; assumption).
  destruct (isBody_find s0 Hbody) as (i & a & cs & Eb & Hf & Hk).
  destruct (walk_wellFormed s0 i i a cs Hwf0 Hf Hk)
    as (W1 & W2 & _ & W4).
  specialize (W4 (eq_sym Eb)).
  set (s1 := walkTextNodes i s0) in *.
  exists (if 0 <? emDashCount s1 then injectSparkleSvg s1 else s1).
  assert (Hscan : scanPage s
                  = updateWarningBanner
                      (if 0 <? emDashCount s1 then injectSparkleSvg s1
                       else s1)).
  { unfold scanPage. cbv zeta. fold s0. now rewrite Eb. }
  assert (Hc : emDashCount s1 = dashesOutside (body s)).
  { destruct (scanPage_spec s Hwf) as (C1 & _). rewrite Hscan in C1.
    rewrite updateWarningBanner_count in C1. rewrite <- C1.
    destruct (0 <? emDashCount s1); [|reflexivity].
    unfold injectSparkleSvg. now destruct (svgInjected s1). }
  assert (Hw : warningBanner s1 = warningBanner s).
  { destruct (sameScan_fields _ _ (walkTextNodes_sameScan i s0)) as (F & _).
    exact F. }
  destruct (injectSparkleSvg_fields s1) as (I1 & I2 & I3 & I4 & I5).
  splits; auto.
  - apply (wellFormed_frame s1); auto; now destruct (0 <? emDashCount s1).
  - change (body s) with (body s0). rewrite <- W2.
    now destruct (0 <? emDashCount s1); [rewrite I1|].
  - rewrite <- W4. now destruct (0 <? emDashCount s1); [rewrite I1|].
  - rewrite <- Hw. now destruct (0 <? emDashCount s1).
  - rewrite <- Hc. now destruct (0 <? emDashCount s1).
Qed.

(** After a scan no em-dash is left outside the script's elements. *)
Lemma scanPage_complete s :
  wellFormed s -> dashesOutside (body (scanPage s)) = 0.
Proof.
  intros Hwf.
  destruct (scanPage_walked s Hwf) as (s2 & E & W & R & Hw & _).
  pose proof W as [Hu Hbody Hs Hb].
  rewrite E, (updateWarningBanner_dashes s2 Hu Hb).
  rewrite dashes_scannable.
  - unfold scannable. now rewrite Hw.
  - rewrite forallb_forall in Hs. apply Hs. now left.
  - destruct (body s2); try contradiction. reflexivity.
Qed.

Lemma no_dashes_no_walk n :
  shaped n = true -> isElement n = true -> dashesOutside n = 0 ->
  walkerNodes n = [].
Proof.
  intros Hs He H. rewrite (dashes_scannable n Hs He) in H.
  unfold scannable in H.
  destruct (walkerNodes n) as [|[t d] l] eqn:E; [reflexivity|].
  assert (Hin : In (t, d) (walkerNodes n)) by (rewrite E; now left).
  destruct (walker_in n t d Hin) as (_ & Hd & _).
  rewrite JSFacts.includes_occurrences in Hd. simpl in H.
  destruct (occurrences EM_DASH d); [discriminate|lia].
Qed.

(** *** The banner and well-formedness: a new banner *)

Lemma indent_plain n : includes EM_DASH (indent n) = false.
Proof.
  unfold indent. simpl. induction n as [|n IH]; simpl; auto.
Qed.

Lemma bannerElement_shaped i c : shaped (bannerElement i c) = true.
Proof.
  cbn -[indent lit String_of_nat]. rewrite !app_nil_r.
  rewrite !JSFacts.includes_app, !indent_plain, JSFacts.lit_plain,
    JSFacts.String_of_nat_plain.
  reflexivity.
Qed.

Lemma bannerElement_ids i c : ids (bannerElement i c) = seq i 8.
Proof. reflexivity. Qed.

Lemma fresh_findNode i n :
  (forall j, In j (ids n) -> j < i) -> findNode i n = None.
Proof.
  intros H. apply findNode_None. intros Hi. apply H in Hi. lia.
Qed.

Lemma bannerElement_plain i c :
  includes EM_DASH (descendantText (bannerElement i c)) = false.
Proof.
  cbn -[indent lit String_of_nat]. rewrite !app_nil_r.
  rewrite !JSFacts.includes_app, !indent_plain, JSFacts.lit_plain,
    JSFacts.String_of_nat_plain.
  reflexivity.
Qed.

Lemma appendChild_shaped c n :
  shaped n = true -> hasClass HIGHLIGHT n = false ->
  shaped c = true -> includes EM_DASH (descendantText c) = false ->
  allHighlights c = [] ->
  shaped (appendChild c n) = true.
Proof.
  intros Hn Hh Hc Hd Ha. destruct n as [|i a cs|]; auto.
  cbn [appendChild shaped hasClass] in *. rewrite Hh in *.
  apply andb_prop in Hn. destruct Hn as [Hn Hs].
  rewrite !forallb_app, Hs. cbn [forallb]. rewrite Hc, !andb_true_r.
  cbn [andb negb] in *.
  destruct (contains BANNER (classList a)); [|reflexivity].
  apply andb_prop in Hn. destruct Hn as [H1 H2].
  rewrite flat_map_app, JSFacts.includes_app. cbn [flat_map].
  rewrite app_nil_r, Hd, orb_false_r. rewrite H1, H2.
  unfold allHighlights in Ha. now rewrite Ha.
Qed.

Lemma append_wellFormed s c :
  wellFormed s -> hasClass HIGHLIGHT (body s) = false ->
  wellFormed
    (set_body (appendChild (bannerElement (nextId s) c) (body s))
       (set_warningBanner (Some (nextId s)) (set_nextId (8 + nextId s) s))).
Proof.
  intros [[Hnd Hlt] Hbody Hs Hb] Hh.
  destruct (body s) as [|j a cs|] eqn:Eb; try contradiction.
  rewrite Forall_forall in Hlt.
  assert (Hf : flat_map ids (forest s)
               = (j :: flat_map ids cs) ++ flat_map ids (detached s)).
  { unfold forest. rewrite Eb. cbn [flat_map]. now rewrite ids_Element. }
  assert (Hp : Permutation
                 (ids (Element j a (cs ++ [bannerElement (nextId s) c]))
                    ++ flat_map ids (detached s))
                 (flat_map ids (forest s) ++ seq (nextId s) 8)).
  { rewrite Hf, ids_Element, flat_map_app.
    change (flat_map ids [bannerElement (nextId s) c])
      with (seq (nextId s) 8 ++ []).
    rewrite app_nil_r, <- !app_comm_cons. apply perm_skip.
    rewrite <- !app_assoc.
    apply Permutation_app_head, Permutation_app_comm. }
  split.
  - split; simpl; unfold forest; simpl.
    + eapply Permutation_NoDup; [symmetry; exact Hp|].
      apply NoDup_app; [exact Hnd|apply seq_NoDup|].
      intros i Hi Hi'. apply Hlt in Hi. apply in_seq in Hi'. lia.
    + eapply Permutation_Forall; [symmetry; exact Hp|].
      apply Forall_app. split; apply Forall_forall; intros i Hi.
      * apply Hlt in Hi. lia.
      * apply in_seq in Hi. lia.
  - exact Hbody.
  - unfold forest in *. cbn [body detached set_body set_warningBanner
                               set_nextId forallb] in *.
    rewrite Eb in Hs. cbn [forallb] in Hs.
    apply andb_prop in Hs. destruct Hs as [Hs Hd]. rewrite Hd, andb_true_r.
    apply appendChild_shaped; auto.
    + apply bannerElement_shaped.
    + apply bannerElement_plain.
  - intros b E. simpl in E. injection E as <-.
    exists (plain "DIV" [BANNER]).
    eexists. split; [|reflexivity].
    unfold findInForest, forest. simpl body. simpl detached.
    cbn [firstSome findNode]. cbn [nodeId].
    assert (Hj : j < nextId s).
    { apply Hlt. rewrite Hf. now left. }
    destruct (Nat.eqb_spec j (nextId s)) as [E|_]; [lia|].
    rewrite firstSome_app.
    assert (Hn : firstSome (findNode (nextId s)) cs = None).
    { apply firstSome_None. intros x Hx. apply fresh_findNode.
      intros k Hk. apply Hlt. rewrite Hf. right. apply in_or_app. left.
      apply in_flat_map. eauto. }
    rewrite Hn. simpl. rewrite Nat.eqb_refl. reflexivity.
Qed.


(** *** The banner and well-formedness: the count is rewritten *)

Lemma isText_setText e f v n : isText (setTextContent e f v n) = isText n.
Proof. destruct n; simpl; auto. now destruct (_ =? _). Qed.

Lemma setText_plain c e f v n :
  includes c v = false -> includes c (descendantText n) = false ->
  includes c (descendantText (setTextContent e f v n)) = false.
Proof.
  intros Hv. induction n as [i y|i a cs IH|i y] using node_ind'; auto.
  intros H. simpl. destruct (i =? e).
  - simpl. now rewrite app_nil_r.
  - simpl in *. induction cs as [|k l IHl]; [reflexivity|].
    apply Forall_cons_iff in IH. destruct IH as [IHk IH]. simpl in *.
    rewrite JSFacts.includes_app in *. apply orb_false_iff in H.
    destruct H as [H1 H2]. rewrite (IHk H1). simpl. now apply IHl.
Qed.

Lemma setText_plain_list c e f v l :
  includes c v = false -> includes c (flat_map descendantText l) = false ->
  includes c (flat_map descendantText (map (setTextContent e f v) l)) = false.
Proof.
  intros Hv. induction l as [|k l IHl]; [reflexivity|]. simpl.
  rewrite !JSFacts.includes_app. intros H. apply orb_false_iff in H.
  destruct H as [H1 H2]. rewrite (setText_plain c e f v k Hv H1).
  simpl. now apply IHl.
Qed.

Lemma forallb_mapped (A B : Type) (p : B -> bool) (g : A -> B) l :
  forallb p (map g l) = forallb (fun x => p (g x)) l.
Proof. induction l as [|x l IH]; simpl; congruence. Qed.

Lemma forallb_impl (A : Type) (p q : A -> bool) l :
  (forall x, In x l -> p x = true -> q x = true) ->
  forallb p l = true -> forallb q l = true.
Proof.
  intros H Hp. rewrite forallb_forall in Hp. apply forallb_forall. auto.
Qed.

Lemma setText_shaped e f v n :
  includes EM_DASH v = false -> shaped n = true ->
  shaped (setTextContent e f v n) = true.
Proof.
  intros Hv. induction n as [i y|i a cs IH|i y] using node_ind'; auto.
  intros H. cbn [shaped setTextContent] in *.
  apply andb_prop in H. destruct H as [H Hs].
  apply andb_prop in H. destruct H as [Hh Hb].
  destruct (i =? e).
  - cbn [shaped forallb isText flat_map descendantText selfOrDescendants].
    rewrite app_nil_r, Hv.
    destruct (contains HIGHLIGHT (classList a));
      destruct (contains BANNER (classList a)); try reflexivity.
    discriminate.
  - cbn [shaped]. apply andb_true_intro. split; [apply andb_true_intro; split|].
    + destruct (contains HIGHLIGHT (classList a)); [|reflexivity].
      rewrite forallb_mapped. revert Hh. apply forallb_impl.
      intros x _. now rewrite isText_setText.
    + destruct (contains BANNER (classList a)); [|reflexivity].
      apply andb_prop in Hb. destruct Hb as [Hb B3].
      apply andb_prop in Hb. destruct Hb as [B1 B2].
      rewrite B1. cbn [andb]. apply andb_true_intro. split.
      * apply negb_true_iff in B2. apply negb_true_iff.
        now apply setText_plain_list.
      * rewrite forallb_mapped. revert B3. apply forallb_impl.
        intros x _ Hx.
        destruct (selfOrDescendants HIGHLIGHT x) eqn:Ex; [|discriminate].
        change (selfOrDescendants HIGHLIGHT (setTextContent e f v x))
          with (allHighlights (setTextContent e f v x)).
        now rewrite (setText_no_highlights e f v x Ex).
    + rewrite forallb_mapped. rewrite Forall_forall in IH.
      revert Hs. apply forallb_impl. intros x Hx. now apply IH.
Qed.

Lemma setText_ids_list e f v x l :
  Forall (fun c => NoDup (ids c) -> In x (subnodes c) ->
                   Permutation (ids (setTextContent e f v c) ++ childIds x)
                               (f :: ids c)) l ->
  NoDup (flat_map ids l) -> In x (flat_map subnodes l) -> nodeId x = e ->
  Permutation (flat_map ids (map (setTextContent e f v) l) ++ childIds x)
              (f :: flat_map ids l).
Proof.
  intros IH Hnd Hx He. apply in_flat_map in Hx.
  destruct Hx as (c & Hc & Hx).
  assert (Hec : In e (ids c)) by (rewrite <- He; now apply in_ids).
  induction l as [|c0 l IHl]; [contradiction|].
  apply Forall_cons_iff in IH. destruct IH as [IH0 IH].
  cbn [map flat_map]. destruct (in_dec Nat.eq_dec e (ids c0)) as [H0|H0].
  - assert (c0 = c).
    { eapply NoDup_flat_map_same;
        [exact Hnd|now left|exact Hc|exact H0|exact Hec]. }
    subst c0.
    assert (Hl : map (setTextContent e f v) l = l).
    { apply map_id_in. intros y Hy. apply setText_absent. intros Hin.
      simpl in Hnd. apply (NoDup_app_disjoint _ _ _ e Hnd); auto.
      apply in_flat_map. eauto. }
    rewrite Hl.
    assert (Hndc : NoDup (ids c))
      by (eapply NoDup_flat_map_part; [exact Hnd|now left]).
    specialize (IH0 Hndc Hx).
    rewrite <- app_assoc.
    eapply Permutation_trans;
      [apply Permutation_app_head, Permutation_app_comm|].
    rewrite app_assoc, app_comm_cons.
    now apply Permutation_app_tail.
  - rewrite (setText_absent e f v c0 H0).
    destruct Hc as [->|Hc]; [contradiction|].
    rewrite <- app_assoc.
    eapply Permutation_trans; [|symmetry; apply Permutation_middle].
    apply Permutation_app_head. apply IHl; auto.
    simpl in Hnd. exact (NoDup_app_remove_l _ _ Hnd).
Qed.

Lemma setText_ids e f v x n :
  nodeId x = e -> isElement x = true ->
  NoDup (ids n) -> In x (subnodes n) ->
  Permutation (ids (setTextContent e f v n) ++ childIds x) (f :: ids n).
Proof.
  intros He Hel.
  induction n as [i y|i a cs IH|i y] using node_ind'; intros Hnd Hx.
  - destruct Hx as [<-|[]]. discriminate.
  - destruct (Nat.eq_dec i e) as [E|E].
    + assert (x = Element i a cs).
      { apply (NoDup_map_eq _ _ nodeId _ x (Element i a cs) Hnd); auto.
        - apply subnodes_self.
        - simpl. congruence. }
      subst x. subst e. cbn [setTextContent]. rewrite Nat.eqb_refl.
      rewrite ids_Element. unfold childIds. cbn [childNodesOf].
      cbn [flat_map]. rewrite app_nil_r.
      change (ids (Text f v)) with [f]. rewrite ids_Element.
      apply perm_swap.
    + destruct Hx as [<-|Hx]; [simpl in He; contradiction|].
      cbn [setTextContent]. apply Nat.eqb_neq in E. rewrite E.
      rewrite !ids_Element. rewrite ids_Element in Hnd.
      apply NoDup_cons_iff in Hnd. destruct Hnd as [_ Hnd].
      rewrite <- app_comm_cons.
      eapply Permutation_trans; [|apply perm_swap]. apply perm_skip.
      apply setText_ids_list; auto.
  - destruct Hx as [<-|[]]. discriminate.
Qed.

Lemma setText_ids_forest e f v x l :
  nodeId x = e -> isElement x = true ->
  NoDup (flat_map ids l) -> In x (flat_map subnodes l) ->
  Permutation (flat_map ids (map (setTextContent e f v) l) ++ childIds x)
              (f :: flat_map ids l).
Proof.
  intros He Hel Hnd Hx. apply setText_ids_list; auto.
  apply Forall_forall. intros c _. now apply setText_ids.
Qed.

Lemma setText_subnode e f v x n :
  NoDup (ids n) -> In x (subnodes n) -> In e (childIds x) ->
  In (setTextContent e f v x) (subnodes (setTextContent e f v n)).
Proof.
  intros Hnd Hx He.
  induction n as [i y|i a cs IH|i y] using node_ind'.
  - destruct Hx as [<-|[]]. apply subnodes_self.
  - destruct Hx as [<-|Hx]; [apply subnodes_self|].
    apply in_flat_map in Hx. destruct Hx as (c & Hc & Hx).
    assert (Hec : In e (flat_map ids cs)).
    { apply in_flat_map. exists c. split; [exact Hc|].
      apply (ids_subnode c x Hx). rewrite ids_cons. now right. }
    rewrite ids_Element in Hnd. apply NoDup_cons_iff in Hnd.
    destruct Hnd as [Hi Hnd].
    assert (E : i <> e) by (intros ->; contradiction).
    cbn [setTextContent]. apply Nat.eqb_neq in E. rewrite E.
    right. apply in_flat_map. exists (setTextContent e f v c).
    split; [now apply in_map|]. rewrite Forall_forall in IH.
    apply IH; auto. eapply NoDup_flat_map_part; eauto.
  - destruct Hx as [<-|[]]. apply subnodes_self.
Qed.

Lemma assign_wellFormed s b a cs ce :
  wellFormed s ->
  warningBanner s = Some b ->
  findInForest b (forest s) = Some (Element b a cs) ->
  querySelector COUNT (Element b a cs) = Some ce ->
  forall v, includes EM_DASH v = false ->
  wellFormed (assignTextContent (nodeId ce) v s).
Proof.
  intros [[Hnd Hlt] Hbody Hs Hb] Hw Hf Hq v Hv.
  destruct (querySelector_child COUNT (Element b a cs) ce Hq)
    as (Hsub & Hch & Hcls).
  pose proof (findInForest_Some b (forest s) (Element b a cs) Hf) as [Hin _].
  assert (Hce : In ce (flat_map subnodes (forest s))).
  { apply in_flat_map in Hin. destruct Hin as (t & Ht & Hin).
    apply in_flat_map. exists t. split; auto.
    eapply subnodes_trans; eauto. }
  assert (Hel : isElement ce = true) by (destruct ce; auto; discriminate).
  unfold assignTextContent.
  rewrite (findInForest_unique (forest s) ce Hnd Hce).
  set (e := nodeId ce). set (f := nextId s).
  assert (Hp : Permutation
                 (flat_map ids (map (setTextContent e f v) (forest s))
                    ++ childIds ce)
                 (f :: flat_map ids (forest s)))
    by (now apply setText_ids_forest).
  assert (Hforest :
            forest (set_nextId (S f)
                      (set_detached
                         (map (setTextContent e f v) (detached s)
                            ++ childNodesOf ce)
                         (set_body (setTextContent e f v (body s)) s)))
            = map (setTextContent e f v) (forest s) ++ childNodesOf ce)
    by reflexivity.
  rewrite Forall_forall in Hlt.
  assert (Hnd' : NoDup (flat_map ids
                          (map (setTextContent e f v) (forest s)
                             ++ childNodesOf ce))).
  { rewrite flat_map_app. eapply Permutation_NoDup; [symmetry; exact Hp|].
    apply NoDup_cons; [|exact Hnd]. intros Hi. apply Hlt in Hi.
    unfold f in Hi. lia. }
  split.
  - split; rewrite Hforest; [exact Hnd'|].
    rewrite flat_map_app. eapply Permutation_Forall; [symmetry; exact Hp|].
    constructor; [simpl; lia|]. apply Forall_forall. intros i Hi.
    apply Hlt in Hi. simpl. unfold f. lia.
  - apply (isBody_rootOf (body s)); [|exact Hbody]. apply rootOf_setText.
  - rewrite Hforest, forallb_app. apply andb_true_intro. split.
    + rewrite forallb_mapped. revert Hs. apply forallb_impl.
      intros x _. now apply setText_shaped.
    + apply forallb_forall. intros x Hx.
      apply in_flat_map in Hce. destruct Hce as (t & Ht & Hce).
      rewrite forallb_forall in Hs. apply (shaped_subnode t); [now apply Hs|].
      apply (subnodes_trans t x ce Hce).
      destruct ce as [|j a' cs'|]; try contradiction.
      right. apply in_flat_map. exists x. split; [exact Hx|].
      apply subnodes_self.
  - intros b' Hb'. simpl in Hb'. rewrite Hw in Hb'. injection Hb' as <-.
    assert (Hne : b <> e).
    { intros ->. apply in_flat_map in Hin. destruct Hin as (t & Ht & Hin).
      assert (Hndb : NoDup (ids (Element e a cs))).
      { apply (NoDup_subnode t); auto.
        apply (NoDup_flat_map_part _ _ ids (forest s)); auto. }
      rewrite ids_cons in Hndb. apply NoDup_cons_iff in Hndb.
      now destruct Hndb. }
    exists a, (map (setTextContent e f v) cs). split; [|now destruct (Hb b Hw) as (a0 & cs0 & H1 & H2); rewrite Hf in H1; injection H1 as <- <-].
    rewrite Hforest.
    assert (Hx : In (setTextContent e f v (Element b a cs))
                   (flat_map subnodes
                      (map (setTextContent e f v) (forest s)
                         ++ childNodesOf ce))).
    { rewrite flat_map_app. apply in_or_app. left.
      apply in_flat_map in Hin. destruct Hin as (t & Ht & Hin).
      apply in_flat_map. exists (setTextContent e f v t).
      split; [now apply in_map|]. apply setText_subnode; auto.
      apply (NoDup_flat_map_part _ _ ids (forest s)); auto. }
    pose proof (findInForest_unique _ _ Hnd' Hx) as Hfind.
    rewrite nodeId_setTextContent in Hfind. cbn [nodeId] in Hfind.
    rewrite Hfind. cbn [setTextContent]. apply Nat.eqb_neq in Hne.
    now rewrite Hne.
Qed.


(** *** The banner and well-formedness: the banner goes *)

Lemma rootOf_removeNode b n : rootOf (removeNode b n) = rootOf n.
Proof. now destruct n. Qed.

Lemma isText_removeNode b n : isText (removeNode b n) = isText n.
Proof. now destruct n. Qed.

Lemma removeNode_absent b n : ~ In b (childIds n) -> removeNode b n = n.
Proof.
  induction n as [i y|i a cs IH|i y] using node_ind'; try reflexivity.
  intros H. cbn [removeNode]. f_equal. rewrite Forall_forall in IH.
  assert (Hm : map (removeNode b) cs = cs).
  { apply map_id_in. intros c Hc. apply IH; auto. intros Hin. apply H.
    apply in_flat_map. exists c. split; [exact Hc|].
    rewrite ids_cons. now right. }
  rewrite Hm. apply filter_keep. intros c Hc.
  apply negb_true_iff, Nat.eqb_neq. intros E. apply H.
  apply in_flat_map. exists c. split; [exact Hc|].
  rewrite ids_cons. now left.
Qed.

Lemma removeNode_plain c b n :
  includes c (descendantText n) = false ->
  includes c (descendantText (removeNode b n)) = false.
Proof.
  induction n as [i y|i a cs IH|i y] using node_ind'; auto.
  cbn [removeNode descendantText].
  induction cs as [|k l IHl]; [reflexivity|].
  apply Forall_cons_iff in IH. destruct IH as [IHk IH].
  cbn [map filter flat_map]. rewrite JSFacts.includes_app. intros H.
  apply orb_false_iff in H. destruct H as [H1 H2].
  destruct (negb (nodeId (removeNode b k) =? b)); [|now apply IHl].
  cbn [flat_map]. rewrite JSFacts.includes_app, (IHk H1). now apply IHl.
Qed.

Lemma removeNode_no_highlights b n :
  allHighlights n = [] -> allHighlights (removeNode b n) = [].
Proof.
  unfold allHighlights.
  induction n as [i y|i a cs IH|i y] using node_ind'; auto.
  cbn [removeNode selfOrDescendants]. intros H.
  apply app_eq_nil in H. destruct H as [H1 H2].
  destruct (contains HIGHLIGHT (classList a)); [discriminate|].
  cbn [app]. clear H1.
  induction cs as [|k l IHl]; [reflexivity|].
  apply Forall_cons_iff in IH. destruct IH as [IHk IH].
  cbn [flat_map] in H2. apply app_eq_nil in H2. destruct H2 as [H1 H2].
  cbn [map filter].
  destruct (negb (nodeId (removeNode b k) =? b)); [|now apply IHl].
  cbn [flat_map]. rewrite (IHk H1). now apply IHl.
Qed.

Lemma forallb_filter (A : Type) (p q : A -> bool) l :
  forallb p l = true -> forallb p (filter q l) = true.
Proof.
  intros H. rewrite forallb_forall in H. apply forallb_forall.
  intros x Hx. apply filter_In in Hx. apply H. tauto.
Qed.

Lemma removeNode_plain_list c b l :
  includes c (flat_map descendantText l) = false ->
  includes c (flat_map descendantText
                (filter (fun k => negb (nodeId k =? b))
                        (map (removeNode b) l))) = false.
Proof.
  induction l as [|k l IHl]; [reflexivity|].
  cbn [map filter flat_map]. rewrite JSFacts.includes_app. intros H.
  apply orb_false_iff in H. destruct H as [H1 H2].
  destruct (negb (nodeId (removeNode b k) =? b)); [|now apply IHl].
  cbn [flat_map]. rewrite JSFacts.includes_app.
  rewrite (removeNode_plain c b k H1). now apply IHl.
Qed.

Lemma removeNode_shaped b n : shaped n = true -> shaped (removeNode b n) = true.
Proof.
  induction n as [i y|i a cs IH|i y] using node_ind'; auto.
  intros H. cbn [shaped removeNode] in *.
  apply andb_prop in H. destruct H as [H Hs].
  apply andb_prop in H. destruct H as [Hh Hb].
  apply andb_true_intro. split; [apply andb_true_intro; split|].
  - destruct (contains HIGHLIGHT (classList a)); [|reflexivity].
    apply forallb_filter. rewrite forallb_mapped. revert Hh.
    apply forallb_impl. intros x _. now rewrite isText_removeNode.
  - destruct (contains BANNER (classList a)); [|reflexivity].
    apply andb_prop in Hb. destruct Hb as [Hb B3].
    apply andb_prop in Hb. destruct Hb as [B1 B2].
    rewrite B1. cbn [andb]. apply andb_true_intro. split.
    + apply negb_true_iff in B2. apply negb_true_iff.
      now apply removeNode_plain_list.
    + apply forallb_filter. rewrite forallb_mapped. revert B3.
      apply forallb_impl. intros x _ Hx.
      destruct (selfOrDescendants HIGHLIGHT x) eqn:Ex; [|discriminate].
      change (selfOrDescendants HIGHLIGHT (removeNode b x))
        with (allHighlights (removeNode b x)).
      now rewrite (removeNode_no_highlights b x Ex).
  - apply forallb_filter. rewrite forallb_mapped. rewrite Forall_forall in IH.
    revert Hs. apply forallb_impl. intros x Hx. now apply IH.
Qed.

Lemma removeNode_ids_list b x l :
  Forall (fun c => NoDup (ids c) -> In x (subnodes c) ->
                   In b (childIds c) ->
                   Permutation (ids (removeNode b c) ++ ids x) (ids c)) l ->
  NoDup (flat_map ids l) -> In x (flat_map subnodes l) -> nodeId x = b ->
  Permutation
    (flat_map ids (filter (fun c => negb (nodeId c =? b))
                          (map (removeNode b) l)) ++ ids x)
    (flat_map ids l).
Proof.
  intros IH Hnd Hx He. apply in_flat_map in Hx.
  destruct Hx as (c & Hc & Hx).
  assert (Hbc : In b (ids c)) by (rewrite <- He; now apply in_ids).
  induction l as [|c0 l IHl]; [contradiction|].
  apply Forall_cons_iff in IH. destruct IH as [IH0 IH].
  cbn [map filter flat_map]. rewrite nodeId_removeNode.
  destruct (in_dec Nat.eq_dec b (ids c0)) as [H0|H0].
  - assert (c0 = c).
    { eapply NoDup_flat_map_same;
        [exact Hnd|now left|exact Hc|exact H0|exact Hbc]. }
    subst c0.
    assert (Hl : filter (fun k => negb (nodeId k =? b)) (map (removeNode b) l)
                 = l).
    { assert (Hout : forall y, In y l -> ~ In b (ids y)).
      { intros y Hy Hin. simpl in Hnd.
        apply (NoDup_app_disjoint _ _ _ b Hnd); auto.
        apply in_flat_map. eauto. }
      assert (Hm : map (removeNode b) l = l).
      { apply map_id_in. intros y Hy. apply removeNode_absent.
        intros Hin. apply (Hout y Hy). rewrite ids_cons. now right. }
      rewrite Hm. apply filter_keep. intros y Hy.
      apply negb_true_iff, Nat.eqb_neq. intros E. apply (Hout y Hy).
      rewrite ids_cons. now left. }
    rewrite Hl.
    assert (Hndc : NoDup (ids c))
      by (eapply NoDup_flat_map_part; [exact Hnd|now left]).
    destruct (Nat.eqb_spec (nodeId c) b) as [E|E]; cbn [negb].
    + assert (x = c).
      { apply (NoDup_map_eq _ _ nodeId _ x c Hndc); auto.
        - apply subnodes_self.
        - congruence. }
      subst x. apply Permutation_app_comm.
    + cbn [flat_map]. rewrite ids_cons in Hbc.
      destruct Hbc as [Hbc|Hbc]; [contradiction|].
      specialize (IH0 Hndc Hx Hbc). rewrite <- app_assoc.
      eapply Permutation_trans;
        [apply Permutation_app_head, Permutation_app_comm|].
      rewrite app_assoc. now apply Permutation_app_tail.
  - assert (E : nodeId c0 <> b).
    { intros E. apply H0. rewrite ids_cons. now left. }
    apply Nat.eqb_neq in E. rewrite E. cbn [negb flat_map].
    rewrite removeNode_absent
      by (intros Hin; apply H0; rewrite ids_cons; now right).
    destruct Hc as [->|Hc]; [contradiction|].
    rewrite <- app_assoc. apply Permutation_app_head. apply IHl; auto.
    simpl in Hnd. exact (NoDup_app_remove_l _ _ Hnd).
Qed.

Lemma removeNode_ids b x n :
  nodeId x = b -> NoDup (ids n) -> In x (subnodes n) -> In b (childIds n) ->
  Permutation (ids (removeNode b n) ++ ids x) (ids n).
Proof.
  intros He.
  induction n as [i y|i a cs IH|i y] using node_ind'; intros Hnd Hx Hb;
    try contradiction.
  rewrite ids_Element in Hnd. pose proof Hnd as Hnd0.
  apply NoDup_cons_iff in Hnd. destruct Hnd as [Hi Hnd].
  destruct Hx as [<-|Hx].
  - simpl in He. subst i. contradiction.
  - cbn [removeNode]. rewrite !ids_Element, <- app_comm_cons.
    apply perm_skip. now apply removeNode_ids_list.
Qed.

Lemma roots_kept b l :
  NoDup (flat_map ids l) -> In b (flat_map childIds l) ->
  filter (fun c => negb (nodeId c =? b)) (map (removeNode b) l)
  = map (removeNode b) l.
Proof.
  intros Hnd Hb. apply filter_keep. intros y Hy.
  apply in_map_iff in Hy. destruct Hy as (t & <- & Ht).
  rewrite nodeId_removeNode. apply negb_true_iff, Nat.eqb_neq. intros E.
  apply in_flat_map in Hb. destruct Hb as (t' & Ht' & Hb).
  assert (t = t').
  { eapply NoDup_flat_map_same; [exact Hnd|exact Ht|exact Ht'| |].
    - rewrite ids_cons. left. exact E.
    - rewrite ids_cons. now right. }
  subst t'. assert (Hndt : NoDup (ids t))
    by (eapply NoDup_flat_map_part; eauto).
  rewrite ids_cons in Hndt. apply NoDup_cons_iff in Hndt.
  destruct Hndt as [Hndt _]. apply Hndt. now rewrite E.
Qed.

Lemma unset_wellFormed s : wellFormed s -> wellFormed (set_warningBanner None s).
Proof.
  intros [A B C D]. split; auto. intros b E. discriminate.
Qed.

Lemma removeBanner_wellFormed s :
  wellFormed s -> wellFormed (removeBanner s).
Proof.
  intros Hwf. pose proof Hwf as [[Hnd Hlt] Hbody Hs Hb].
  unfold removeBanner. destruct (warningBanner s) as [b|] eqn:Ew; auto.
  unfold remove.
  destruct (parentNode b (forest s)) as [pb|] eqn:Ep;
    [|now apply unset_wellFormed].
  destruct (findInForest b (forest s)) as [n|] eqn:Ef;
    [|now apply unset_wellFormed].
  assert (Hch : In b (flat_map childIds (forest s)))
    by (apply parentNode_Some; eauto).
  destruct (findInForest_Some b _ n Ef) as [Hn Hid].
  assert (Hforest :
            forest (set_warningBanner None
                      (set_detached (map (removeNode b) (detached s) ++ [n])
                         (set_body (removeNode b (body s)) s)))
            = map (removeNode b) (forest s) ++ [n]) by reflexivity.
  assert (Hp : Permutation
                 (flat_map ids (map (removeNode b) (forest s) ++ [n]))
                 (flat_map ids (forest s))).
  { rewrite flat_map_app. cbn [flat_map]. rewrite app_nil_r.
    rewrite <- (roots_kept b (forest s) Hnd Hch).
    apply removeNode_ids_list; auto.
    apply Forall_forall. intros c _. now apply removeNode_ids. }
  split.
  - split; rewrite Hforest.
    + eapply Permutation_NoDup; [symmetry; exact Hp|exact Hnd].
    + eapply Permutation_Forall; [symmetry; exact Hp|exact Hlt].
  - apply (isBody_rootOf (body s)); [|exact Hbody]. apply rootOf_removeNode.
  - rewrite Hforest, forallb_app. apply andb_true_intro. split.
    + rewrite forallb_mapped. revert Hs. apply forallb_impl.
      intros x _. apply removeNode_shaped.
    + cbn [forallb]. rewrite andb_true_r.
      apply in_flat_map in Hn. destruct Hn as (t & Ht & Hn).
      rewrite forallb_forall in Hs. apply (shaped_subnode t); auto.
  - intros b' E. discriminate.
Qed.

(** [updateWarningBanner] keeps a sound page sound. *)
Lemma updateWarningBanner_sound s : sound s -> sound (updateWarningBanner s).
Proof.
  intros [Hwf Hh]. split.
  - unfold updateWarningBanner.
    destruct (emDashCount s =? 0); [now apply removeBanner_wellFormed|].
    destruct (warningBanner s) as [b|] eqn:Ew;
      [|now apply append_wellFormed].
    pose proof (wf_banner Hwf) as Hb.
    destruct (Hb b Ew) as (a & cs & Hf & _). rewrite Hf.
    destruct (querySelector COUNT (Element b a cs)) as [ce|] eqn:Eq;
      [|exact Hwf].
    apply (assign_wellFormed s b a cs ce); auto.
    apply JSFacts.String_of_nat_plain.
  - rewrite <- Hh. apply hasClass_rootOf.
    unfold updateWarningBanner, removeBanner, remove, assignTextContent.
    destruct (emDashCount s =? 0).
    + destruct (warningBanner s); [|reflexivity].
      destruct (parentNode _ _); [|reflexivity].
      destruct (findInForest _ _); [|reflexivity].
      apply rootOf_removeNode.
    + destruct (warningBanner s).
      * destruct (findInForest _ _); [|reflexivity].
        destruct (querySelector _ _); [|reflexivity].
        destruct (findInForest _ _); [|reflexivity].
        apply rootOf_setText.
      * cbn [body set_body]. now destruct (body s).
Qed.

Lemma scanPage_sound s : sound s -> sound (scanPage s).
Proof.
  intros [Hwf Hh].
  destruct (scanPage_walked s Hwf) as (s2 & E & W & R & _).
  rewrite E. apply updateWarningBanner_sound. split; [exact W|].
  rewrite <- Hh. now apply hasClass_rootOf.
Qed.

Lemma soundb_sound s : soundb s = true -> sound s.
Proof.
  unfold soundb. intros H. apply andb_prop in H. destruct H as [H1 H2].
  split; [now apply wellFormedb_sound|now apply negb_true_iff].
Qed.


(** *** Scans that follow one another *)

Lemma sound_no_walk s :
  sound s -> dashesOutside (body s) = 0 -> treeWalker (body s) = [].
Proof.
  intros [[Hu Hbody Hs Hb] _] H. rewrite treeWalker_walkerNodes.
  rewrite no_dashes_no_walk; auto.
  - rewrite forallb_forall in Hs. apply Hs. now left.
  - destruct (body s); try contradiction. reflexivity.
Qed.

(** *** The fragment of [highlightTextNode] *)

Lemma buildFragment_pieces parts : forall s,
  Forall (fun p => includes EM_DASH p = false) parts ->
  forallb piece (fst (buildFragment parts s)) = true.
Proof.
  induction parts as [|p rest IH]; intros s Hp; [reflexivity|].
  apply Forall_cons_iff in Hp. destruct Hp as [Hp Hrest].
  destruct rest as [|q rest'].
  - cbn [buildFragment]. destruct (truthy p) eqn:Tp; cbn; [|reflexivity].
    now rewrite Tp, Hp.
  - rewrite buildFragment_cons. remember (q :: rest') as rest eqn:Er.
    clear Er.
    destruct (truthy p) eqn:Tp; cbn [createTextNode createHighlight].
    + specialize (IH (set_randomCalls (2 + randomCalls (set_nextId (S (nextId s)) s))
                        (set_nextId (2 + nextId (set_nextId (S (nextId s)) s))
                           (set_nextId (S (nextId s)) s))) Hrest).
      destruct (buildFragment rest _) as [f s3]. cbn [fst] in *.
      cbn [app forallb piece]. rewrite Tp, Hp, IH. reflexivity.
    + specialize (IH (set_randomCalls (2 + randomCalls s)
                        (set_nextId (2 + nextId s) s)) Hrest).
      destruct (buildFragment rest _) as [f s3]. cbn [fst] in *.
      cbn [app forallb piece]. rewrite IH. reflexivity.
Qed.

Lemma highlight_pieces s t d :
  uniqueIds s ->
  In (Text t d) (flat_map subnodes (forest s)) ->
  includes EM_DASH d = true ->
  In t (flat_map childIds (forest s)) ->
  exists frag,
    forest (highlightTextNode t s)
    = map (replaceChild t frag) (forest s) ++ [Text t d]
    /\ forallb piece frag = true
    /\ flat_map descendantText frag = d
    /\ List.length (flat_map allHighlights frag) = occurrences EM_DASH d
    /\ emDashCount (highlightTextNode t s)
       = emDashCount s + occurrences EM_DASH d.
Proof.
  intros [Hnd Hlt] Hin Hd Hp. unfold highlightTextNode.
  pose proof (findInForest_unique _ (Text t d) Hnd Hin) as Hfind.
  change (nodeId (Text t d)) with t in Hfind.
  rewrite Hfind, Hd. simpl negb. cbv iota.
  pose proof (buildFragment_pieces (split EM_DASH d)
                (set_emDashCount
                   (emDashCount s + (List.length (split EM_DASH d) - 1)) s)
                (JSFacts.split_pieces EM_DASH d)) as Hpc.
  destruct (buildFragment _ _) as [frag s2] eqn:Eb.
  destruct (buildFragment_spec _ _ _ _ (JSFacts.split_pieces EM_DASH d) Eb)
    as (H1 & H2 & H3 & H4 & (k & H5 & H6) & H7).
  rewrite JSFacts.join_split in H1.
  rewrite JSFacts.split_length in H4. simpl in H4.
  rewrite Nat.sub_0_r in H4.
  unfold sameBut in H7.
  generalize dependent (nextId s2). generalize dependent (randomCalls s2).
  intros r2 n2 H6 H7. subst s2.
  change (forest (set_randomCalls r2 (set_nextId n2
            (set_emDashCount
               (emDashCount s + (List.length (split EM_DASH d) - 1)) s))))
    with (forest s).
  apply parentNode_Some in Hp. destruct Hp as [p Hp].
  rewrite Hp. exists frag. simpl.
  rewrite JSFacts.split_length. simpl. rewrite Nat.sub_0_r.
  splits; auto.
Qed.

End RescanFacts.

(** ** The banner update, case by case *)

Module UpdateFacts.

Import Dom Page Props Rescan DomFacts ScanFacts BannerFacts PageFacts
  TeardownFacts CounterFacts RescanFacts.

(** The body after [removeBanner]: the body without the banner. *)
Lemma removeBanner_body s :
  body (removeBanner s)
  = match warningBanner s with
    | Some b => removeNode b (body s)
    | None => body s
    end.
Proof.
  unfold removeBanner, remove. destruct (warningBanner s) as [b|]; auto.
  destruct (parentNode b (forest s)) as [p|] eqn:Ep.
  - destruct (findInForest b (forest s)) as [n|] eqn:Ef; [reflexivity|].
    exfalso. apply findInForest_None in Ef. apply Ef.
    assert (Hin : In b (flat_map childIds (forest s)))
      by (apply parentNode_Some; eauto).
    apply in_flat_map in Hin. destruct Hin as (t & Ht & Hin).
    apply in_flat_map. exists t. split; auto.
    rewrite ids_cons. now right.
  - simpl. symmetry. apply removeNode_absent. intros Hin.
    assert (H : exists p, parentNode b (forest s) = Some p).
    { apply parentNode_Some. apply in_flat_map. exists (body s).
      split; [now left|exact Hin]. }
    destruct H as [p Hp]. congruence.
Qed.

(** A scan of a page that has no em-dash outside the script's own elements
    walks nothing: it resets the counter and removes the banner. *)
Lemma scanPage_nothing s :
  sound s -> dashesOutside (body s) = 0 ->
  scanPage s = removeBanner (set_emDashCount 0 (set_scans (S (scans s)) s)).
Proof.
  intros Hs H0. pose proof (sound_no_walk s Hs H0) as Hw.
  unfold scanPage.
  set (s1 := set_emDashCount 0 (set_scans (S (scans s)) s)).
  assert (Hwalk : walkTextNodes (nodeId (body s1)) s1 = s1).
  { unfold walkTextNodes. rewrite (findInForest_body s1).
    change (body s1) with (body s).
    destruct (body s) as [i y|i a cs|i y]; auto.
    rewrite Hw.
    match goal with |- (if ?c then _ else _) = _ => destruct c end;
      reflexivity. }
  rewrite Hwalk. reflexivity.
Qed.

End UpdateFacts.

(** ** The reload notifier after the grace period *)

Module ReloadFacts.

Import DevServer Reload DevFacts.

Lemma fold_fire_fields l : forall srv,
  now (fold_left (fun st t => fire t st) l srv) = now srv
  /\ pending (fold_left (fun st t => fire t st) l srv) = pending srv
  /\ notifyTimeout (fold_left (fun st t => fire t st) l srv)
     = notifyTimeout srv
  /\ nextHandle (fold_left (fun st t => fire t st) l srv) = nextHandle srv
  /\ startupGrace (fold_left (fun st t => fire t st) l srv)
     = startupGrace srv && forallb notifies l.
Proof.
  induction l as [|t l IH]; intros srv; simpl.
  - now rewrite andb_true_r.
  - destruct (IH (fire t srv)) as (H1 & H2 & H3 & H4 & H5).
    rewrite H1, H2, H3, H4, H5. unfold fire, notifyBody, notifies.
    destruct (job t); simpl.
    + repeat split; auto. now rewrite andb_false_r.
    + destruct (startupGrace srv) eqn:E; simpl; rewrite ?E; repeat split;
        auto.
Qed.

Lemma byDue_forallb p l : forallb p l = true -> forallb p (byDue l) = true.
Proof.
  intros H. apply forallb_forall. intros x Hx. apply byDue_In in Hx.
  rewrite forallb_forall in H. auto.
Qed.

Lemma insertByDue_has tm l : In tm (insertByDue tm l).
Proof.
  induction l as [|y r IH]; simpl; [now left|].
  destruct (due tm <? due y); [now left|now right].
Qed.

Lemma insertByDue_keeps tm x l : In x l -> In x (insertByDue tm l).
Proof.
  induction l as [|y r IH]; simpl; [contradiction|].
  destruct (due tm <? due y); intros [<-|H]; simpl; auto.
Qed.

Lemma byDue_has x l : In x l -> In x (byDue l).
Proof.
  unfold byDue.
  assert (H : forall acc, In x acc \/ In x l ->
                In x (fold_left (fun acc tm => insertByDue tm acc) l acc)).
  { induction l as [|y r IH]; simpl; intros acc [Hx|Hx]; auto;
      try contradiction.
    - apply IH. left. now apply insertByDue_keeps.
    - destruct Hx as [<-|Hx]; apply IH; [left|now right].
      apply insertByDue_has. }
  intros Hx. apply H. now right.
Qed.

(** The invariant is kept by every step. *)
Lemma step_steady e srv : steady srv -> steady (step e srv).
Proof.
  intros Hs. pose proof Hs as [H1 H2 H3 H4 H5].
  destruct e as [| |i|ms]; simpl.
  - (* notifyClients *)
    assert (Hkept : forall tm,
              In tm match notifyTimeout srv with
                    | Some h => filter (fun tm => negb (handle tm =? h))
                                       (pending srv)
                    | None => pending srv
                    end ->
              In tm (pending srv) /\ job tm = EndGrace).
    { intros tm Hin. destruct (notifyTimeout srv) as [h|] eqn:En.
      - apply filter_In in Hin. destruct Hin as [Hin Hh]. split; auto.
        destruct (job tm) eqn:Ej; auto. apply (H3 tm Hin) in Ej.
        injection Ej as ->. rewrite Nat.eqb_refl in Hh. discriminate.
      - split; auto. destruct (job tm) eqn:Ej; auto.
        apply (H3 tm Hin) in Ej. discriminate. }
    split; simpl.
    + intros Hg. destruct (H1 Hg) as [Hin Hn]. split; auto.
      apply in_or_app. left. destruct (notifyTimeout srv) as [h|] eqn:En;
        auto.
      apply filter_In. split; auto.
      specialize (H4 h eq_refl). apply negb_true_iff, Nat.eqb_neq.
      unfold graceTimer. simpl. lia.
    + intros tm Hin Hj. apply in_app_or in Hin.
      destruct Hin as [Hin|[<-|[]]]; [|discriminate].
      apply Hkept in Hin. apply H2; tauto.
    + intros tm Hin Hj. apply in_app_or in Hin.
      destruct Hin as [Hin|[<-|[]]]; [|reflexivity].
      apply Hkept in Hin. destruct Hin as [_ Hin]. congruence.
    + intros h E. injection E as <-. exact H5.
    + lia.
  - split; simpl; auto.
  - split; simpl; auto.
  - (* the clock advances *)
    unfold advance.
    set (t := now srv + ms).
    set (ready := byDue (filter (fun tm => due tm <=? t) (pending srv))).
    set (srv' := {| startupGrace := startupGrace srv;
                    clients := clients srv;
                    notifyTimeout := notifyTimeout srv;
                    now := t;
                    pending := filter (fun tm => negb (due tm <=? t))
                                      (pending srv);
                    nextHandle := nextHandle srv |}).
    destruct (fold_fire_fields ready srv') as (F1 & F2 & F3 & F4 & F5).
    assert (Hend : forallb notifies ready = false -> 1000 <= t).
    { intros Hf. destruct (forallb notifies ready) eqn:E; [discriminate|].
      clear Hf.
      assert (Hex : exists tm, In tm ready /\ notifies tm = false).
      { clear - E. induction ready as [|x r IH]; [discriminate|].
        simpl in E. destruct (notifies x) eqn:Ex.
        - destruct (IH E) as (tm & Hin & Hn). exists tm. split; auto.
          now right.
        - exists x. split; auto. now left. }
      destruct Hex as (tm & Hin & Hn). apply byDue_In in Hin.
      apply filter_In in Hin. destruct Hin as [Hin Hd].
      apply Nat.leb_le in Hd. unfold notifies in Hn.
      destruct (job tm) eqn:Ej; [|discriminate].
      destruct (H2 tm Hin Ej) as [_ Hdue]. lia. }
    split; rewrite ?F1, ?F2, ?F3, ?F4, ?F5; simpl.
    + intros Hg. apply andb_prop in Hg. destruct Hg as [Hg Hn].
      destruct (H1 Hg) as [Hin Hlt].
      assert (Ht : t < 1000).
      { destruct (Nat.lt_ge_cases t 1000) as [Hlt'|Hge]; auto. exfalso.
        assert (Hr : In graceTimer ready).
        { apply byDue_has. apply filter_In. split; auto.
          apply Nat.leb_le. exact Hge. }
        rewrite forallb_forall in Hn. specialize (Hn _ Hr). discriminate. }
      split; auto. apply filter_In. split; auto.
      apply negb_true_iff, Nat.leb_gt. exact Ht.
    + intros tm Hin Hj. apply filter_In in Hin. destruct Hin as [Hin Hd].
      destruct (H2 tm Hin Hj) as [Hg Hdue]. split; auto.
      rewrite Hg. simpl.
      destruct (forallb notifies ready) eqn:E; auto.
      specialize (Hend eq_refl). apply negb_true_iff, Nat.leb_gt in Hd. lia.
    + intros tm Hin Hj. apply filter_In in Hin. apply H3; tauto.
    + exact H4.
    + exact H5.
Qed.

Lemma run_steady es : forall srv, steady srv -> steady (run es srv).
Proof.
  unfold run. induction es as [|e es IH]; intros srv Hs; [exact Hs|].
  simpl. apply IH. now apply step_steady.
Qed.

Lemma boot_steady : steady boot.
Proof.
  split; simpl.
  - intros _. split; [now left|lia].
  - intros tm [<-|[]] _. auto.
  - intros tm [<-|[]] H. discriminate.
  - discriminate.
  - lia.
Qed.

(** The grace period is the first second, no more and no less. *)
Lemma grace_iff es :
  startupGrace (run es boot) = (now (run es boot) <? 1000).
Proof.
  destruct (Nat.ltb_spec (now (run es boot)) 1000) as [H|H].
  - now destruct (run_grace es boot boot_grace H).
  - destruct (startupGrace (run es boot)) eqn:E; [|reflexivity].
    destruct (st_grace (run_steady es boot boot_steady) E) as [_ Hlt]. lia.
Qed.

Lemma steady_settled srv :
  steady srv -> startupGrace srv = false -> settled srv.
Proof.
  intros [H1 H2 H3 H4 H5] Hg. split; auto. intros tm Hin.
  destruct (job tm) eqn:Ej.
  - destruct (H2 tm Hin Ej). congruence.
  - split; auto.
Qed.

(** One file change on a settled server: the notification it schedules is
    the only pending timer. *)
Lemma change_settled srv :
  settled srv ->
  pending (step FileChanged srv)
  = [{| handle := nextHandle srv; due := now srv + 300; job := Notify |}]
  /\ startupGrace (step FileChanged srv) = false
  /\ notifyTimeout (step FileChanged srv) = Some (nextHandle srv)
  /\ clients (step FileChanged srv) = clients srv
  /\ now (step FileChanged srv) = now srv.
Proof.
  intros [Hg Hp]. simpl. repeat split; auto.
  assert (E : match notifyTimeout srv with
              | Some h => filter (fun tm => negb (handle tm =? h))
                                 (pending srv)
              | None => pending srv
              end = []).
  { destruct (notifyTimeout srv) as [h|] eqn:En.
    - apply TeardownFacts.filter_all_out. intros tm Hin.
      destruct (Hp tm Hin) as [_ E]. injection E as ->.
      now rewrite Nat.eqb_refl.
    - destruct (pending srv) as [|tm l]; [reflexivity|].
      destruct (Hp tm (or_introl eq_refl)) as [_ E]. discriminate. }
  now rewrite E.
Qed.

Lemma change_then_pause srv ms :
  settled srv -> ms < 300 ->
  settled (run [FileChanged; Elapse ms] srv)
  /\ clients (run [FileChanged; Elapse ms] srv) = clients srv.
Proof.
  intros Hs Hms. destruct (change_settled srv Hs) as (P & G & N & C & T).
  unfold run. cbn [fold_left]. set (s1 := step FileChanged srv) in *.
  cbn [step]. unfold advance. rewrite P, T. cbn [filter due].
  assert (E : (now srv + 300 <=? now srv + ms) = false)
    by (apply Nat.leb_gt; lia).
  rewrite E. cbn [negb byDue fold_left]. split; [split|]; simpl; auto.
  intros tm [<-|[]]. simpl. auto.
Qed.

Lemma change_then_wait srv :
  settled srv ->
  clients (run [FileChanged; Elapse 300] srv) = reloaded (clients srv)
  /\ pending (run [FileChanged; Elapse 300] srv) = []
  /\ startupGrace (run [FileChanged; Elapse 300] srv) = false.
Proof.
  intros Hs. destruct (change_settled srv Hs) as (P & G & N & C & T).
  unfold run. cbn [fold_left]. set (s1 := step FileChanged srv) in *.
  cbn [step]. unfold advance. rewrite P, T. cbn [filter due].
  rewrite Nat.leb_refl. cbn [negb byDue fold_left insertByDue fire job].
  unfold notifyBody. cbn [startupGrace clients pending]. rewrite G, C.
  cbn [clients pending startupGrace]. repeat split.
  unfold reloaded. generalize (clients srv). intros l.
  induction l as [|c l IH]; [reflexivity|].
  simpl. destruct (closed c); simpl; [exact IH|now rewrite IH].
Qed.

Lemma run_app es1 es2 srv : run (es1 ++ es2) srv = run es2 (run es1 srv).
Proof. unfold run. apply fold_left_app. Qed.

Lemma changes_settled pauses : forall srv,
  settled srv -> Forall (fun ms => ms < 300) pauses ->
  settled (run (changes pauses) srv)
  /\ clients (run (changes pauses) srv) = clients srv.
Proof.
  induction pauses as [|ms l IH]; intros srv Hs Hp; [now split|].
  apply Forall_cons_iff in Hp. destruct Hp as [Hms Hl].
  change (changes (ms :: l)) with ([FileChanged; Elapse ms] ++ changes l).
  rewrite run_app. destruct (change_then_pause srv ms Hs Hms) as [H1 H2].
  destruct (IH _ H1 Hl) as [H3 H4]. split; [exact H3|congruence].
Qed.

End ReloadFacts.

(** ** Facts on the installation guide *)

Module ReadmeFacts.

Import Readme.

Lemma startsWith_iff n h : startsWith n h = true <-> exists z, h = n ++ z.
Proof.
  revert h. induction n as [|x n IH]; intros h; simpl.
  - split; eauto.
  - destruct h as [|y h].
    + split; [discriminate|]. intros [z H]. discriminate.
    + rewrite andb_true_iff, N.eqb_eq, IH. split.
      * intros [-> [z ->]]. eauto.
      * intros [z H]. injection H as -> ->. eauto.
Qed.

Lemma startsWith_refl n z : startsWith n (n ++ z) = true.
Proof. apply startsWith_iff. eauto. Qed.

(** What [indexOf] finds is the first occurrence. *)
Lemma indexOf_Some n h i :
  indexOf n h = Some i ->
  h = firstn i h ++ n ++ skipn (i + List.length n) h
  /\ forall k, k < i -> startsWith n (skipn k h) = false.
Proof.
  revert i. induction h as [|c r IH]; intros i; simpl.
  - destruct (startsWith n []) eqn:E; [|discriminate].
    intros H. injection H as <-. split; [|intros k Hk; lia].
    apply startsWith_iff in E. destruct E as [z E].
    destruct n; [reflexivity|discriminate].
  - destruct (startsWith n (c :: r)) eqn:E.
    + intros H. injection H as <-. split; [|intros k Hk; lia].
      apply startsWith_iff in E. destruct E as [z E]. rewrite E. simpl.
      f_equal. rewrite skipn_app, Nat.sub_diag, skipn_all. reflexivity.
    + destruct (indexOf n r) as [j|] eqn:Ej; [|discriminate].
      intros H. injection H as <-. destruct (IH j eq_refl) as [H1 H2].
      split.
      * simpl. f_equal. exact H1.
      * intros [|k] Hk; [exact E|]. simpl. apply H2. lia.
Qed.

Lemma indexOf_None n h : indexOf n h = None <-> ~ occurs n h.
Proof.
  split.
  - induction h as [|c r IH]; simpl.
    + destruct (startsWith n []) eqn:E; [discriminate|]. intros _ (x & y & H).
      destruct x; [|discriminate]. simpl in H.
      rewrite H, startsWith_refl in E. discriminate.
    + destruct (startsWith n (c :: r)) eqn:E; [discriminate|].
      destruct (indexOf n r) eqn:Ej; [discriminate|]. intros _ (x & y & H).
      destruct x as [|d x].
      * simpl in H. rewrite H, startsWith_refl in E. discriminate.
      * injection H as _ H. apply IH; [reflexivity|]. exists x, y. exact H.
  - intros H. destruct (indexOf n h) as [i|] eqn:E; [|reflexivity].
    exfalso. apply H. destruct (indexOf_Some n h i E) as [H1 _].
    eexists. eexists. exact H1.
Qed.

(** An occurrence at a position no occurrence starts before... *)
Lemma indexOf_at n x y :
  (forall k, k < List.length x ->
             startsWith n (skipn k (x ++ n ++ y)) = false) ->
  indexOf n (x ++ n ++ y) = Some (List.length x).
Proof.
  induction x as [|c x IH]; intros H.
  - simpl. destruct (n ++ y) eqn:E; simpl.
    + destruct n; [reflexivity|discriminate].
    + rewrite <- E, startsWith_refl. reflexivity.
  - pose proof (H 0 (Nat.lt_0_succ _)) as H0. simpl in H0.
    cbn [app indexOf]. rewrite H0.
    rewrite IH; [reflexivity|]. intros k Hk.
    apply (H (S k)). simpl. lia.
Qed.

(** A string whose first character does not come back in it cannot
    overlap itself: an occurrence that starts in [x] lies in [x]. *)
Lemma no_overlap c n' x y k :
  ~ In c n' -> k < List.length x ->
  startsWith (c :: n') (skipn k (x ++ (c :: n') ++ y)) = true ->
  occurs (c :: n') x.
Proof.
  intros Hc Hk H. apply startsWith_iff in H. destruct H as [z H].
  rewrite <- (firstn_skipn k x), <- app_assoc in H.
  rewrite skipn_app in H.
  rewrite firstn_length_le in H by lia. rewrite Nat.sub_diag in H.
  rewrite skipn_all2 in H by (rewrite firstn_length_le; lia).
  simpl skipn in H. cbn [app] in H.
  change (skipn k x ++ (c :: n') ++ y = (c :: n') ++ z) in H.
  assert (Hx2 : skipn k x <> []).
  { intros E. apply (f_equal (@List.length _)) in E.
    rewrite length_skipn in E. simpl in E. lia. }
  apply app_eq_app in H. destruct H as (l & [[H1 H2]|[H1 H2]]).
  - exists (firstn k x), l. rewrite <- H1. symmetry. apply firstn_skipn.
  - destruct l as [|e l].
    + exists (firstn k x), []. rewrite app_nil_r in H1 |- *. rewrite H1.
      symmetry. apply firstn_skipn.
    + exfalso. destruct (skipn k x) as [|d x2]; [contradiction|].
      injection H1 as _ H1. injection H2 as <- _. apply Hc. rewrite H1.
      apply in_or_app. right. now left.
Qed.

Lemma indexOf_first c n' x y :
  ~ In c n' -> ~ occurs (c :: n') x ->
  indexOf (c :: n') (x ++ (c :: n') ++ y) = Some (List.length x).
Proof.
  intros Hc Hx. apply indexOf_at. intros k Hk.
  destruct (startsWith _ _) eqn:E; [|reflexivity].
  exfalso. apply Hx. eapply no_overlap; eauto.
Qed.

(** *** [trim] *)

Lemma trimStart_spec s :
  exists l, s = l ++ trimStart s /\ forallb isWhiteSpace l = true.
Proof.
  induction s as [|c r (l & H1 & H2)]; [exists []; auto|]. simpl.
  destruct (isWhiteSpace c) eqn:E.
  - exists (c :: l). simpl. rewrite E, H2. split; [congruence|reflexivity].
  - exists []. auto.
Qed.

Lemma trimStart_head s : headOk (trimStart s).
Proof.
  induction s as [|c r IH]; simpl; auto.
  destruct (isWhiteSpace c) eqn:E; auto.
Qed.

Lemma trimStart_fix s : headOk s -> trimStart s = s.
Proof. destruct s as [|c r]; simpl; auto. now intros ->. Qed.

Lemma trimEnd_spec s :
  exists r, s = trimEnd s ++ r /\ forallb isWhiteSpace r = true.
Proof.
  unfold trimEnd. destruct (trimStart_spec (rev s)) as (l & H1 & H2).
  exists (rev l). split.
  - rewrite <- rev_app_distr, <- H1. symmetry. apply rev_involutive.
  - apply forallb_forall. intros x Hx. apply in_rev in Hx.
    rewrite forallb_forall in H2. auto.
Qed.

Lemma trimEnd_last s : headOk (rev (trimEnd s)).
Proof. unfold trimEnd. rewrite rev_involutive. apply trimStart_head. Qed.

Lemma trimEnd_fix s : headOk (rev s) -> trimEnd s = s.
Proof.
  intros H. unfold trimEnd. rewrite trimStart_fix by exact H.
  apply rev_involutive.
Qed.

Lemma trimEnd_head s : headOk s -> headOk (trimEnd s).
Proof.
  intros H. destruct (trimEnd_spec s) as (r & H1 & _).
  destruct (trimEnd s) as [|c t]; simpl; auto.
  rewrite H1 in H. exact H.
Qed.

Lemma trim_trimmed s : trimmed (trim s).
Proof.
  split; [apply trimEnd_head, trimStart_head|apply trimEnd_last].
Qed.

Lemma trimmed_trim s : trimmed s -> trim s = s.
Proof.
  intros [H1 H2]. unfold trim. rewrite trimStart_fix by exact H1.
  now apply trimEnd_fix.
Qed.

Lemma trim_idem s : trim (trim s) = trim s.
Proof. apply trimmed_trim, trim_trimmed. Qed.

Lemma trim_nil : trim [] = [].
Proof. reflexivity. Qed.

(** What [trim] leaves was in the string, between white space. *)
Lemma trim_spec s :
  exists l r, s = l ++ trim s ++ r
              /\ forallb isWhiteSpace l = true
              /\ forallb isWhiteSpace r = true.
Proof.
  destruct (trimStart_spec s) as (l & H1 & H2).
  destruct (trimEnd_spec (trimStart s)) as (r & H3 & H4).
  exists l, r. unfold trim. rewrite <- H3. auto.
Qed.

(** *** [slice] *)

Lemma slice_between x m y :
  slice (List.length x) (List.length x + List.length m) (x ++ m ++ y) = m.
Proof.
  unfold slice. rewrite !length_app.
  rewrite !Nat.min_l by lia.
  replace (List.length x + List.length m - List.length x)
    with (List.length m) by lia.
  rewrite skipn_app, Nat.sub_diag, skipn_all. simpl.
  rewrite firstn_app, Nat.sub_diag, firstn_all. simpl.
  now rewrite app_nil_r.
Qed.

Lemma slice_backwards a b s : b <= a -> slice a b s = [].
Proof.
  intros H. unfold slice.
  replace (Nat.min b (List.length s) - Nat.min a (List.length s)) with 0
    by lia.
  reflexivity.
Qed.

Lemma slice_occurs a b s : exists l r, s = l ++ slice a b s ++ r.
Proof.
  unfold slice. set (from := Nat.min a (List.length s)).
  set (n := Nat.min b (List.length s) - from).
  exists (firstn from s), (skipn n (skipn from s)).
  rewrite firstn_skipn. symmetry. apply firstn_skipn.
Qed.

(** *** The two markers *)

Lemma startMarker_shape :
  exists n', startMarker = 60%N :: n' /\ ~ In 60%N n'.
Proof.
  eexists. split; [reflexivity|]. simpl.
  intros H. repeat (destruct H as [H|H]; [discriminate|]). exact H.
Qed.

Lemma endMarker_shape :
  exists n', endMarker = 60%N :: n' /\ ~ In 60%N n'.
Proof.
  eexists. split; [reflexivity|]. simpl.
  intros H. repeat (destruct H as [H|H]; [discriminate|]). exact H.
Qed.

Lemma startMarker_first x y :
  ~ occurs startMarker x ->
  indexOf startMarker (x ++ startMarker ++ y) = Some (List.length x).
Proof.
  destruct startMarker_shape as (n' & -> & Hn). now apply indexOf_first.
Qed.

Lemma endMarker_first x y :
  ~ occurs endMarker x ->
  indexOf endMarker (x ++ endMarker ++ y) = Some (List.length x).
Proof.
  destruct endMarker_shape as (n' & -> & Hn). now apply indexOf_first.
Qed.

Lemma occurs_app_r n x y : occurs n x -> occurs n (x ++ y).
Proof.
  intros (a & b & ->). exists a, (b ++ y). now rewrite <- !app_assoc.
Qed.

Lemma occurs_app_l n x y : occurs n y -> occurs n (x ++ y).
Proof.
  intros (a & b & ->). exists (x ++ a), b. now rewrite <- !app_assoc.
Qed.

(** The markers in the order the script expects. *)
Lemma build_in_order pre sec post :
  ~ occurs startMarker pre ->
  ~ occurs endMarker (pre ++ startMarker ++ sec) ->
  buildInstallReadme (pre ++ startMarker ++ sec ++ endMarker ++ post)
  = Wrote "INSTALLATION_HELP.txt" (HEADER ++ trim sec ++ FOOTER).
Proof.
  intros Hs He. unfold buildInstallReadme.
  rewrite (startMarker_first pre (sec ++ endMarker ++ post) Hs).
  assert (E : pre ++ startMarker ++ sec ++ endMarker ++ post
              = (pre ++ startMarker ++ sec) ++ endMarker ++ post)
    by (now rewrite <- !app_assoc).
  rewrite E at 1. rewrite (endMarker_first _ post He).
  cbv zeta. rewrite trim_idem. do 3 f_equal.
  replace (pre ++ startMarker ++ sec ++ endMarker ++ post)
    with ((pre ++ startMarker) ++ sec ++ (endMarker ++ post))
    by (now rewrite <- !app_assoc).
  replace (List.length pre + List.length startMarker)
    with (List.length (pre ++ startMarker)) by (now rewrite length_app).
  replace (List.length (pre ++ startMarker ++ sec))
    with (List.length (pre ++ startMarker) + List.length sec)
    by (rewrite !length_app; lia).
  now rewrite slice_between.
Qed.

(** The markers the other way round. *)
Lemma build_out_of_order pre mid post :
  ~ occurs endMarker pre ->
  ~ occurs startMarker (pre ++ endMarker ++ mid) ->
  buildInstallReadme (pre ++ endMarker ++ mid ++ startMarker ++ post)
  = Wrote "INSTALLATION_HELP.txt" (HEADER ++ FOOTER).
Proof.
  intros He Hs. unfold buildInstallReadme.
  rewrite (endMarker_first pre (mid ++ startMarker ++ post) He).
  assert (E : pre ++ endMarker ++ mid ++ startMarker ++ post
              = (pre ++ endMarker ++ mid) ++ startMarker ++ post)
    by (now rewrite <- !app_assoc).
  rewrite E at 1. rewrite (startMarker_first _ post Hs).
  cbv zeta. rewrite slice_backwards by (rewrite !length_app; lia).
  reflexivity.
Qed.

Lemma build_exit readme :
  buildInstallReadme readme = Exit 1
  <-> ~ occurs startMarker readme \/ ~ occurs endMarker readme.
Proof.
  unfold buildInstallReadme. rewrite <- !indexOf_None.
  destruct (indexOf startMarker readme); destruct (indexOf endMarker readme);
    split; auto; try discriminate; intros [H|H]; discriminate.
Qed.

Lemma build_wrote readme f c :
  buildInstallReadme readme = Wrote f c ->
  f = "INSTALLATION_HELP.txt"%string
  /\ exists sec, c = HEADER ++ sec ++ FOOTER
                 /\ trimmed sec /\ occurs sec readme.
Proof.
  unfold buildInstallReadme.
  destruct (indexOf startMarker readme) as [i|]; [|discriminate].
  destruct (indexOf endMarker readme) as [j|]; [|discriminate].
  cbv zeta. intros H. injection H as <- <-. split; [reflexivity|].
  rewrite trim_idem. eexists. split; [reflexivity|].
  split; [apply trim_trimmed|].
  destruct (slice_occurs (i + List.length startMarker) j readme)
    as (l & r & H1).
  destruct (trim_spec (slice (i + List.length startMarker) j readme))
    as (l' & r' & H2 & _).
  exists (l ++ l'), (r' ++ r). rewrite H1 at 1. rewrite H2 at 1.
  now rewrite <- !app_assoc.
Qed.

End ReadmeFacts.

(** ** Further properties of the code *)

Module WatcherExtras.

Import Number Dom Page Props Watch Examples WatchExamples NumberFacts
  DomFacts ScanFacts BannerFacts PageFacts TeardownFacts CounterFacts
  WatchFacts.

(** X1: whatever the document and whatever the events that follow, once the
    script has started every pending timer is the one [debounceTimeout]
    holds, every subscribed observer is the one [mutationObserver] holds, the
    debounced rescan listens to popstate and hashchange only, and the
    history entry points are wrapped only while [historyPatched] is set. *)
Theorem started_script_stays_tracked (b : node) (n : nat) (rnd : nat -> Q)
  (es : list event) :
  tracked (run es (start (initial b n rnd))).
Proof. apply run_tracked, start_tracked, initial_tracked. Qed.

(** X2: a burst of calls of the debounced rescan on a tracked state leaves
    one pending timer, that of the last call, and has run no scan; when that
    timer fires the page is scanned once and nothing is pending; the
    handle of any other timer does nothing. *)
Theorem burst_runs_one_scan (s : State) (k : nat) :
  tracked s ->
  timers (burst (S k) s) = [nextTimer s + k]
  /\ scans (burst (S k) s) = scans s
  /\ scans (dispatch (TimerFires (nextTimer s + k)) (burst (S k) s))
     = S (scans s)
  /\ timers (dispatch (TimerFires (nextTimer s + k)) (burst (S k) s)) = []
  /\ (forall t, t <> nextTimer s + k ->
                dispatch (TimerFires t) (burst (S k) s) = burst (S k) s).
Proof.
  intros Ht. destruct (burst_tracked k s Ht) as (_ & H2 & _ & _ & H5).
  destruct (fire_scans_once _ _ H2) as (G1 & G2 & _).
  splits; auto.
  - now rewrite G1, H5.
  - intros t Hne. apply stale_timer. rewrite H2. intros [E|[]]. congruence.
Qed.

Lemma burst_runs_one_scan_witness :
  timers (burst 3 page_started) = [3]
  /\ scans (dispatch (TimerFires 3) (burst 3 page_started))
     = S (scans page_started).
Proof.
  destruct (burst_runs_one_scan page_started 2) as (H1 & _ & H3 & _).
  - apply trackedb_sound. vm_compute. reflexivity.
  - split; [exact H1|exact H3].
Defined.

(** X3: whatever the document and the events, the sparkle pattern is
    written to the root style at most once, and it is there exactly when
    [svgInjected] is set. *)
Theorem sparkle_written_at_most_once (b : node) (n : nat) (rnd : nat -> Q)
  (es : list event) :
  styleWrites (run es (start (initial b n rnd))) <= 1
  /\ (svgInjected (run es (start (initial b n rnd))) = true
      <-> rootStyle (run es (start (initial b n rnd))) = Some SparkleDataUrl)
  /\ (svgInjected (run es (start (initial b n rnd))) = true
      <-> styleWrites (run es (start (initial b n rnd))) = 1).
Proof.
  assert (H : styled (run es (start (initial b n rnd)))).
  { apply run_styled. unfold start.
    apply (styled_style (scanPage (initial b n rnd)));
      [apply observeChanges_style|].
    apply scanPage_styled. right. reflexivity. }
  unfold styled, styleOf in H.
  destruct H as [H|H]; injection H as -> -> ->;
    (split; [lia|split; split; congruence]).
Qed.

(** X4: [observeChanges] on a tracked state leaves exactly one observer
    subscribed, the new one; called again, it replaces that observer by a
    new one and adds no listener and no second wrapper. *)
Theorem observeChanges_never_stacks (s : State) :
  tracked s ->
  observing (observeChanges s) = [nextObserver s]
  /\ mutationObserver (observeChanges s) = Some (nextObserver s)
  /\ historyPatched (observeChanges s) = true
  /\ observing (observeChanges (observeChanges s)) = [S (nextObserver s)]
  /\ listeners (observeChanges (observeChanges s))
     = listeners (observeChanges s)
  /\ pushState (observeChanges (observeChanges s))
     = pushState (observeChanges s)
  /\ replaceState (observeChanges (observeChanges s))
     = replaceState (observeChanges s).
Proof.
  intros Ht.
  destruct (observeChanges_fields s) as (A1 & A2 & A3 & _ & _ & A6).
  destruct (subscribed_tracked s Ht) as (_ & B1 & B2 & _).
  destruct (observeChanges_fields (observeChanges s))
    as (C1 & C2 & C3 & C4 & C5 & _).
  destruct (subscribed_tracked _ (observeChanges_tracked s Ht))
    as (_ & D1 & _).
  rewrite A3 in C4, C5. rewrite A6 in D1.
  splits; try congruence.
  apply hooked_observeChanges, observeChanges_hooked.
Qed.

Lemma observeChanges_never_stacks_witness :
  observing (observeChanges page_started) = [1]
  /\ listeners (observeChanges (observeChanges page_started))
     = listeners (observeChanges page_started).
Proof.
  destruct (observeChanges_never_stacks page_started)
    as (H1 & _ & _ & _ & H5 & _).
  - apply trackedb_sound. vm_compute. reflexivity.
  - split; [exact H1|exact H5].
Defined.

(** X5: a call of [history.pushState] or [history.replaceState] by the page
    reaches the browser whether the entry point is wrapped or not: the
    session history gets the entry, and the call itself runs no scan and
    leaves the document as it is. *)
Theorem history_calls_reach_the_browser (s : State) (url : jsstring) :
  entries (dispatch (PushState url) s) = entries s ++ [url]
  /\ entries (dispatch (ReplaceState url) s)
     = removelast (entries s) ++ [url]
  /\ scans (dispatch (PushState url) s) = scans s
  /\ scans (dispatch (ReplaceState url) s) = scans s
  /\ forest (dispatch (PushState url) s) = forest s
  /\ forest (dispatch (ReplaceState url) s) = forest s.
Proof.
  simpl. unfold callPushState, callReplaceState.
  destruct (debouncedRescan_page (nativePushState url s)) as (P1 & P2 & P3).
  destruct (debouncedRescan_page (nativeReplaceState url s))
    as (R1 & R2 & R3).
  destruct (pushState s); destruct (replaceState s);
    rewrite ?P1, ?P2, ?P3, ?R1, ?R2, ?R3; auto 10.
Qed.

(** X6: when the two draws of [Math.random] lie in [0, 1), and the second
    is a Number, the highlight that [createHighlight] builds has an
    animation delay between -3.00 s and 0 s and a background offset
    between 0 px and 39 px, and two draws were used. *)
Theorem highlight_style_in_range (s : State) :
  (0 <= random s (randomCalls s))%Q ->
  (random s (randomCalls s) < 1)%Q ->
  isNumber (random s (S (randomCalls s))) = true ->
  (0 <= random s (S (randomCalls s)))%Q ->
  (random s (S (randomCalls s)) < 1)%Q ->
  exists st,
    styleOfNode (fst (createHighlight s)) = Some st
    /\ (-300 <= animationDelay st <= 0)%Z
    /\ (0 <= backgroundPositionX st <= 39)%Z
    /\ randomCalls (snd (createHighlight s)) = 2 + randomCalls s.
Proof.
  intros H0 H1 Hn H2 H3. eexists. split; [reflexivity|].
  cbn [animationDelay backgroundPositionX].
  split; [now apply delay_range|]. split; [now apply offset_range|].
  reflexivity.
Qed.

Lemma highlight_style_in_range_witness :
  exists st,
    styleOfNode (fst (createHighlight page_edge)) = Some st
    /\ (-300 <= animationDelay st <= 0)%Z
    /\ (0 <= backgroundPositionX st <= 39)%Z
    /\ randomCalls (snd (createHighlight page_edge)) = 2 + randomCalls page_edge.
Proof.
  apply (highlight_style_in_range page_edge); vm_compute; congruence.
Defined.

(** X7: [containsHighlights] holds exactly of an element that is a
    highlight or has a highlight among its descendants. *)
Theorem containsHighlights_iff (n : node) :
  containsHighlights n = true
  <-> isElement n = true
      /\ exists x, In x (subnodes n) /\ hasClass HIGHLIGHT x = true.
Proof. apply containsHighlights_spec. Qed.

(** X8: a batch that reports only nodes the callback passes over (added:
    the script's own elements, text without em-dash, comments; removed:
    the banner, text, elements without highlight) changes nothing: no
    scan, no timer, no banner update. *)
Theorem passed_over_batch_is_ignored (records : list MutationRecord)
  (s : State) :
  forallb (passedOver s) records = true ->
  mutationCallback records s = s.
Proof. apply mutationCallback_passed. Qed.

Lemma passed_over_batch_is_ignored_witness :
  mutationCallback
    [{| addedNodes := [2; 3; 5; 6; 8; 9]; removedNodes := [1] |}] page_started
  = page_started.
Proof.
  apply passed_over_batch_is_ignored. vm_compute. reflexivity.
Defined.

(** X9: the script does not react to its own highlighting.  When
    [highlightTextNode] has replaced a text node that has a parent, the
    batch that reports the replaced node as removed and the nodes of the
    fragment as added is passed over by the callback. *)
Theorem own_highlighting_is_ignored (s : State) (t : nat) (d : jsstring) :
  uniqueIds s ->
  In (Text t d) (flat_map subnodes (forest s)) ->
  includes EM_DASH d = true ->
  In t (flat_map childIds (forest s)) ->
  exists frag,
    forest (highlightTextNode t s)
    = map (replaceChild t frag) (forest s) ++ [Text t d]
    /\ List.length (flat_map allHighlights frag) = occurrences EM_DASH d
    /\ mutationCallback [replaced t frag] (highlightTextNode t s)
       = highlightTextNode t s.
Proof.
  intros Hu Hin Hd Hch.
  destruct (own_edit_passed s t d Hu Hin Hd Hch) as (frag & H1 & H2 & H3).
  exists frag. splits; auto. apply mutationCallback_passed. simpl.
  now rewrite H3.
Qed.

Lemma own_highlighting_is_ignored_witness :
  exists frag,
    forest (highlightTextNode 1 page_abc)
    = map (replaceChild 1 frag) (forest page_abc) ++ [Text 1 text_abc]
    /\ List.length (flat_map allHighlights frag)
       = occurrences EM_DASH text_abc
    /\ mutationCallback [replaced 1 frag] (highlightTextNode 1 page_abc)
       = highlightTextNode 1 page_abc.
Proof.
  apply (own_highlighting_is_ignored page_abc 1 text_abc).
  - apply (wf_ids (wellFormedb_sound page_abc eq_refl)).
  - simpl. auto.
  - reflexivity.
  - simpl. auto.
Defined.

(** X21: when the page goes away, the watcher is taken down.  On a tracked
    state that has a pagehide listener, the pagehide event leaves no
    pending timer, no subscribed observer, no listener of the debounced
    rescan and no wrapped history entry point; it runs no scan, and no
    event that follows runs one. *)
Theorem pagehide_takes_watcher_down (s : State) :
  tracked s ->
  (exists l, In l (listeners s) /\ evType l = "pagehide") ->
  quiet (dispatch (WindowEvent "pagehide") s)
  /\ forall es, scans (run es (dispatch (WindowEvent "pagehide") s))
                = scans s.
Proof.
  intros Ht Hl. destruct (pagehide_quiet s Ht Hl) as [Hq Hs].
  split; [exact Hq|]. intros es.
  destruct (quiet_run es _ Hq) as [_ H]. congruence.
Qed.

Lemma pagehide_takes_watcher_down_witness :
  timers page_navigated = [1]
  /\ quiet (dispatch (WindowEvent "pagehide") page_navigated)
  /\ scans (run [TimerFires 1; PushState []; WindowEvent "popstate"]
              (dispatch (WindowEvent "pagehide") page_navigated))
     = scans page_navigated.
Proof.
  split; [vm_compute; reflexivity|].
  destruct (pagehide_takes_watcher_down page_navigated) as [H1 H2].
  - apply trackedb_sound. vm_compute. reflexivity.
  - exists {| evType := "pagehide"; callback := Cleanup; once := true |}.
    split; [|reflexivity]. vm_compute. auto.
  - split; [exact H1|apply H2].
Defined.

End WatcherExtras.

Module ScanExtras.

Import Dom Page Props Watch Rescan Examples BannerExamples ScanExamples
  DomFacts ScanFacts BannerFacts PageFacts TeardownFacts CounterFacts
  WatchFacts RescanFacts UpdateFacts.

(** X10: a scan of a well-formed page leaves no em-dash outside the
    script's own elements: each one is inside a highlight afterwards. *)
Theorem scan_leaves_no_dash_outside (s : State) :
  wellFormed s -> dashesOutside (body (scanPage s)) = 0.
Proof. apply scanPage_complete. Qed.

Lemma scan_leaves_no_dash_outside_witness :
  dashesOutside (body page_abc) = 2
  /\ dashesOutside (body (scanPage page_abc)) = 0.
Proof.
  split; [vm_compute; reflexivity|].
  apply scan_leaves_no_dash_outside. apply wellFormedb_sound.
  vm_compute. reflexivity.
Defined.

(** X11: scanning keeps a page sound: after [scanPage] identities are still
    unique and below the next one, highlights hold text only, banner
    elements hold neither em-dash nor highlight, the banner reference
    designates a banner element, and the tree walker has nothing left to
    collect below the body. *)
Theorem scanPage_keeps_sound (s : State) :
  sound s ->
  sound (scanPage s) /\ treeWalker (body (scanPage s)) = [].
Proof.
  intros Hs. pose proof (scanPage_sound s Hs) as H. split; [exact H|].
  apply sound_no_walk; [exact H|]. apply scanPage_complete.
  now destruct Hs.
Qed.

Lemma scanPage_keeps_sound_witness :
  sound (scanPage page_grown)
  /\ treeWalker (body (scanPage page_grown)) = [].
Proof.
  apply scanPage_keeps_sound. apply soundb_sound. vm_compute. reflexivity.
Defined.

(** X12: on a sound page a second scan right after a scan counts nothing
    and takes the banner down: the counter is 0, the banner reference is
    cleared, the body is the body the first scan left without the banner
    element the script held, and that element is no longer below the body.
    The highlight elements and the page text are those the first scan
    left. *)
Theorem rescan_counts_nothing (s : State) :
  sound s ->
  emDashCount (scanPage (scanPage s)) = 0
  /\ warningBanner (scanPage (scanPage s)) = None
  /\ body (scanPage (scanPage s))
     = match warningBanner (scanPage s) with
       | Some b => removeNode b (body (scanPage s))
       | None => body (scanPage s)
       end
  /\ (forall b, warningBanner (scanPage s) = Some b ->
        ~ In b (childIds (body (scanPage (scanPage s)))))
  /\ highlights (body (scanPage (scanPage s)))
     = highlights (body (scanPage s))
  /\ pageText (body (scanPage (scanPage s))) = pageText (body (scanPage s)).
Proof.
  intros Hs. pose proof (scanPage_sound s Hs) as Hs1.
  pose proof Hs as [Hwf _].
  pose proof (scanPage_complete s Hwf) as H0.
  rewrite (scanPage_nothing (scanPage s) Hs1 H0).
  set (s1 := set_emDashCount 0
               (set_scans (S (scans (scanPage s))) (scanPage s))).
  assert (Hwf1 : wellFormed s1).
  { destruct Hs1 as [[Hu Hb Hsh Hr] _]. now split. }
  splits.
  - now rewrite removeBanner_count.
  - apply removeBanner_ref.
  - apply (removeBanner_body s1).
  - intros b Hb. now apply (removeBanner_gone s1 b).
  - destruct Hwf1 as [Hu Hb Hsh Hr].
    destruct (updateWarningBanner_page s1 Hu Hsh Hr) as (_ & Hh & _).
    exact Hh.
  - destruct Hwf1 as [Hu Hb Hsh Hr].
    destruct (updateWarningBanner_page s1 Hu Hsh Hr) as (Ht & _ & _).
    exact Ht.
Qed.

Lemma rescan_counts_nothing_witness :
  emDashCount (scanPage page_grown) = 1
  /\ warningBanner (scanPage page_grown) = Some 9
  /\ In 9 (childIds (body (scanPage page_grown)))
  /\ emDashCount (scanPage (scanPage page_grown)) = 0
  /\ warningBanner (scanPage (scanPage page_grown)) = None
  /\ ~ In 9 (childIds (body (scanPage (scanPage page_grown))))
  /\ highlights (body (scanPage (scanPage page_grown)))
     = highlights (body (scanPage page_grown)).
Proof.
  destruct (rescan_counts_nothing page_grown) as (H1 & H2 & _ & H4 & H5 & _).
  - apply soundb_sound. vm_compute. reflexivity.
  - assert (Hb : warningBanner (scanPage page_grown) = Some 9)
      by (vm_compute; reflexivity).
    splits.
    + vm_compute. reflexivity.
    + exact Hb.
    + vm_compute. tauto.
    + exact H1.
    + exact H2.
    + exact (H4 9 Hb).
    + exact H5.
Defined.

(** X13: [walkTextNodes] keeps a well-formed page well-formed, and a second
    walk below the same element changes nothing. *)
Theorem walkTextNodes_idempotent (el : nat) (s : State) :
  wellFormed s ->
  wellFormed (walkTextNodes el s)
  /\ walkTextNodes el (walkTextNodes el s) = walkTextNodes el s.
Proof.
  intros H. split; [now apply walkTextNodes_wellFormed|].
  now apply walkTextNodes_twice.
Qed.

Lemma walkTextNodes_idempotent_witness :
  emDashCount (walkTextNodes 17 page_grown) = 3
  /\ walkTextNodes 17 (walkTextNodes 17 page_grown)
     = walkTextNodes 17 page_grown.
Proof.
  split; [vm_compute; reflexivity|].
  apply walkTextNodes_idempotent. apply wellFormedb_sound.
  vm_compute. reflexivity.
Defined.

(** X14: what [highlightTextNode] puts in place of a text node that has a
    parent: text nodes that are not empty and hold no em-dash, and one
    highlight span per em-dash, each holding the single text node ["—"];
    the text of these nodes, in order, is the text of the node replaced,
    and the counter has grown by the number of em-dashes of that text. *)
Theorem highlight_fragment_shape (s : State) (t : nat) (d : jsstring) :
  uniqueIds s ->
  In (Text t d) (flat_map subnodes (forest s)) ->
  includes EM_DASH d = true ->
  In t (flat_map childIds (forest s)) ->
  exists frag,
    forest (highlightTextNode t s)
    = map (replaceChild t frag) (forest s) ++ [Text t d]
    /\ forallb piece frag = true
    /\ flat_map descendantText frag = d
    /\ List.length (flat_map allHighlights frag) = occurrences EM_DASH d
    /\ emDashCount (highlightTextNode t s)
       = emDashCount s + occurrences EM_DASH d.
Proof. apply highlight_pieces. Qed.

Lemma highlight_fragment_shape_witness :
  exists frag,
    forest (highlightTextNode 2 page_dashes)
    = map (replaceChild 2 frag) (forest page_dashes) ++ [Text 2 text_dashes]
    /\ forallb piece frag = true
    /\ flat_map descendantText frag = text_dashes
    /\ List.length (flat_map allHighlights frag)
       = occurrences EM_DASH text_dashes
    /\ emDashCount (highlightTextNode 2 page_dashes)
       = emDashCount page_dashes + occurrences EM_DASH text_dashes.
Proof.
  apply (highlight_fragment_shape page_dashes 2 text_dashes).
  - apply (wf_ids (wellFormedb_sound page_dashes eq_refl)).
  - simpl. auto.
  - reflexivity.
  - simpl. auto.
Defined.

(** X22: the first scan shows the banner exactly when there is something to
    show.  On a well-formed page on which the script holds no banner,
    after [scanPage] the counter is the number of em-dashes that were
    outside the script's elements, and the banner is a child of the body
    exactly when that number is not 0. *)
Theorem first_scan_shows_banner (s : State) :
  wellFormed s ->
  warningBanner s = None ->
  emDashCount (scanPage s) = dashesOutside (body s)
  /\ bannerShown (scanPage s) = (0 <? dashesOutside (body s))
  /\ (warningBanner (scanPage s) <> None <-> 0 < dashesOutside (body s)).
Proof.
  intros Hwf Hn.
  destruct (scanPage_walked s Hwf) as (s2 & E & W & _ & _ & Hw & Hc).
  destruct W as [Hu Hbody Hs Hb]. rewrite Hn in Hw.
  rewrite E, updateWarningBanner_count, Hc. split; [reflexivity|].
  rewrite (updateWarningBanner_shown s2 Hu Hbody Hb (or_introl Hw)), Hc.
  split; [reflexivity|].
  rewrite updateWarningBanner_ref, Hc, Hw.
  destruct (Nat.eqb_spec (dashesOutside (body s)) 0) as [E0|E0].
  - rewrite E0. split; [congruence|lia].
  - split; [lia|discriminate].
Qed.

Lemma first_scan_shows_banner_witness :
  emDashCount (scanPage page_abc) = dashesOutside (body page_abc)
  /\ bannerShown (scanPage page_abc) = true
  /\ bannerShown (scanPage page_empty) = false.
Proof.
  destruct (first_scan_shows_banner page_abc) as (H1 & H2 & _).
  - apply wellFormedb_sound. vm_compute. reflexivity.
  - reflexivity.
  - split; [exact H1|]. split; [rewrite H2; vm_compute; reflexivity|].
    vm_compute. reflexivity.
Defined.

(** X23: what [updateWarningBanner] does to a well-formed page, case by
    case.  It never changes the counter, the page text or the highlight
    elements, and afterwards the script holds a banner exactly when the
    counter is greater than 0.  With the counter at 0 the body is the body
    without the banner element the script held, which is no longer below
    the body; with no banner held either, nothing changes.  With a counter
    greater than 0 and no banner held, the new banner is appended as the
    last child of the body.  With a counter greater than 0 and a banner
    held, the script holds the same element, the children of the body are
    the nodes they were, so that the banner is a child of the body exactly
    if it was one before, at most one node was created, and the count
    element of the banner holds one text node, the counter in decimal. *)
Theorem updateWarningBanner_cases (s : State) :
  wellFormed s ->
  emDashCount (updateWarningBanner s) = emDashCount s
  /\ pageText (body (updateWarningBanner s)) = pageText (body s)
  /\ highlights (body (updateWarningBanner s)) = highlights (body s)
  /\ (warningBanner (updateWarningBanner s) <> None <-> 0 < emDashCount s)
  /\ (emDashCount s = 0 ->
      (warningBanner s = None -> updateWarningBanner s = s)
      /\ forall b, warningBanner s = Some b ->
           body (updateWarningBanner s) = removeNode b (body s)
           /\ ~ In b (childIds (body (updateWarningBanner s))))
  /\ (0 < emDashCount s -> warningBanner s = None ->
      warningBanner (updateWarningBanner s) = Some (nextId s)
      /\ childNodesOf (body (updateWarningBanner s))
         = childNodesOf (body s) ++ [bannerElement (nextId s) (emDashCount s)]
      /\ bannerShown (updateWarningBanner s) = true)
  /\ (0 < emDashCount s -> forall b, warningBanner s = Some b ->
      warningBanner (updateWarningBanner s) = Some b
      /\ map rootOf (childNodesOf (body (updateWarningBanner s)))
         = map rootOf (childNodesOf (body s))
      /\ bannerShown (updateWarningBanner s) = bannerShown s
      /\ nextId (updateWarningBanner s) <= S (nextId s)
      /\ forall bn ce,
           findInForest b (forest s) = Some bn ->
           querySelector COUNT bn = Some ce ->
           exists a,
             findInForest (nodeId ce) (forest (updateWarningBanner s))
             = Some (Element (nodeId ce) a
                       [Text (nextId s) (String_of_nat (emDashCount s))])).
Proof.
  intros [Hu Hbody Hsh Hr].
  destruct (updateWarningBanner_page s Hu Hsh Hr) as (Ht & Hh & Hc).
  splits; auto.
  - rewrite updateWarningBanner_ref.
    destruct (Nat.eqb_spec (emDashCount s) 0) as [E|E].
    + rewrite E. split; [congruence|lia].
    + split; [lia|]. intros _. destruct (warningBanner s); discriminate.
  - intros E.
    assert (Hrm : updateWarningBanner s = removeBanner s).
    { unfold updateWarningBanner. now rewrite E. }
    rewrite Hrm. split.
    + intros Hn. unfold removeBanner. now rewrite Hn.
    + intros b Hb. split.
      * now rewrite removeBanner_body, Hb.
      * now apply removeBanner_gone.
  - intros Hpos Hn.
    assert (E0 : (emDashCount s =? 0) = false) by (apply Nat.eqb_neq; lia).
    splits.
    + now rewrite updateWarningBanner_ref, E0, Hn.
    + unfold updateWarningBanner. rewrite E0, Hn.
      cbn [body set_body].
      destruct (body s) as [i y|i a cs|i y]; try contradiction.
      reflexivity.
    + rewrite updateWarningBanner_shown; auto.
      now apply Nat.ltb_lt.
  - intros Hpos b Hb.
    assert (E : emDashCount s <> 0) by lia.
    destruct (updateWarningBanner_in_place s b Hu Hr Hb E) as [Hk Hce].
    splits; auto.
    + rewrite updateWarningBanner_ref, Hb.
      apply Nat.eqb_neq in E. now rewrite E.
    + unfold bannerShown. rewrite updateWarningBanner_ref, Hb.
      apply Nat.eqb_neq in E. rewrite E.
      apply (existsb_rootOf b _ _ Hk).
    + apply updateWarningBanner_nextId. congruence.
Qed.

Lemma updateWarningBanner_cases_witness :
  (emDashCount page_counted = 3
   /\ warningBanner (updateWarningBanner page_counted) = Some 9
   /\ bannerShown page_counted = true
   /\ bannerShown (updateWarningBanner page_counted) = true)
  /\ (emDashCount page_bannerless = 2
      /\ warningBanner (updateWarningBanner page_bannerless) = Some 9
      /\ bannerShown page_bannerless = false
      /\ bannerShown (updateWarningBanner page_bannerless) = false).
Proof.
  split.
  - destruct (updateWarningBanner_cases page_counted)
      as (_ & _ & _ & _ & _ & _ & H).
    + apply wellFormedb_sound. vm_compute. reflexivity.
    + destruct (H ltac:(vm_compute; lia) 9 ltac:(vm_compute; reflexivity))
        as (H1 & _ & H3 & _).
      splits.
      * vm_compute. reflexivity.
      * exact H1.
      * vm_compute. reflexivity.
      * rewrite H3. vm_compute. reflexivity.
  - destruct (updateWarningBanner_cases page_bannerless)
      as (_ & _ & _ & _ & _ & _ & H).
    + apply wellFormedb_sound. vm_compute. reflexivity.
    + destruct (H ltac:(vm_compute; lia) 9 ltac:(vm_compute; reflexivity))
        as (H1 & _ & H3 & _).
      splits.
      * vm_compute. reflexivity.
      * exact H1.
      * vm_compute. reflexivity.
      * rewrite H3. vm_compute. reflexivity.
Defined.

End ScanExtras.

Module ServerExtras.

Import DevServer Reload ServerExamples DevFacts ReloadFacts.

(** X15: the grace period of the reload notifier is the first second, no
    more and no less: whatever happened since start-up, [startupGrace] is
    set exactly when fewer than 1000 ms have passed. *)
Theorem grace_is_the_first_second (es : list event) :
  startupGrace (run es boot) = (now (run es boot) <? 1000).
Proof. apply grace_iff. Qed.

(** X16: once the first second has passed, file changes that follow one
    another by less than 300 ms are answered by exactly one reload, 300 ms
    after the last of them: every open client is sent one more reload, the
    closed clients are forgotten, and no timer is left pending. *)
Theorem changes_are_debounced (es : list event) (pauses : list nat) :
  1000 <= now (run es boot) ->
  Forall (fun ms => ms < 300) pauses ->
  clients (run (changes pauses ++ [FileChanged; Elapse 300]) (run es boot))
  = reloaded (clients (run es boot))
  /\ pending (run (changes pauses ++ [FileChanged; Elapse 300])
                  (run es boot)) = [].
Proof.
  intros Hn Hp.
  assert (Hs : settled (run es boot)).
  { apply steady_settled; [apply run_steady, boot_steady|].
    rewrite grace_iff. apply Nat.ltb_ge. exact Hn. }
  rewrite run_app. destruct (changes_settled pauses _ Hs Hp) as [H1 H2].
  destruct (change_then_wait _ H1) as (C & P & _).
  rewrite C, P, H2. auto.
Qed.

Lemma changes_are_debounced_witness :
  clients (run after_grace boot)
  = [{| closed := true; reloads := 0 |}; {| closed := false; reloads := 0 |}]
  /\ clients (run (changes [100; 250] ++ [FileChanged; Elapse 300])
                  (run after_grace boot))
     = [{| closed := false; reloads := 1 |}].
Proof.
  split; [vm_compute; reflexivity|].
  destruct (changes_are_debounced after_grace [100; 250]) as [H _].
  - apply Nat.leb_le. vm_compute. reflexivity.
  - constructor; [lia|constructor; [lia|constructor]].
  - rewrite H. vm_compute. reflexivity.
Defined.

End ServerExtras.

Module ReadmeExtras.

Import Readme ReadmeExamples ReadmeFacts.

(** X17: [buildInstallReadme] gives up with exit code 1 exactly when one of
    the two markers does not occur in the README. *)
Theorem readme_fails_without_markers (readme : jsstring) :
  buildInstallReadme readme = Exit 1
  <-> ~ occurs startMarker readme \/ ~ occurs endMarker readme.
Proof. apply build_exit. Qed.

(** X18: when the README holds the start marker, a section and the end
    marker in this order, with no marker earlier, the file written is the
    header, the section without the white space around it, and the
    footer. *)
Theorem readme_section_is_extracted (pre sec post : jsstring) :
  ~ occurs startMarker pre ->
  ~ occurs endMarker (pre ++ startMarker ++ sec) ->
  buildInstallReadme (pre ++ startMarker ++ sec ++ endMarker ++ post)
  = Wrote "INSTALLATION_HELP.txt" (HEADER ++ trim sec ++ FOOTER).
Proof. apply build_in_order. Qed.

Lemma readme_section_is_extracted_witness :
  buildInstallReadme
    (readme_pre ++ startMarker ++ readme_section ++ endMarker ++ readme_post)
  = Wrote "INSTALLATION_HELP.txt"
      (HEADER ++ lit "1. Unzip the archive" ++ nl ++ lit "2. Load it"
         ++ FOOTER).
Proof.
  rewrite (readme_section_is_extracted readme_pre readme_section readme_post).
  - vm_compute. reflexivity.
  - apply indexOf_None. vm_compute. reflexivity.
  - apply indexOf_None. vm_compute. reflexivity.
Defined.

(** X19: when the first end marker comes before the first start marker the
    script reports no error: it writes the header and the footer with
    nothing in between. *)
Theorem readme_markers_out_of_order (pre mid post : jsstring) :
  ~ occurs endMarker pre ->
  ~ occurs startMarker (pre ++ endMarker ++ mid) ->
  buildInstallReadme (pre ++ endMarker ++ mid ++ startMarker ++ post)
  = Wrote "INSTALLATION_HELP.txt" (HEADER ++ FOOTER).
Proof. apply build_out_of_order. Qed.

Lemma readme_markers_out_of_order_witness :
  buildInstallReadme
    (readme_pre ++ endMarker ++ readme_section ++ startMarker ++ readme_post)
  = Wrote "INSTALLATION_HELP.txt" (HEADER ++ FOOTER).
Proof.
  apply (readme_markers_out_of_order readme_pre readme_section readme_post).
  - apply indexOf_None. vm_compute. reflexivity.
  - apply indexOf_None. vm_compute. reflexivity.
Defined.

(** X20: whatever the README, what [buildInstallReadme] writes goes to
    INSTALLATION_HELP.txt and is the header, a piece of the README that
    neither begins nor ends with white space, and the footer. *)
Theorem readme_output_shape (readme : jsstring) (f : string) (c : jsstring) :
  buildInstallReadme readme = Wrote f c ->
  f = "INSTALLATION_HELP.txt"%string
  /\ exists sec, c = HEADER ++ sec ++ FOOTER
                 /\ trimmed sec /\ occurs sec readme.
Proof. apply build_wrote. Qed.

Lemma readme_output_shape_witness :
  exists sec,
    HEADER ++ lit "2. Load it" ++ FOOTER = HEADER ++ sec ++ FOOTER
    /\ trimmed sec
    /\ occurs sec (readme_pre ++ startMarker ++ lit "  2. Load it "
                     ++ endMarker).
Proof.
  apply (readme_output_shape
           (readme_pre ++ startMarker ++ lit "  2. Load it " ++ endMarker)
           "INSTALLATION_HELP.txt"
           (HEADER ++ lit "2. Load it" ++ FOOTER)).
  vm_compute. reflexivity.
Defined.

End ReadmeExtras.
